(** * im.darts: the darts score keeper (component [DartsManagerApp])

    A shallow embedding of the state handling and of the hit resolution of
    the React component.  Every [useState] cell of the component is a field
    of [GameState]; every handler is a function on [GameState].  A state
    updater that raises a JavaScript exception is a [Throw].

    Numbers: ids, multipliers and indices are integers ([Z]).  The scores
    are modelled twice.  In [GameState] they are integers ([Z]): the exact
    values, which are what the code computes as long as every score, delta
    and starting score is an integer strictly between -2^53 and 2^53
    (lemmas [step_double] and [run_double]).  In module [Double] they are
    IEEE 754 binary64 floats, as in the code, with the primitive [+], [-]
    and unary [-]; the statements that depend on the score arithmetic
    (score and history, undo after record, runs of hits) are made there.
    The pointer geometry (pixels, angles) is modelled over the exact reals
    ([R]) with the real [sqrt], [atan], [cos] and [sin], so the results on
    the geometry are results of exact arithmetic, not of IEEE doubles. *)

From Stdlib Require Import Floats.
From Stdlib Require Import ZArith List String Bool Lia.
From Stdlib Require Import DecimalString DecimalZ DecimalPos.
From Stdlib Require Import Reals Lra.
Import ListNotations.

Open Scope Z_scope.

(** ** JavaScript values and exceptions *)

Inductive JsError : Type :=
  | TypeError.

Inductive result (A : Type) : Type :=
  | Ok (a : A)
  | Throw (e : JsError).

Arguments Ok {A} a.
Arguments Throw {A} e.

Definition bind {A B : Type} (r : result A) (k : A -> result B) : result B :=
  match r with
  | Ok a => k a
  | Throw e => Throw e
  end.

Notation "x <- r ;; k" := (bind r (fun x => k))
  (at level 61, r at next level, right associativity).

(** A value of type [string | number]. *)
Inductive JsLabel : Type :=
  | LStr (s : string)
  | LNum (n : Z).

(** [String(n)] and [`${n}`] for an integer [n]. *)
Definition String_of (n : Z) : string :=
  NilZero.string_of_int (Z.to_int n).

(** [l[i]]: [undefined] (here [None]) outside the array. *)
Definition at_index {A : Type} (l : list A) (i : Z) : option A :=
  if i <? 0 then None else nth_error l (Z.to_nat i).

(** [l[i] = v] for an index inside the array.  The handlers below reach the
    assignment only after [l[i]] was read successfully, so the extension of
    the array that JavaScript performs out of range never happens. *)
Fixpoint assign_nat {A : Type} (l : list A) (n : nat) (v : A) : list A :=
  match l, n with
  | [], _ => []
  | _ :: t, O => v :: t
  | h :: t, S m => h :: assign_nat t m v
  end.

Definition assign {A : Type} (l : list A) (i : Z) (v : A) : list A :=
  if i <? 0 then l else assign_nat l (Z.to_nat i) v.

(** ** Data model

    Scores and deltas are [Z] in these records: the exact integer values.
    The code holds them in doubles; the records of module [Double] below
    have them as floats. *)

Record ScoreEvent : Type := mkScoreEvent {
  desc : string;
  delta : Z
}.

Record Player : Type := mkPlayer {
  id : string;
  name : string;
  score : Z;
  history : list ScoreEvent   (* most recent first *)
}.

Record LastHit : Type := mkLastHit {
  svgX : R;
  svgY : R;
  distSvg : R;
  atanDeg : R;
  angleFromTop : R;
  sectorIndex : Z;
  sectorNumber : option Z;    (* number | null *)
  mult : Z;
  rawScore : Z
}.

(** The manual selection: [number | 'BULL' | 'OB']. *)
Inductive ManualSector : Type :=
  | BULL
  | OB
  | Sector (n : Z).

Record GameState : Type := mkGameState {
  startingScore : Z;
  players : list Player;
  activePlayerIndex : Z;
  isRunning : bool;
  nextId : Z;
  showAddPlayer : bool;
  newPlayerName : string;
  showDebug : bool;
  lastHit : option LastHit;
  manualSector : ManualSector;
  manualMult : Z
}.

(** The state of the component when it is mounted. *)
Definition initialState : GameState :=
  {| startingScore := 501;
     players := [];
     activePlayerIndex := 0;
     isRunning := false;
     nextId := 1;
     showAddPlayer := false;
     newPlayerName := EmptyString;
     showDebug := false;
     lastHit := None;
     manualSector := BULL;
     manualMult := 1 |}.

(** ** The state setters *)

(** The argument is an integer in this model; [Double.setStartingScore]
    takes any double, as [Number(v||0)] hands over. *)
Definition setStartingScore (n : Z) (s : GameState) : GameState :=
  {| startingScore := n;
     players := players s;
     activePlayerIndex := activePlayerIndex s;
     isRunning := isRunning s;
     nextId := nextId s;
     showAddPlayer := showAddPlayer s;
     newPlayerName := newPlayerName s;
     showDebug := showDebug s;
     lastHit := lastHit s;
     manualSector := manualSector s;
     manualMult := manualMult s |}.

(** [setPlayers(prev => ...)]: the updater may raise; then there is no next
    state. *)
Definition setPlayers (upd : list Player -> result (list Player))
    (s : GameState) : result GameState :=
  ps <- upd (players s) ;;
  Ok {| startingScore := startingScore s;
        players := ps;
        activePlayerIndex := activePlayerIndex s;
        isRunning := isRunning s;
        nextId := nextId s;
        showAddPlayer := showAddPlayer s;
        newPlayerName := newPlayerName s;
        showDebug := showDebug s;
        lastHit := lastHit s;
        manualSector := manualSector s;
        manualMult := manualMult s |}.

Definition setActivePlayerIndex (upd : Z -> Z) (s : GameState) : GameState :=
  {| startingScore := startingScore s;
     players := players s;
     activePlayerIndex := upd (activePlayerIndex s);
     isRunning := isRunning s;
     nextId := nextId s;
     showAddPlayer := showAddPlayer s;
     newPlayerName := newPlayerName s;
     showDebug := showDebug s;
     lastHit := lastHit s;
     manualSector := manualSector s;
     manualMult := manualMult s |}.

Definition setIsRunning (upd : bool -> bool) (s : GameState) : GameState :=
  {| startingScore := startingScore s;
     players := players s;
     activePlayerIndex := activePlayerIndex s;
     isRunning := upd (isRunning s);
     nextId := nextId s;
     showAddPlayer := showAddPlayer s;
     newPlayerName := newPlayerName s;
     showDebug := showDebug s;
     lastHit := lastHit s;
     manualSector := manualSector s;
     manualMult := manualMult s |}.

Definition setNextId (upd : Z -> Z) (s : GameState) : GameState :=
  {| startingScore := startingScore s;
     players := players s;
     activePlayerIndex := activePlayerIndex s;
     isRunning := isRunning s;
     nextId := upd (nextId s);
     showAddPlayer := showAddPlayer s;
     newPlayerName := newPlayerName s;
     showDebug := showDebug s;
     lastHit := lastHit s;
     manualSector := manualSector s;
     manualMult := manualMult s |}.

Definition setShowAddPlayer (b : bool) (s : GameState) : GameState :=
  {| startingScore := startingScore s;
     players := players s;
     activePlayerIndex := activePlayerIndex s;
     isRunning := isRunning s;
     nextId := nextId s;
     showAddPlayer := b;
     newPlayerName := newPlayerName s;
     showDebug := showDebug s;
     lastHit := lastHit s;
     manualSector := manualSector s;
     manualMult := manualMult s |}.

Definition setNewPlayerName (v : string) (s : GameState) : GameState :=
  {| startingScore := startingScore s;
     players := players s;
     activePlayerIndex := activePlayerIndex s;
     isRunning := isRunning s;
     nextId := nextId s;
     showAddPlayer := showAddPlayer s;
     newPlayerName := v;
     showDebug := showDebug s;
     lastHit := lastHit s;
     manualSector := manualSector s;
     manualMult := manualMult s |}.

Definition setShowDebug (b : bool) (s : GameState) : GameState :=
  {| startingScore := startingScore s;
     players := players s;
     activePlayerIndex := activePlayerIndex s;
     isRunning := isRunning s;
     nextId := nextId s;
     showAddPlayer := showAddPlayer s;
     newPlayerName := newPlayerName s;
     showDebug := b;
     lastHit := lastHit s;
     manualSector := manualSector s;
     manualMult := manualMult s |}.

Definition setLastHit (h : option LastHit) (s : GameState) : GameState :=
  {| startingScore := startingScore s;
     players := players s;
     activePlayerIndex := activePlayerIndex s;
     isRunning := isRunning s;
     nextId := nextId s;
     showAddPlayer := showAddPlayer s;
     newPlayerName := newPlayerName s;
     showDebug := showDebug s;
     lastHit := h;
     manualSector := manualSector s;
     manualMult := manualMult s |}.

Definition setManualSector (v : ManualSector) (s : GameState) : GameState :=
  {| startingScore := startingScore s;
     players := players s;
     activePlayerIndex := activePlayerIndex s;
     isRunning := isRunning s;
     nextId := nextId s;
     showAddPlayer := showAddPlayer s;
     newPlayerName := newPlayerName s;
     showDebug := showDebug s;
     lastHit := lastHit s;
     manualSector := v;
     manualMult := manualMult s |}.

Definition setManualMult (v : Z) (s : GameState) : GameState :=
  {| startingScore := startingScore s;
     players := players s;
     activePlayerIndex := activePlayerIndex s;
     isRunning := isRunning s;
     nextId := nextId s;
     showAddPlayer := showAddPlayer s;
     newPlayerName := newPlayerName s;
     showDebug := showDebug s;
     lastHit := lastHit s;
     manualSector := manualSector s;
     manualMult := v |}.

(** ** Players and turns *)

(** [name || `Игрок: ${nextId}`]: the empty string is falsy. *)
Definition addPlayer (name0 : string) (s : GameState) : result GameState :=
  let p := {| id := String_of (nextId s);
              name := match name0 with
                      | EmptyString => ("Игрок: " ++ String_of (nextId s))%string
                      | _ => name0
                      end;
              score := startingScore s;
              history := [] |} in
  let s1 := setNextId (fun n => n + 1) s in
  s2 <- setPlayers (fun prev => Ok (prev ++ [p])) s1 ;;
  Ok (setShowAddPlayer false s2).

Definition resetGame (s : GameState) : result GameState :=
  s1 <- setPlayers (fun p =>
          Ok (map (fun pl => {| id := id pl; name := name pl;
                                score := startingScore s;
                                history := [] |}) p)) s ;;
  let s2 := setActivePlayerIndex (fun _ => 0) s1 in
  let s3 := setIsRunning (fun _ => false) s2 in
  Ok (setLastHit None s3).

Definition removePlayer (id0 : string) (s : GameState) : result GameState :=
  s1 <- setPlayers (fun prev =>
          Ok (filter (fun p => negb (String.eqb (id p) id0)) prev)) s ;;
  Ok (setActivePlayerIndex (fun _ => 0) s1).

(** In [recordHit] the read [copy[playerIndex]] gives [undefined] out of
    range; [{ ...undefined }] is the empty object, [pl.score + delta] is
    then [NaN], and the array spread [...pl.history] of [undefined] raises a
    [TypeError].
    The sum [pl.score + delta] is the exact one here;
    [Double.recordHit] has the addition of doubles. *)
Definition recordHit (playerIndex : Z) (label : JsLabel) (multiplier : Z)
    (rawScore0 : Z) (s : GameState) : result GameState :=
  setPlayers (fun prev =>
    let copy := prev in
    match at_index copy playerIndex with
    | None => Throw TypeError
    | Some pl =>
        let desc0 := match label with
                     | LNum n => (String_of multiplier ++ "×" ++ String_of n)%string
                     | LStr l => l
                     end in
        let delta0 := - rawScore0 in
        let pl' := {| id := id pl; name := name pl;
                      score := score pl + delta0;
                      history := {| desc := desc0; delta := delta0 |}
                                 :: history pl |} in
        Ok (assign copy playerIndex pl')
    end) s.

(** In [undoLast] the read [pl.history[0]] on the empty object raises a
    [TypeError] when [playerIndex] is out of range; with an empty history
    [last] is [undefined] and the updater returns [prev].
    The difference [pl.score - last.delta] is the exact one here;
    [Double.undoLast] has the subtraction of doubles. *)
Definition undoLast (playerIndex : Z) (s : GameState) : result GameState :=
  setPlayers (fun prev =>
    let copy := prev in
    match at_index copy playerIndex with
    | None => Throw TypeError
    | Some pl =>
        match history pl with
        | [] => Ok prev
        | last :: rest =>
            let pl' := {| id := id pl; name := name pl;
                          score := score pl - delta last;
                          history := rest |} in
            Ok (assign copy playerIndex pl')
        end
    end) s.

Definition nextTurn (s : GameState) : result GameState :=
  Ok (setActivePlayerIndex (fun i =>
        match players s with
        | [] => 0
        | _ => Z.rem (i + 1) (Z.of_nat (List.length (players s)))
        end) s).

(** ** Board geometry *)

(** Clockwise order starting at the top (20). *)
Definition SECTORS : list Z :=
  [20; 1; 18; 4; 13; 6; 10; 15; 2; 17; 3; 19; 7; 16; 8; 11; 14; 9; 12; 5].

Definition SVG_RADIUS : R := 50.
Definition BOARD_OUTER : R := 48.
Definition DOUBLE_OUTER : R := 44.
Definition DOUBLE_INNER : R := 38.
Definition TRIPLE_OUTER : R := 28.
Definition TRIPLE_INNER : R := 23.
Definition OUTER_BULL_R : R := 10.
Definition INNER_BULL_R : R := 5.

(** ** The [Math] functions and operators of the geometry, on the reals *)

(** [a <= b] and [a >= b] on numbers. *)
Definition Rleb (a b : R) : bool := if Rle_dec a b then true else false.
Definition Rgeb (a b : R) : bool := if Rge_dec a b then true else false.

Definition Math_hypot (x y : R) : R := sqrt (x * x + y * y).

(** [Math.atan2(y, x)], in radians, in the range -PI .. PI. *)
Definition Math_atan2 (y x : R) : R :=
  if Rlt_dec 0 x then atan (y / x)
  else if Rlt_dec x 0 then
    (if Rle_dec 0 y then atan (y / x) + PI else atan (y / x) - PI)%R
  else if Rlt_dec 0 y then (PI / 2)%R
  else if Rlt_dec y 0 then (- (PI / 2))%R
  else 0%R.

(** The largest integer not above [r]. *)
Definition Math_floor (r : R) : Z := Int_part r.

(** [Math.round(r)]: the integer nearest to [r]; of two equally near
    integers the one closer to +infinity. *)
Definition Math_round (r : R) : Z := Math_floor (r + / 2).

(** [a % b] on numbers: the remainder has the sign of the dividend, the
    quotient is truncated toward zero. *)
Definition Rtrunc (r : R) : Z :=
  if Rle_dec 0 r then Math_floor r else (- Math_floor (- r))%Z.

Definition Rrem (a b : R) : R := (a - b * IZR (Rtrunc (a / b)))%R.

(** [Number(r.toFixed(2))]: [r] rounded to two decimals, a tie away from
    zero. *)
Definition toFixed2 (r : R) : R :=
  if Rlt_dec r 0
  then (- (IZR (Math_floor (- r * 100 + / 2)) / 100))%R
  else (IZR (Math_floor (r * 100 + / 2)) / 100)%R.

(** ** Hit handling *)

Record DOMRect : Type := mkDOMRect {
  left : R;
  top : R;
  width : R;
  height : R
}.

Record MouseEvent : Type := mkMouseEvent {
  clientX : R;
  clientY : R
}.

(** [Math.atan2(y, x) * 180 / Math.PI] and [(atanDeg + 90 + 360) % 360]:
    the two expressions that [onBoardClick] and [makeLastHit] share. *)
Definition atanDegOf (y x : R) : R := (Math_atan2 y x * 180 / PI)%R.

Definition angleFromTopOf (atanDeg0 : R) : R :=
  Rrem (atanDeg0 + 90 + 360) 360.

Definition sectorIndexOf (angleFromTop0 : R) : Z :=
  Z.rem (Math_round (angleFromTop0 / 18)) 20.

Definition makeLastHit (distSvg0 x y : R) (sectorNumber0 : JsLabel)
    (mult0 rawScore0 : Z) (atanDeg0 angleFromTop0 : option R)
    (sectorIndex0 : option Z) : LastHit :=
  let atanDegVal := match atanDeg0 with
                    | Some a => a
                    | None => atanDegOf y x
                    end in
  let angleFromTopVal := match angleFromTop0 with
                         | Some a => a
                         | None => angleFromTopOf atanDegVal
                         end in
  let thetaRad := ((90 - angleFromTopVal) * PI / 180)%R in
  let svgX0 := (50 + distSvg0 * cos thetaRad)%R in
  let svgY0 := (50 - distSvg0 * sin thetaRad)%R in
  {| svgX := svgX0;
     svgY := svgY0;
     distSvg := distSvg0;
     atanDeg := toFixed2 atanDegVal;
     angleFromTop := toFixed2 angleFromTopVal;
     sectorIndex := match sectorIndex0 with
                    | Some i => i
                    | None => sectorIndexOf angleFromTopVal
                    end;
     sectorNumber := match sectorNumber0 with
                     | LNum n => Some n
                     | LStr _ => None
                     end;
     mult := mult0;
     rawScore := rawScore0 |}.

(** [SECTORS[sectorIndex]].  [sectorIndexOf] is always in 0..19 (lemma
    [sectorIndexOf_range]), so the read is never out of range and the
    default is never returned. *)
Definition sectorAt (i : Z) : Z := nth (Z.to_nat i) SECTORS 0.

Definition onBoardClick (el : option DOMRect) (e : MouseEvent)
    (s : GameState) : result GameState :=
  match players s with
  | [] => Ok s
  | _ =>
  match el with
  | None => Ok s
  | Some rect =>
    let cx := (left rect + width rect / 2)%R in
    let cy := (top rect + height rect / 2)%R in
    let x := (clientX e - cx)%R in
    let y := (clientY e - cy)%R in
    let distPx := Math_hypot x y in
    let Rpx := (width rect / 2)%R in
    let innerBullR_px := (Rpx * (INNER_BULL_R / SVG_RADIUS))%R in
    let outerBullR_px := (Rpx * (OUTER_BULL_R / SVG_RADIUS))%R in
    let tripleOuter_px := (Rpx * (TRIPLE_OUTER / SVG_RADIUS))%R in
    let tripleInner_px := (Rpx * (TRIPLE_INNER / SVG_RADIUS))%R in
    let doubleOuter_px := (Rpx * (DOUBLE_OUTER / SVG_RADIUS))%R in
    let doubleInner_px := (Rpx * (DOUBLE_INNER / SVG_RADIUS))%R in
    if Rleb distPx innerBullR_px then
      let distSvg0 := (distPx / Rpx * SVG_RADIUS)%R in
      s1 <- recordHit (activePlayerIndex s) (LStr "Яблочко (50)") 1 50 s ;;
      Ok (setLastHit
            (Some (makeLastHit distSvg0 x y (LNum 50) 1 50 None None None)) s1)
    else if Rleb distPx outerBullR_px then
      let distSvg0 := (distPx / Rpx * SVG_RADIUS)%R in
      s1 <- recordHit (activePlayerIndex s) (LStr "Внешний центр (25)") 1 25 s ;;
      Ok (setLastHit
            (Some (makeLastHit distSvg0 x y (LNum 25) 1 25 None None None)) s1)
    else
      let atanDeg0 := atanDegOf y x in
      let angleFromTop0 := angleFromTopOf atanDeg0 in
      let sectorFloat := (angleFromTop0 / 18)%R in
      let sectorIndex0 := Z.rem (Math_round sectorFloat) 20 in
      let sectorNumber0 := sectorAt sectorIndex0 in
      let mult0 :=
        if Rgeb distPx tripleInner_px && Rleb distPx tripleOuter_px then 3
        else if Rgeb distPx doubleInner_px && Rleb distPx doubleOuter_px then 2
        else 1 in
      let rawScore0 := sectorNumber0 * mult0 in
      s1 <- recordHit (activePlayerIndex s) (LNum sectorNumber0) mult0
              rawScore0 s ;;
      let distSvg0 := (distPx / Rpx * SVG_RADIUS)%R in
      Ok (setLastHit
            (Some (makeLastHit distSvg0 x y (LNum sectorNumber0) mult0
                     rawScore0 (Some atanDeg0) (Some angleFromTop0)
                     (Some sectorIndex0))) s1)
  end
  end.

Definition applyManualHit (s : GameState) : result GameState :=
  match players s with
  | [] => Ok s
  | _ =>
    match manualSector s with
    | BULL =>
        s1 <- recordHit (activePlayerIndex s) (LStr "Яблочко (50)") 1 50 s ;;
        let distSvg0 := INNER_BULL_R in
        Ok (setLastHit
              (Some (makeLastHit distSvg0 0 (- distSvg0) (LNum 50) 1 50
                       None None None)) s1)
    | OB =>
        s1 <- recordHit (activePlayerIndex s) (LStr "Внешний центр (25)") 1 25 s ;;
        let distSvg0 := OUTER_BULL_R in
        Ok (setLastHit
              (Some (makeLastHit distSvg0 0 (- distSvg0) (LNum 25) 1 25
                       None None None)) s1)
    | Sector n =>
        let sectorNumber0 := n in
        let raw := sectorNumber0 * manualMult s in
        s1 <- recordHit (activePlayerIndex s) (LNum sectorNumber0)
                (manualMult s) raw s ;;
        Ok (setLastHit
              (Some (makeLastHit TRIPLE_OUTER 0 (- TRIPLE_OUTER)
                       (LNum sectorNumber0) (manualMult s) raw
                       None None None)) s1)
    end
  end.

(** ** The commands of the component, and runs of them *)

Inductive Action : Type :=
  | AddPlayer (name0 : string)
  | ResetGame
  | RemovePlayer (id0 : string)
  | RecordHit (playerIndex : Z) (label : JsLabel) (multiplier rawScore0 : Z)
  | UndoLast (playerIndex : Z)
  | NextTurn
  | SetStartingScore (n : Z)
  | ToggleRunning
  | SelectActivePlayer (index : Z)
  | BoardClick (el : option DOMRect) (e : MouseEvent)
  | SetManualSector (v : ManualSector)
  | SetManualMult (v : Z)
  | ApplyManualHit.

Definition step (a : Action) (s : GameState) : result GameState :=
  match a with
  | AddPlayer n => addPlayer n s
  | ResetGame => resetGame s
  | RemovePlayer i => removePlayer i s
  | RecordHit i l m r => recordHit i l m r s
  | UndoLast i => undoLast i s
  | NextTurn => nextTurn s
  | SetStartingScore n => Ok (setStartingScore n s)
  | ToggleRunning => Ok (setIsRunning negb s)
  | SelectActivePlayer i => Ok (setActivePlayerIndex (fun _ => i) s)
  | BoardClick el e => onBoardClick el e s
  | SetManualSector v => Ok (setManualSector v s)
  | SetManualMult v => Ok (setManualMult v s)
  | ApplyManualHit => applyManualHit s
  end.

Fixpoint run (acts : list Action) (s : GameState) : result GameState :=
  match acts with
  | [] => Ok s
  | a :: rest => s1 <- step a s ;; run rest s1
  end.

(** ** Score bookkeeping: the predicates of the invariants *)

Definition sumDelta (h : list ScoreEvent) : Z :=
  fold_right (fun e acc => delta e + acc) 0 h.

(** [score == startingScore + sum(e.delta for e in history)] for one
    player, and for all players of a state. *)
Definition consistent_player (start : Z) (p : Player) : Prop :=
  score p = start + sumDelta (history p).

Definition consistent (s : GameState) : Prop :=
  Forall (consistent_player (startingScore s)) (players s).

(** A command keeps the baseline of the scores unless it is a
    [setStartingScore] that changes the value while players exist. *)
Definition keeps_baseline (a : Action) (s : GameState) : bool :=
  match a with
  | SetStartingScore n =>
      match players s with
      | [] => true
      | _ => n =? startingScore s
      end
  | _ => true
  end.

(** [in_sync acts s ok]: along the run of [acts] from [s], is the last
    state in sync with the configured starting score?  [ok] says whether
    [s] is; [resetGame] re-synchronises, a baseline-changing
    [setStartingScore] desynchronises. *)
Fixpoint in_sync (acts : list Action) (s : GameState) (ok : bool) : bool :=
  match acts with
  | [] => ok
  | a :: rest =>
      match step a s with
      | Ok s1 =>
          in_sync rest s1
            (match a with
             | ResetGame => true
             | _ => ok && keeps_baseline a s
             end)
      | Throw _ => false
      end
  end.

(** A valid player index. *)
Definition valid_index (s : GameState) (i : Z) : Prop :=
  0 <= i < Z.of_nat (List.length (players s)).

(** ** The ring of a hit, in the two spaces *)

Inductive Ring : Type :=
  | InnerBull
  | OuterBull
  | Triple
  | Double
  | Single.

(** The classification [onBoardClick] performs, in pixels: the comparisons
    of its lines 125, 131, 151 and 152 in their order, on the ring radii
    scaled by [Rpx / 50] (lemma [onBoardClick_ring_px] ties it to
    [onBoardClick]). *)
Definition ring_px (distPx Rpx : R) : Ring :=
  if Rleb distPx (Rpx * (INNER_BULL_R / SVG_RADIUS)) then InnerBull
  else if Rleb distPx (Rpx * (OUTER_BULL_R / SVG_RADIUS)) then OuterBull
  else if Rgeb distPx (Rpx * (TRIPLE_INNER / SVG_RADIUS))
          && Rleb distPx (Rpx * (TRIPLE_OUTER / SVG_RADIUS)) then Triple
  else if Rgeb distPx (Rpx * (DOUBLE_INNER / SVG_RADIUS))
          && Rleb distPx (Rpx * (DOUBLE_OUTER / SVG_RADIUS)) then Double
  else Single.

(** The classification in the words of the specification, in the
    normalized board space of radius 50: inner bull up to 5, outer bull up
    to 10, triple ring 23..28, double ring 38..44, bounds inclusive. *)
Definition spec_ring_normalized (d : R) : Ring :=
  if Rle_dec d 5 then InnerBull
  else if Rle_dec d 10 then OuterBull
  else if Rle_dec 23 d then
    (if Rle_dec d 28 then Triple
     else if Rle_dec 38 d then (if Rle_dec d 44 then Double else Single)
     else Single)
  else Single.

(** [normalized = real * (50 / displayRadius)]. *)
Definition normalized (real displayRadius : R) : R :=
  (real * (50 / displayRadius))%R.

(** The multiplier of a ring. *)
Definition ring_mult (r : Ring) : Z :=
  match r with
  | Triple => 3
  | Double => 2
  | _ => 1
  end.

(** ** The pointer in the frame of the board

    The local constants [x], [y], [distPx] and [Rpx] of [onBoardClick], as
    functions of the bounding rectangle and of the mouse event. *)

Definition pointerX (rect : DOMRect) (e : MouseEvent) : R :=
  (clientX e - (left rect + width rect / 2))%R.

Definition pointerY (rect : DOMRect) (e : MouseEvent) : R :=
  (clientY e - (top rect + height rect / 2))%R.

Definition pixelDistance (rect : DOMRect) (e : MouseEvent) : R :=
  Math_hypot (pointerX rect e) (pointerY rect e).

Definition pixelRadius (rect : DOMRect) : R := (width rect / 2)%R.

(** The result of [onBoardClick] on each of its three paths, given the
    state [s1] that [recordHit] returned. *)
Definition bullHit (rect : DOMRect) (e : MouseEvent) (raw : Z) : LastHit :=
  makeLastHit (pixelDistance rect e / pixelRadius rect * SVG_RADIUS)
    (pointerX rect e) (pointerY rect e) (LNum raw) 1 raw None None None.

Definition sectorHit (rect : DOMRect) (e : MouseEvent) : LastHit :=
  let atanDeg0 := atanDegOf (pointerY rect e) (pointerX rect e) in
  let angleFromTop0 := angleFromTopOf atanDeg0 in
  let sectorIndex0 := sectorIndexOf angleFromTop0 in
  let sectorNumber0 := sectorAt sectorIndex0 in
  let mult0 := ring_mult (ring_px (pixelDistance rect e) (pixelRadius rect)) in
  makeLastHit (pixelDistance rect e / pixelRadius rect * SVG_RADIUS)
    (pointerX rect e) (pointerY rect e) (LNum sectorNumber0) mult0
    (sectorNumber0 * mult0) (Some atanDeg0) (Some angleFromTop0)
    (Some sectorIndex0).

(** Player ids are unique and were all issued below the id counter. *)
Definition ids_fresh (s : GameState) : Prop :=
  NoDup (map id (players s)) /\
  forall i, In i (map id (players s)) ->
    exists k, i = String_of k /\ k < nextId s.

(** ** The commands the component itself can issue

    The table offers "pass the turn", "undo" and "remove" only on the rows
    of existing players, and [recordHit] is called only by [onBoardClick]
    and [applyManualHit], with [activePlayerIndex]. *)
Definition ui_enabled (a : Action) (s : GameState) : bool :=
  match a with
  | RecordHit _ _ _ _ => false
  | UndoLast i | SelectActivePlayer i =>
      (0 <=? i) && (i <? Z.of_nat (List.length (players s)))
  | RemovePlayer id0 => existsb (fun p => String.eqb (id p) id0) (players s)
  | _ => true
  end.

Fixpoint ui_run (acts : list Action) (s : GameState) : bool :=
  match acts with
  | [] => true
  | a :: rest =>
      ui_enabled a s &&
      match step a s with
      | Ok s1 => ui_run rest s1
      | Throw _ => true
      end
  end.

(** The active index points at a player, or is 0 while there is none. *)
Definition turn_ok (s : GameState) : Prop :=
  (players s = [] /\ activePlayerIndex s = 0) \/
  valid_index s (activePlayerIndex s).

(** ** The drawn board

    The wedge of index [i] in the SVG of the board is drawn from
    [startAngle] to [endAngle] (radians, 0 at the right, growing clockwise
    on the screen, the convention of [Math.atan2(y, x)] with [y] down), and
    is labelled [SECTORS[i]]. *)
Definition startAngle (i : Z) : R := ((IZR i * 18 - 99) * PI / 180)%R.

Definition endAngle (i : Z) : R := (((IZR i + 1) * 18 - 99) * PI / 180)%R.

(** The direction [phi] points into the wedge [i], up to full turns; the
    edge at [startAngle] counts as inside, the edge at [endAngle] not. *)
Definition inWedge (i : Z) (phi : R) : Prop :=
  exists k : Z,
    (startAngle i <= phi + 2 * IZR k * PI)%R /\
    (phi + 2 * IZR k * PI < endAngle i)%R.

(** ** Vocabulary of the further properties *)

(** A run of [recordHit] calls for one player. *)
Definition hitActions (i : Z) (hits : list (JsLabel * Z * Z)) : list Action :=
  map (fun h => RecordHit i (fst (fst h)) (snd (fst h)) (snd h)) hits.

(** [s'] is [s] after the hit [h] was recorded for the active player and
    stored as the last hit: the active player lost [rawScore h] and has one
    more event in front of its history; nothing else moved. *)
Definition records_hit (s s' : GameState) (h : LastHit) : Prop :=
  lastHit s' = Some h /\
  activePlayerIndex s' = activePlayerIndex s /\
  startingScore s' = startingScore s /\
  isRunning s' = isRunning s /\
  nextId s' = nextId s /\
  List.length (players s') = List.length (players s) /\
  (forall j, j <> activePlayerIndex s ->
     at_index (players s') j = at_index (players s) j) /\
  exists p ev,
    at_index (players s) (activePlayerIndex s) = Some p /\
    at_index (players s') (activePlayerIndex s) =
      Some {| id := id p; name := name p;
              score := score p - rawScore h;
              history := ev :: history p |} /\
    delta ev = - rawScore h.

(** The manual selection that names the ring and sector of a board hit. *)
Definition manualSectorOf (r : Ring) (n : Z) : ManualSector :=
  match r with
  | InnerBull => BULL
  | OuterBull => OB
  | _ => Sector n
  end.

(** The player that [recordHit] writes back. *)
Definition hit_player (pl : Player) (label : JsLabel) (multiplier raw : Z)
    : Player :=
  {| id := id pl; name := name pl;
     score := score pl + - raw;
     history :=
       {| desc := match label with
                  | LNum n => (String_of multiplier ++ "×" ++ String_of n)%string
                  | LStr l => l
                  end;
          delta := - raw |} :: history pl |}.

(** ** The scores in double precision

    In the code every number is an IEEE 754 double: [startingScore] is
    whatever number the input hands over ([Number(v||0)]), and [recordHit]
    and [undoLast] add and subtract doubles.  The model above keeps the
    scores in [Z]; that is what the code computes as long as all the values
    are integers below 2^53 in magnitude (theorems [add_opp_double_of_Z]
    and [run_double] below).  Module [Double] is the same state and the same
    score handlers with the scores as binary64 floats, for the claims that
    depend on the arithmetic. *)

(** The double that is the integer [z], rounded to nearest if [z] is too
    large to be one. *)
Definition double_of_Z (z : Z) : float :=
  SF2Prim (binary_normalize prec emax z 0 false).

Module Double.

Record ScoreEvent : Type := mkScoreEvent {
  desc : string;
  delta : float
}.

Record Player : Type := mkPlayer {
  id : string;
  name : string;
  score : float;
  history : list ScoreEvent   (* most recent first *)
}.

Record GameState : Type := mkGameState {
  startingScore : float;
  players : list Player;
  activePlayerIndex : Z;
  isRunning : bool;
  nextId : Z;
  showAddPlayer : bool;
  newPlayerName : string;
  showDebug : bool;
  lastHit : option LastHit;
  manualSector : ManualSector;
  manualMult : Z
}.

Definition initialState : GameState :=
  {| startingScore := 501%float;
     players := [];
     activePlayerIndex := 0;
     isRunning := false;
     nextId := 1;
     showAddPlayer := false;
     newPlayerName := EmptyString;
     showDebug := false;
     lastHit := None;
     manualSector := BULL;
     manualMult := 1 |}.

Definition setStartingScore (n : float) (s : GameState) : GameState :=
  {| startingScore := n;
     players := players s;
     activePlayerIndex := activePlayerIndex s;
     isRunning := isRunning s;
     nextId := nextId s;
     showAddPlayer := showAddPlayer s;
     newPlayerName := newPlayerName s;
     showDebug := showDebug s;
     lastHit := lastHit s;
     manualSector := manualSector s;
     manualMult := manualMult s |}.

Definition setPlayers (upd : list Player -> result (list Player))
    (s : GameState) : result GameState :=
  ps <- upd (players s) ;;
  Ok {| startingScore := startingScore s;
        players := ps;
        activePlayerIndex := activePlayerIndex s;
        isRunning := isRunning s;
        nextId := nextId s;
        showAddPlayer := showAddPlayer s;
        newPlayerName := newPlayerName s;
        showDebug := showDebug s;
        lastHit := lastHit s;
        manualSector := manualSector s;
        manualMult := manualMult s |}.

Definition setActivePlayerIndex (upd : Z -> Z) (s : GameState) : GameState :=
  {| startingScore := startingScore s;
     players := players s;
     activePlayerIndex := upd (activePlayerIndex s);
     isRunning := isRunning s;
     nextId := nextId s;
     showAddPlayer := showAddPlayer s;
     newPlayerName := newPlayerName s;
     showDebug := showDebug s;
     lastHit := lastHit s;
     manualSector := manualSector s;
     manualMult := manualMult s |}.

Definition setIsRunning (upd : bool -> bool) (s : GameState) : GameState :=
  {| startingScore := startingScore s;
     players := players s;
     activePlayerIndex := activePlayerIndex s;
     isRunning := upd (isRunning s);
     nextId := nextId s;
     showAddPlayer := showAddPlayer s;
     newPlayerName := newPlayerName s;
     showDebug := showDebug s;
     lastHit := lastHit s;
     manualSector := manualSector s;
     manualMult := manualMult s |}.

Definition setNextId (upd : Z -> Z) (s : GameState) : GameState :=
  {| startingScore := startingScore s;
     players := players s;
     activePlayerIndex := activePlayerIndex s;
     isRunning := isRunning s;
     nextId := upd (nextId s);
     showAddPlayer := showAddPlayer s;
     newPlayerName := newPlayerName s;
     showDebug := showDebug s;
     lastHit := lastHit s;
     manualSector := manualSector s;
     manualMult := manualMult s |}.

Definition setShowAddPlayer (b : bool) (s : GameState) : GameState :=
  {| startingScore := startingScore s;
     players := players s;
     activePlayerIndex := activePlayerIndex s;
     isRunning := isRunning s;
     nextId := nextId s;
     showAddPlayer := b;
     newPlayerName := newPlayerName s;
     showDebug := showDebug s;
     lastHit := lastHit s;
     manualSector := manualSector s;
     manualMult := manualMult s |}.

Definition setLastHit (h : option LastHit) (s : GameState) : GameState :=
  {| startingScore := startingScore s;
     players := players s;
     activePlayerIndex := activePlayerIndex s;
     isRunning := isRunning s;
     nextId := nextId s;
     showAddPlayer := showAddPlayer s;
     newPlayerName := newPlayerName s;
     showDebug := showDebug s;
     lastHit := h;
     manualSector := manualSector s;
     manualMult := manualMult s |}.

Definition setManualSector (v : ManualSector) (s : GameState) : GameState :=
  {| startingScore := startingScore s;
     players := players s;
     activePlayerIndex := activePlayerIndex s;
     isRunning := isRunning s;
     nextId := nextId s;
     showAddPlayer := showAddPlayer s;
     newPlayerName := newPlayerName s;
     showDebug := showDebug s;
     lastHit := lastHit s;
     manualSector := v;
     manualMult := manualMult s |}.

Definition setManualMult (v : Z) (s : GameState) : GameState :=
  {| startingScore := startingScore s;
     players := players s;
     activePlayerIndex := activePlayerIndex s;
     isRunning := isRunning s;
     nextId := nextId s;
     showAddPlayer := showAddPlayer s;
     newPlayerName := newPlayerName s;
     showDebug := showDebug s;
     lastHit := lastHit s;
     manualSector := manualSector s;
     manualMult := v |}.

Definition addPlayer (name0 : string) (s : GameState) : result GameState :=
  let p := {| id := String_of (nextId s);
              name := match name0 with
                      | EmptyString => ("Игрок: " ++ String_of (nextId s))%string
                      | _ => name0
                      end;
              score := startingScore s;
              history := [] |} in
  let s1 := setNextId (fun n => n + 1) s in
  s2 <- setPlayers (fun prev => Ok (prev ++ [p])) s1 ;;
  Ok (setShowAddPlayer false s2).

Definition resetGame (s : GameState) : result GameState :=
  s1 <- setPlayers (fun p =>
          Ok (map (fun pl => {| id := id pl; name := name pl;
                                score := startingScore s;
                                history := [] |}) p)) s ;;
  let s2 := setActivePlayerIndex (fun _ => 0) s1 in
  let s3 := setIsRunning (fun _ => false) s2 in
  Ok (setLastHit None s3).

Definition removePlayer (id0 : string) (s : GameState) : result GameState :=
  s1 <- setPlayers (fun prev =>
          Ok (filter (fun p => negb (String.eqb (id p) id0)) prev)) s ;;
  Ok (setActivePlayerIndex (fun _ => 0) s1).

(** [delta = -rawScore] and [pl.score + delta], in doubles. *)
Definition recordHit (playerIndex : Z) (label : JsLabel) (multiplier : Z)
    (rawScore0 : float) (s : GameState) : result GameState :=
  setPlayers (fun prev =>
    let copy := prev in
    match at_index copy playerIndex with
    | None => Throw TypeError
    | Some pl =>
        let desc0 := match label with
                     | LNum n => (String_of multiplier ++ "×" ++ String_of n)%string
                     | LStr l => l
                     end in
        let delta0 := PrimFloat.opp rawScore0 in
        let pl' := {| id := id pl; name := name pl;
                      score := PrimFloat.add (score pl) delta0;
                      history := {| desc := desc0; delta := delta0 |}
                                 :: history pl |} in
        Ok (assign copy playerIndex pl')
    end) s.

(** [pl.score - last.delta], in doubles. *)
Definition undoLast (playerIndex : Z) (s : GameState) : result GameState :=
  setPlayers (fun prev =>
    let copy := prev in
    match at_index copy playerIndex with
    | None => Throw TypeError
    | Some pl =>
        match history pl with
        | [] => Ok prev
        | last :: rest =>
            let pl' := {| id := id pl; name := name pl;
                          score := PrimFloat.sub (score pl) (delta last);
                          history := rest |} in
            Ok (assign copy playerIndex pl')
        end
    end) s.

Definition nextTurn (s : GameState) : result GameState :=
  Ok (setActivePlayerIndex (fun i =>
        match players s with
        | [] => 0
        | _ => Z.rem (i + 1) (Z.of_nat (List.length (players s)))
        end) s).

(** The two sources of hits.  They hand [recordHit] the numbers 50 and 25,
    or the product [sectorNumber * mult] of a sector number and a
    multiplier; sector numbers and multipliers are integers in this model,
    and the double of their product is what the multiplication of doubles
    gives.  The geometry is the one of the integer model. *)
Definition onBoardClick (el : option DOMRect) (e : MouseEvent)
    (s : GameState) : result GameState :=
  match players s with
  | [] => Ok s
  | _ =>
  match el with
  | None => Ok s
  | Some rect =>
    let cx := (left rect + width rect / 2)%R in
    let cy := (top rect + height rect / 2)%R in
    let x := (clientX e - cx)%R in
    let y := (clientY e - cy)%R in
    let distPx := Math_hypot x y in
    let Rpx := (width rect / 2)%R in
    let innerBullR_px := (Rpx * (INNER_BULL_R / SVG_RADIUS))%R in
    let outerBullR_px := (Rpx * (OUTER_BULL_R / SVG_RADIUS))%R in
    let tripleOuter_px := (Rpx * (TRIPLE_OUTER / SVG_RADIUS))%R in
    let tripleInner_px := (Rpx * (TRIPLE_INNER / SVG_RADIUS))%R in
    let doubleOuter_px := (Rpx * (DOUBLE_OUTER / SVG_RADIUS))%R in
    let doubleInner_px := (Rpx * (DOUBLE_INNER / SVG_RADIUS))%R in
    if Rleb distPx innerBullR_px then
      let distSvg0 := (distPx / Rpx * SVG_RADIUS)%R in
      s1 <- recordHit (activePlayerIndex s) (LStr "Яблочко (50)") 1
              50%float s ;;
      Ok (setLastHit
            (Some (makeLastHit distSvg0 x y (LNum 50) 1 50 None None None)) s1)
    else if Rleb distPx outerBullR_px then
      let distSvg0 := (distPx / Rpx * SVG_RADIUS)%R in
      s1 <- recordHit (activePlayerIndex s) (LStr "Внешний центр (25)") 1
              25%float s ;;
      Ok (setLastHit
            (Some (makeLastHit distSvg0 x y (LNum 25) 1 25 None None None)) s1)
    else
      let atanDeg0 := atanDegOf y x in
      let angleFromTop0 := angleFromTopOf atanDeg0 in
      let sectorFloat := (angleFromTop0 / 18)%R in
      let sectorIndex0 := Z.rem (Math_round sectorFloat) 20 in
      let sectorNumber0 := sectorAt sectorIndex0 in
      let mult0 :=
        if Rgeb distPx tripleInner_px && Rleb distPx tripleOuter_px then 3
        else if Rgeb distPx doubleInner_px && Rleb distPx doubleOuter_px then 2
        else 1 in
      let rawScore0 := sectorNumber0 * mult0 in
      s1 <- recordHit (activePlayerIndex s) (LNum sectorNumber0) mult0
              (double_of_Z rawScore0) s ;;
      let distSvg0 := (distPx / Rpx * SVG_RADIUS)%R in
      Ok (setLastHit
            (Some (makeLastHit distSvg0 x y (LNum sectorNumber0) mult0
                     rawScore0 (Some atanDeg0) (Some angleFromTop0)
                     (Some sectorIndex0))) s1)
  end
  end.

Definition applyManualHit (s : GameState) : result GameState :=
  match players s with
  | [] => Ok s
  | _ =>
    match manualSector s with
    | BULL =>
        s1 <- recordHit (activePlayerIndex s) (LStr "Яблочко (50)") 1
                50%float s ;;
        let distSvg0 := INNER_BULL_R in
        Ok (setLastHit
              (Some (makeLastHit distSvg0 0 (- distSvg0) (LNum 50) 1 50
                       None None None)) s1)
    | OB =>
        s1 <- recordHit (activePlayerIndex s) (LStr "Внешний центр (25)") 1
                25%float s ;;
        let distSvg0 := OUTER_BULL_R in
        Ok (setLastHit
              (Some (makeLastHit distSvg0 0 (- distSvg0) (LNum 25) 1 25
                       None None None)) s1)
    | Sector n =>
        let sectorNumber0 := n in
        let raw := sectorNumber0 * manualMult s in
        s1 <- recordHit (activePlayerIndex s) (LNum sectorNumber0)
                (manualMult s)
                (double_of_Z raw) s ;;
        Ok (setLastHit
              (Some (makeLastHit TRIPLE_OUTER 0 (- TRIPLE_OUTER)
                       (LNum sectorNumber0) (manualMult s) raw
                       None None None)) s1)
    end
  end.

(** The commands of the component. *)
Inductive Action : Type :=
  | AddPlayer (name0 : string)
  | ResetGame
  | RemovePlayer (id0 : string)
  | RecordHit (playerIndex : Z) (label : JsLabel) (multiplier : Z)
      (rawScore0 : float)
  | UndoLast (playerIndex : Z)
  | NextTurn
  | SetStartingScore (n : float)
  | ToggleRunning
  | SelectActivePlayer (index : Z)
  | BoardClick (el : option DOMRect) (e : MouseEvent)
  | SetManualSector (v : ManualSector)
  | SetManualMult (v : Z)
  | ApplyManualHit.

Definition step (a : Action) (s : GameState) : result GameState :=
  match a with
  | AddPlayer n => addPlayer n s
  | ResetGame => resetGame s
  | RemovePlayer i => removePlayer i s
  | RecordHit i l m r => recordHit i l m r s
  | UndoLast i => undoLast i s
  | NextTurn => nextTurn s
  | SetStartingScore n => Ok (setStartingScore n s)
  | ToggleRunning => Ok (setIsRunning negb s)
  | SelectActivePlayer i => Ok (setActivePlayerIndex (fun _ => i) s)
  | BoardClick el e => onBoardClick el e s
  | SetManualSector v => Ok (setManualSector v s)
  | SetManualMult v => Ok (setManualMult v s)
  | ApplyManualHit => applyManualHit s
  end.

Fixpoint run (acts : list Action) (s : GameState) : result GameState :=
  match acts with
  | [] => Ok s
  | a :: rest => s1 <- step a s ;; run rest s1
  end.

(** The state [s] with the score of the player [pl] at index [i] replaced
    by [x]. *)
Definition with_score (s : GameState) (i : Z) (pl : Player) (x : float)
    : GameState :=
  {| startingScore := startingScore s;
     players := assign (players s) i
                  {| id := id pl; name := name pl; score := x;
                     history := history pl |};
     activePlayerIndex := activePlayerIndex s;
     isRunning := isRunning s;
     nextId := nextId s;
     showAddPlayer := showAddPlayer s;
     newPlayerName := newPlayerName s;
     showDebug := showDebug s;
     lastHit := lastHit s;
     manualSector := manualSector s;
     manualMult := manualMult s |}.

(** A run of [recordHit] calls for one player. *)
Definition hitActions (i : Z) (hits : list (JsLabel * Z * float))
    : list Action :=
  map (fun h => RecordHit i (fst (fst h)) (snd (fst h)) (snd h)) hits.

End Double.

(** ** Integers as doubles *)

(** The integers that doubles hold and add without rounding. *)
Definition safe (z : Z) : Prop := - 2 ^ 53 < z < 2 ^ 53.

Definition safeb (z : Z) : bool := (- 2 ^ 53 <? z) && (z <? 2 ^ 53).

(** The integer that the double [f] is, when it is one (both zeros are the
    integer 0): the value [(-1)^s * m * 2^e] of its binary64 form. *)
Definition Z_of_double (f : float) : option Z :=
  match Prim2SF f with
  | S754_zero _ => Some 0
  | S754_finite sg m e =>
      if 0 <=? e then Some (cond_Zopp sg (Zpos m * 2 ^ e))
      else if Zpos m mod 2 ^ (- e) =? 0
           then Some (cond_Zopp sg (Zpos m / 2 ^ (- e)))
           else None
  | _ => None
  end.

(** The state of the integer model as a state in doubles.  A delta of the
    integer model is [-rawScore]; the code computed it by negating the
    double [rawScore]. *)
Definition embedEvent (e : ScoreEvent) : Double.ScoreEvent :=
  {| Double.desc := desc e;
     Double.delta := PrimFloat.opp (double_of_Z (- delta e)) |}.

Definition embedPlayer (p : Player) : Double.Player :=
  {| Double.id := id p;
     Double.name := name p;
     Double.score := double_of_Z (score p);
     Double.history := map embedEvent (history p) |}.

Definition embed (s : GameState) : Double.GameState :=
  {| Double.startingScore := double_of_Z (startingScore s);
     Double.players := map embedPlayer (players s);
     Double.activePlayerIndex := activePlayerIndex s;
     Double.isRunning := isRunning s;
     Double.nextId := nextId s;
     Double.showAddPlayer := showAddPlayer s;
     Double.newPlayerName := newPlayerName s;
     Double.showDebug := showDebug s;
     Double.lastHit := lastHit s;
     Double.manualSector := manualSector s;
     Double.manualMult := manualMult s |}.

(** A command with integer arguments, as the command in doubles. *)
Definition embedAction (a : Action) : Double.Action :=
  match a with
  | AddPlayer n => Double.AddPlayer n
  | ResetGame => Double.ResetGame
  | RemovePlayer i => Double.RemovePlayer i
  | RecordHit i l m r => Double.RecordHit i l m (double_of_Z r)
  | UndoLast i => Double.UndoLast i
  | NextTurn => Double.NextTurn
  | SetStartingScore n => Double.SetStartingScore (double_of_Z n)
  | ToggleRunning => Double.ToggleRunning
  | SelectActivePlayer i => Double.SelectActivePlayer i
  | BoardClick el e => Double.BoardClick el e
  | SetManualSector v => Double.SetManualSector v
  | SetManualMult v => Double.SetManualMult v
  | ApplyManualHit => Double.ApplyManualHit
  end.

(** All numbers of a state are safe integers. *)
Definition safe_player (p : Player) : bool :=
  safeb (score p) && forallb (fun e => safeb (delta e)) (history p).

Definition safe_state (s : GameState) : bool :=
  safeb (startingScore s) && forallb safe_player (players s).

(** The numbers that the command [a] brings in on the state [s]: its
    numeric argument, or the raw score of the manual selection. *)
Definition safe_action (a : Action) (s : GameState) : bool :=
  match a with
  | RecordHit _ _ _ r => safeb r
  | SetStartingScore n => safeb n
  | ApplyManualHit =>
      match manualSector s with
      | Sector n => safeb (n * manualMult s)
      | _ => true
      end
  | _ => true
  end.

(** Along the run of [acts] from [s] every argument and every state stays
    within the safe integers. *)
Fixpoint safe_run (acts : list Action) (s : GameState) : bool :=
  match acts with
  | [] => safe_state s
  | a :: rest =>
      safe_state s && safe_action a s &&
      match step a s with
      | Ok s1 => safe_run rest s1
      | Throw _ => true
      end
  end.

(** The hits [hits] on a score that is the integer [z] stay within the
    safe integers. *)
Fixpoint safe_hits (z : Z) (hits : list (JsLabel * Z * Z)) : Prop :=
  match hits with
  | [] => True
  | h :: rest => safe (snd h) /\ safe (z - snd h) /\ safe_hits (z - snd h) rest
  end.

Definition doubleHits (hits : list (JsLabel * Z * Z))
    : list (JsLabel * Z * float) :=
  map (fun h => (fst h, double_of_Z (snd h))) hits.

(** ** Binary64 mantissas *)

(** [m] shifted left by [n] bits. *)
Definition shlN (m : positive) (n : nat) : positive := Nat.iter n xO m.

(** The canonical binary64 form of an integer below 2^53: the mantissa
    shifted up to 53 bits. *)
Definition canon (z : Z) : spec_float :=
  match z with
  | Z0 => S754_zero false
  | Zpos m =>
      S754_finite false (shlN m (Z.to_nat (53 - Zpos (digits2_pos m))))
        (Zpos (digits2_pos m) - 53)
  | Zneg m =>
      S754_finite true (shlN m (Z.to_nat (53 - Zpos (digits2_pos m))))
        (Zpos (digits2_pos m) - 53)
  end.


(** The ring of a click in the words of the specification: the pixel
    distance of the pointer from the centre of the board, mapped to the
    normalized space by [normalized] and classified there. *)
Definition spec_ring_of_click (rect : DOMRect) (e : MouseEvent) : Ring :=
  spec_ring_normalized
    (normalized (pixelDistance rect e) (pixelRadius rect)).

(** * Lemmas *)

(** ** Array reads and writes *)

Lemma at_index_valid {A : Type} (l : list A) (i : Z) :
  0 <= i < Z.of_nat (List.length l) -> exists v, at_index l i = Some v.
Proof.
  intros [Hlo Hhi]. unfold at_index.
  destruct (i <? 0) eqn:E; [apply Z.ltb_lt in E; lia |].
  destruct (nth_error l (Z.to_nat i)) as [v |] eqn:N; [now exists v |].
  apply nth_error_None in N. lia.
Qed.

Lemma at_index_invalid {A : Type} (l : list A) (i : Z) :
  ~ (0 <= i < Z.of_nat (List.length l)) -> at_index l i = None.
Proof.
  intros H. unfold at_index.
  destruct (i <? 0) eqn:E; [reflexivity |].
  apply Z.ltb_ge in E. apply nth_error_None. lia.
Qed.

Lemma at_index_Some_valid {A : Type} (l : list A) (i : Z) (v : A) :
  at_index l i = Some v -> 0 <= i < Z.of_nat (List.length l).
Proof.
  unfold at_index. destruct (i <? 0) eqn:E; [discriminate |].
  apply Z.ltb_ge in E. intros N.
  assert (nth_error l (Z.to_nat i) <> None) as H by congruence.
  apply nth_error_Some in H. lia.
Qed.

Lemma assign_nat_length {A : Type} (l : list A) (n : nat) (v : A) :
  List.length (assign_nat l n v) = List.length l.
Proof.
  revert n. induction l as [| h t IH]; intros [| m]; simpl; auto.
Qed.

Lemma assign_length {A : Type} (l : list A) (i : Z) (v : A) :
  List.length (assign l i v) = List.length l.
Proof.
  unfold assign. destruct (i <? 0); [reflexivity | apply assign_nat_length].
Qed.

Lemma nth_error_assign_nat_same {A : Type} (l : list A) (n : nat) (v : A) :
  (n < List.length l)%nat -> nth_error (assign_nat l n v) n = Some v.
Proof.
  revert n. induction l as [| h t IH]; intros [| m] H; simpl in *;
    try lia; [reflexivity | apply IH; lia].
Qed.

Lemma nth_error_assign_nat_other {A : Type} (l : list A) (n m : nat) (v : A) :
  n <> m -> nth_error (assign_nat l n v) m = nth_error l m.
Proof.
  revert n m. induction l as [| h t IH]; intros [| n] [| m] H; simpl;
    try reflexivity; try congruence.
  apply IH. congruence.
Qed.

Lemma assign_nat_twice {A : Type} (l : list A) (n : nat) (v w : A) :
  assign_nat (assign_nat l n v) n w = assign_nat l n w.
Proof.
  revert n. induction l as [| h t IH]; intros [| m]; simpl; auto.
  now rewrite IH.
Qed.

Lemma assign_nat_self {A : Type} (l : list A) (n : nat) (v : A) :
  nth_error l n = Some v -> assign_nat l n v = l.
Proof.
  revert n. induction l as [| h t IH]; intros [| m] H; simpl in *;
    try discriminate.
  - congruence.
  - now rewrite IH.
Qed.

Lemma at_index_assign_same {A : Type} (l : list A) (i : Z) (v : A) :
  0 <= i < Z.of_nat (List.length l) -> at_index (assign l i v) i = Some v.
Proof.
  intros [Hlo Hhi]. unfold at_index, assign.
  destruct (i <? 0) eqn:E; [apply Z.ltb_lt in E; lia |].
  apply nth_error_assign_nat_same. lia.
Qed.

Lemma at_index_assign_other {A : Type} (l : list A) (i j : Z) (v : A) :
  j <> i -> at_index (assign l i v) j = at_index l j.
Proof.
  intros H. unfold at_index, assign.
  destruct (j <? 0) eqn:Ej; [reflexivity |].
  destruct (i <? 0) eqn:Ei; [reflexivity |].
  apply Z.ltb_ge in Ej, Ei.
  apply nth_error_assign_nat_other. lia.
Qed.

Lemma assign_twice {A : Type} (l : list A) (i : Z) (v w : A) :
  assign (assign l i v) i w = assign l i w.
Proof.
  unfold assign. destruct (i <? 0); [reflexivity | apply assign_nat_twice].
Qed.

Lemma assign_self {A : Type} (l : list A) (i : Z) (v : A) :
  at_index l i = Some v -> assign l i v = l.
Proof.
  unfold at_index, assign. destruct (i <? 0); [discriminate |].
  apply assign_nat_self.
Qed.

Lemma Forall_assign {A : Type} (P : A -> Prop) (l : list A) (i : Z) (v : A) :
  Forall P l -> P v -> Forall P (assign l i v).
Proof.
  intros Hl Hv. unfold assign. destruct (i <? 0); [assumption |].
  generalize (Z.to_nat i) as n. induction Hl as [| h t Hh Ht IH];
    intros [| m]; simpl; constructor; auto.
Qed.

Lemma at_index_Forall {A : Type} (P : A -> Prop) (l : list A) (i : Z) (v : A) :
  Forall P l -> at_index l i = Some v -> P v.
Proof.
  intros Hl. unfold at_index. destruct (i <? 0); [discriminate |].
  intros N. apply nth_error_In in N.
  rewrite Forall_forall in Hl. auto.
Qed.

(** ** The handlers on a valid and on an invalid index *)

Lemma state_eta (s : GameState) :
  {| startingScore := startingScore s;
     players := players s;
     activePlayerIndex := activePlayerIndex s;
     isRunning := isRunning s;
     nextId := nextId s;
     showAddPlayer := showAddPlayer s;
     newPlayerName := newPlayerName s;
     showDebug := showDebug s;
     lastHit := lastHit s;
     manualSector := manualSector s;
     manualMult := manualMult s |} = s.
Proof. now destruct s. Qed.

Lemma recordHit_valid (s : GameState) (i : Z) (label : JsLabel) (m r : Z)
    (pl : Player) :
  at_index (players s) i = Some pl ->
  recordHit i label m r s =
  Ok {| startingScore := startingScore s;
        players := assign (players s) i (hit_player pl label m r);
        activePlayerIndex := activePlayerIndex s;
        isRunning := isRunning s;
        nextId := nextId s;
        showAddPlayer := showAddPlayer s;
        newPlayerName := newPlayerName s;
        showDebug := showDebug s;
        lastHit := lastHit s;
        manualSector := manualSector s;
        manualMult := manualMult s |}.
Proof.
  intros H. unfold recordHit, setPlayers. simpl. rewrite H. reflexivity.
Qed.

Lemma recordHit_invalid (s : GameState) (i : Z) (label : JsLabel) (m r : Z) :
  ~ valid_index s i -> recordHit i label m r s = Throw TypeError.
Proof.
  intros H. unfold recordHit, setPlayers. simpl.
  now rewrite (at_index_invalid _ _ H).
Qed.

Lemma undoLast_invalid (s : GameState) (i : Z) :
  ~ valid_index s i -> undoLast i s = Throw TypeError.
Proof.
  intros H. unfold undoLast, setPlayers. simpl.
  now rewrite (at_index_invalid _ _ H).
Qed.

Lemma undoLast_inv (s s' : GameState) (i : Z) :
  undoLast i s = Ok s' ->
  exists pl, at_index (players s) i = Some pl /\
    ((history pl = [] /\ s' = s) \/
     (exists last rest, history pl = last :: rest /\
        players s' = assign (players s) i
                       {| id := id pl; name := name pl;
                          score := score pl - delta last;
                          history := rest |} /\
        startingScore s' = startingScore s)).
Proof.
  unfold undoLast, setPlayers. simpl.
  destruct (at_index (players s) i) as [pl |] eqn:E; [| discriminate].
  exists pl. split; [reflexivity |].
  destruct (history pl) as [| last rest] eqn:Hh; simpl in H;
    injection H as <-.
  - left. split; [reflexivity | apply state_eta].
  - right. exists last, rest. simpl. auto.
Qed.

Lemma onBoardClick_empty (el : option DOMRect) (e : MouseEvent)
    (s : GameState) :
  players s = [] -> onBoardClick el e s = Ok s.
Proof. intros H. unfold onBoardClick. now rewrite H. Qed.

Lemma applyManualHit_empty (s : GameState) :
  players s = [] -> applyManualHit s = Ok s.
Proof. intros H. unfold applyManualHit. now rewrite H. Qed.

(** ** [onBoardClick] by ring *)

(** [onBoardClick] on a mounted board with players, by the ring of
    [ring_px]: the bull paths record the fixed scores 50 and 25, the third
    path records the sector number times the multiplier of the ring. *)
Lemma onBoardClick_ring_px (s : GameState) (rect : DOMRect) (e : MouseEvent) :
  players s <> [] ->
  onBoardClick (Some rect) e s =
  match ring_px (pixelDistance rect e) (pixelRadius rect) with
  | InnerBull =>
      s1 <- recordHit (activePlayerIndex s) (LStr "Яблочко (50)") 1 50 s ;;
      Ok (setLastHit (Some (bullHit rect e 50)) s1)
  | OuterBull =>
      s1 <- recordHit (activePlayerIndex s) (LStr "Внешний центр (25)") 1 25 s ;;
      Ok (setLastHit (Some (bullHit rect e 25)) s1)
  | _ =>
      s1 <- recordHit (activePlayerIndex s)
              (LNum (sectorAt (sectorIndex (sectorHit rect e))))
              (mult (sectorHit rect e)) (rawScore (sectorHit rect e)) s ;;
      Ok (setLastHit (Some (sectorHit rect e)) s1)
  end.
Proof.
  intros P. unfold onBoardClick.
  destruct (players s) as [| p0 ps]; [contradiction |].
  unfold sectorHit, bullHit, ring_px, sectorIndexOf, pixelDistance,
    pixelRadius, pointerX, pointerY.
  cbv zeta.
  repeat match goal with
         | |- context [Rleb ?a ?b] => destruct (Rleb a b)
         | |- context [Rgeb ?a ?b] => destruct (Rgeb a b)
         end; reflexivity.
Qed.

(** On a valid index [recordHit] returns a state; [onBoardClick] then
    stores the hit. *)
Lemma recordHit_then_setLastHit (s : GameState) (label : JsLabel) (m r : Z)
    (h : LastHit) :
  valid_index s (activePlayerIndex s) ->
  exists s1,
    recordHit (activePlayerIndex s) label m r s = Ok s1 /\
    (s1 <- recordHit (activePlayerIndex s) label m r s ;;
     Ok (setLastHit (Some h) s1)) = Ok (setLastHit (Some h) s1).
Proof.
  intros V. destruct (at_index_valid _ _ V) as [pl E].
  eexists. rewrite (recordHit_valid _ _ _ _ _ _ E). split; reflexivity.
Qed.

Lemma valid_index_players (s : GameState) (i : Z) :
  valid_index s i -> players s <> [].
Proof.
  unfold valid_index. destruct (players s); simpl; [lia | discriminate].
Qed.

(** ** Preservation of the score invariant *)

Lemma consistent_hit_player (start : Z) (pl : Player) (label : JsLabel)
    (m r : Z) :
  consistent_player start pl ->
  consistent_player start (hit_player pl label m r).
Proof. unfold consistent_player. simpl. lia. Qed.

Lemma recordHit_consistent (s s' : GameState) (i : Z) (label : JsLabel)
    (m r : Z) :
  consistent s -> recordHit i label m r s = Ok s' -> consistent s'.
Proof.
  intros C H.
  destruct (at_index (players s) i) as [pl |] eqn:E.
  - rewrite (recordHit_valid _ _ _ _ _ _ E) in H. injection H as <-.
    unfold consistent in *. simpl.
    apply Forall_assign; [assumption |].
    apply consistent_hit_player. eapply at_index_Forall; eauto.
  - unfold recordHit, setPlayers in H. simpl in H. rewrite E in H.
    discriminate.
Qed.

Lemma setLastHit_consistent (s : GameState) (h : option LastHit) :
  consistent s -> consistent (setLastHit h s).
Proof. trivial. Qed.

Lemma undoLast_consistent (s s' : GameState) (i : Z) :
  consistent s -> undoLast i s = Ok s' -> consistent s'.
Proof.
  intros C H. apply undoLast_inv in H.
  destruct H as [pl [E [[_ ->] | [last [rest [Hh [Hp Hs]]]]]]];
    [assumption |].
  unfold consistent in *. rewrite Hp, Hs.
  apply Forall_assign; [assumption |].
  pose proof (at_index_Forall _ _ _ _ C E) as Hpl.
  unfold consistent_player in *. simpl. rewrite Hh in Hpl. simpl in Hpl. lia.
Qed.

Lemma resetGame_consistent (s s' : GameState) :
  resetGame s = Ok s' -> consistent s'.
Proof.
  unfold resetGame, setPlayers. simpl. intros H. injection H as <-.
  unfold consistent. simpl. apply Forall_forall. intros p Hp.
  apply in_map_iff in Hp. destruct Hp as [q [<- _]].
  unfold consistent_player. simpl. lia.
Qed.

Lemma onBoardClick_consistent (el : option DOMRect) (e : MouseEvent)
    (s s' : GameState) :
  consistent s -> onBoardClick el e s = Ok s' -> consistent s'.
Proof.
  intros C. unfold onBoardClick.
  destruct (players s) eqn:P; [intros H; injection H as <-; assumption |].
  destruct el as [rect |]; [| intros H; injection H as <-; assumption].
  cbv zeta.
  repeat match goal with
         | |- context [if ?b then _ else _] =>
             lazymatch b with
             | Rleb _ _ => destruct b
             end
         end;
  match goal with
  | |- bind (recordHit ?i ?l ?m ?r s) _ = _ -> _ =>
      destruct (recordHit i l m r s) as [s1 |] eqn:Hr; simpl;
      [intros H; injection H as <-; apply setLastHit_consistent;
       eapply recordHit_consistent; eauto
      | discriminate]
  end.
Qed.

Lemma applyManualHit_consistent (s s' : GameState) :
  consistent s -> applyManualHit s = Ok s' -> consistent s'.
Proof.
  intros C. unfold applyManualHit.
  destruct (players s) eqn:P; [intros H; injection H as <-; assumption |].
  destruct (manualSector s);
  match goal with
  | |- bind (recordHit ?i ?l ?m ?r s) _ = _ -> _ =>
      destruct (recordHit i l m r s) as [s1 |] eqn:Hr; simpl;
      [intros H; injection H as <-; apply setLastHit_consistent;
       eapply recordHit_consistent; eauto
      | discriminate]
  end.
Qed.

Lemma step_consistent (a : Action) (s s' : GameState) :
  consistent s -> keeps_baseline a s = true -> step a s = Ok s' ->
  consistent s'.
Proof.
  intros C K H. destruct a; simpl in H.
  - (* addPlayer *)
    unfold addPlayer, setPlayers in H. simpl in H. injection H as <-.
    unfold consistent in *. simpl. apply Forall_app. split; [assumption |].
    constructor; [| constructor]. unfold consistent_player. simpl. lia.
  - eapply resetGame_consistent; eauto.
  - (* removePlayer *)
    unfold removePlayer, setPlayers in H. simpl in H. injection H as <-.
    unfold consistent in *. simpl. rewrite Forall_forall in *.
    intros p Hp. apply filter_In in Hp. apply C, Hp.
  - eapply recordHit_consistent; eauto.
  - eapply undoLast_consistent; eauto.
  - injection H as <-. assumption.
  - (* setStartingScore *)
    injection H as <-. unfold consistent in *. simpl in *.
    destruct (players s) eqn:P; [constructor |].
    apply Z.eqb_eq in K. now subst n.
  - injection H as <-. assumption.
  - injection H as <-. assumption.
  - eapply onBoardClick_consistent; eauto.
  - injection H as <-. assumption.
  - injection H as <-. assumption.
  - eapply applyManualHit_consistent; eauto.
Qed.

Lemma run_in_sync (acts : list Action) :
  forall (s0 s : GameState) (ok : bool),
    (ok = true -> consistent s0) ->
    run acts s0 = Ok s -> in_sync acts s0 ok = true -> consistent s.
Proof.
  induction acts as [| a rest IH]; intros s0 s ok C R S; simpl in *.
  - injection R as <-. auto.
  - destruct (step a s0) as [s1 |] eqn:St; simpl in R; [| discriminate].
    eapply IH; [| exact R | exact S].
    intros Hok.
    assert (a = ResetGame \/ (ok = true /\ keeps_baseline a s0 = true))
      as [-> | [Hk1 Hk2]].
    { destruct a; auto; right; now apply andb_prop in Hok. }
    + eapply resetGame_consistent; exact St.
    + eapply step_consistent; eauto.
Qed.

Lemma setStartingScore_frame (n : Z) (s : GameState) :
  players (setStartingScore n s) = players s.
Proof. reflexivity. Qed.

(** * The claims on players and turns *)

(** ** C1: score and history *)

(** C1, as stated, fails: after [addPlayer] the call [setStartingScore(301)]
    leaves the player at 501 with an empty history, so the score is not
    the configured starting score plus the sum of the deltas. *)
Lemma score_consistency_fails_after_setStartingScore :
  exists s p,
    run [AddPlayer "Ann"; SetStartingScore 301] initialState = Ok s /\
    In p (players s) /\
    score p <> startingScore s + sumDelta (history p).
Proof.
  eexists. eexists. split; [vm_compute; reflexivity |].
  split; [left; reflexivity |]. vm_compute. discriminate.
Qed.

(** The amended statement is made on the doubles, in the part on the integer
    model and the doubles below; the statement on undo after record is in
    the part on the score handlers in double precision. *)

(** ** C3: an index out of range *)

(** C3, as stated, fails: with no players, [recordHit(0, ...)] and
    [undoLast(0)] do not return the state unchanged; their state updater
    raises a [TypeError]. *)
Lemma out_of_range_index_raises :
  recordHit 0 (LNum 20) 3 60 initialState = Throw TypeError /\
  recordHit 0 (LNum 20) 3 60 initialState <> Ok initialState /\
  undoLast 0 initialState = Throw TypeError /\
  undoLast 0 initialState <> Ok initialState.
Proof.
  repeat split; try reflexivity; vm_compute; discriminate.
Qed.

Lemma recordHit_active_turn_ok (s : GameState) (label : JsLabel) (m r : Z)
    (h : option LastHit) :
  valid_index s (activePlayerIndex s) ->
  exists s1,
    recordHit (activePlayerIndex s) label m r s = Ok s1 /\
    turn_ok (setLastHit h s1).
Proof.
  intros V. destruct (at_index_valid _ _ V) as [pl E].
  eexists. split; [apply (recordHit_valid _ _ _ _ _ _ E) |].
  right. unfold valid_index in *. simpl. now rewrite assign_length.
Qed.

Lemma onBoardClick_turn_ok (el : option DOMRect) (e : MouseEvent)
    (s : GameState) :
  turn_ok s -> exists s', onBoardClick el e s = Ok s' /\ turn_ok s'.
Proof.
  intros T. destruct T as [[P A] | V].
  { exists s. split; [now apply onBoardClick_empty | now left]. }
  destruct el as [rect |].
  2:{ exists s. split; [| now right].
      unfold onBoardClick. now destruct (players s). }
  rewrite (onBoardClick_ring_px s rect e (valid_index_players _ _ V)).
  destruct (ring_px (pixelDistance rect e) (pixelRadius rect));
  match goal with
  | |- exists s', bind (recordHit _ ?l ?m ?r s)
                       (fun s1 => Ok (setLastHit ?h s1)) = _ /\ _ =>
      destruct (recordHit_active_turn_ok s l m r h V) as [s1 [Hr Ht]];
      exists (setLastHit h s1); rewrite Hr; split; [reflexivity | exact Ht]
  end.
Qed.

Lemma applyManualHit_turn_ok (s : GameState) :
  turn_ok s -> exists s', applyManualHit s = Ok s' /\ turn_ok s'.
Proof.
  intros T. destruct T as [[P A] | V].
  { exists s. split; [now apply applyManualHit_empty | now left]. }
  unfold applyManualHit.
  pose proof (valid_index_players _ _ V) as P.
  destruct (players s) eqn:Hp; [contradiction |]. rewrite <- Hp in *.
  destruct (manualSector s);
  match goal with
  | |- exists s', bind (recordHit _ ?l ?m ?r s)
                       (fun s1 => Ok (setLastHit ?h s1)) = _ /\ _ =>
      destruct (recordHit_active_turn_ok s l m r h V) as [s1 [Hr Ht]];
      exists (setLastHit h s1); rewrite Hr; split; [reflexivity | exact Ht]
  end.
Qed.

(** A command of the component never raises and keeps the active index
    on a player. *)
Lemma ui_step_turn_ok (a : Action) (s : GameState) :
  turn_ok s -> ui_enabled a s = true ->
  exists s', step a s = Ok s' /\ turn_ok s'.
Proof.
  intros T En.
  assert (forall s', players s' = players s ->
                     activePlayerIndex s' = activePlayerIndex s ->
                     turn_ok s') as Same.
  { intros s' E1 E2. unfold turn_ok, valid_index. now rewrite E1, E2. }
  destruct a; simpl in En; try discriminate; simpl;
    try (eexists; split; [reflexivity |]; now apply Same).
  - (* addPlayer *)
    eexists. split; [reflexivity |]. right.
    unfold valid_index. simpl. rewrite length_app. simpl.
    destruct T as [[P A] | V]; [rewrite A, P; simpl; lia |].
    unfold valid_index in V. lia.
  - (* resetGame *)
    eexists. split; [reflexivity |]. unfold turn_ok, valid_index. simpl.
    rewrite length_map. destruct (players s); simpl; [now left | right; lia].
  - (* removePlayer *)
    eexists. split; [reflexivity |]. unfold turn_ok, valid_index. simpl.
    destruct (filter _ (players s)); simpl; [now left | right; lia].
  - (* undoLast *)
    apply andb_prop in En. destruct En as [E1 E2].
    apply Z.leb_le in E1. apply Z.ltb_lt in E2.
    destruct (at_index_valid (players s) playerIndex (conj E1 E2)) as [pl E].
    unfold undoLast, setPlayers. simpl. rewrite E.
    destruct (history pl); simpl; eexists; (split; [reflexivity |]).
    + apply Same; reflexivity.
    + unfold turn_ok, valid_index in *. simpl. rewrite assign_length.
      destruct T as [[P A] | V]; [| now right].
      rewrite P in E2. simpl in E2. lia.
  - (* nextTurn *)
    unfold nextTurn. eexists. split; [reflexivity |].
    unfold turn_ok, valid_index. simpl.
    destruct (players s) eqn:P; [now left |]. right.
    destruct T as [[P' _] | V]; [rewrite P in P'; discriminate P' |].
    unfold valid_index in V. rewrite P in V.
    rewrite Z.rem_mod_nonneg by lia. apply Z.mod_pos_bound. lia.
  - (* select the active player *)
    apply andb_prop in En. destruct En as [E1 E2].
    apply Z.leb_le in E1. apply Z.ltb_lt in E2.
    eexists. split; [reflexivity |]. right. unfold valid_index. simpl. lia.
  - now apply onBoardClick_turn_ok.
  - now apply applyManualHit_turn_ok.
Qed.

Lemma ui_run_turn_ok (acts : list Action) :
  forall s : GameState,
    turn_ok s -> ui_run acts s = true ->
    exists s', run acts s = Ok s' /\ turn_ok s'.
Proof.
  induction acts as [| a rest IH]; intros s T U; simpl in *.
  - exists s. now split.
  - apply andb_prop in U. destruct U as [En U].
    destruct (ui_step_turn_ok a s T En) as [s1 [St T1]].
    rewrite St in *. simpl. now apply IH.
Qed.

(** C3 (amended): [recordHit] and [undoLast] have no range check of their
    own: for a player index outside [0, playerCount), the empty player list
    included, their state updater raises a [TypeError], so no new state is
    produced and nothing is recorded.  The component never makes such a
    call: on an empty player list [onBoardClick] and [applyManualHit] return
    at once and leave the state unchanged, and no run of the component's own
    commands from the initial state ever raises. *)
Theorem out_of_range_index :
  (forall s i,
     ~ valid_index s i ->
     (forall label m r, recordHit i label m r s = Throw TypeError) /\
     undoLast i s = Throw TypeError) /\
  (forall s,
     players s = [] ->
     (forall el e, onBoardClick el e s = Ok s) /\ applyManualHit s = Ok s) /\
  (forall acts,
     ui_run acts initialState = true ->
     exists s, run acts initialState = Ok s).
Proof.
  split; [| split].
  - intros s i H. split.
    + intros label m r. now apply recordHit_invalid.
    + now apply undoLast_invalid.
  - intros s P. split.
    + intros el e. now apply onBoardClick_empty.
    + now apply applyManualHit_empty.
  - intros acts U.
    destruct (ui_run_turn_ok acts initialState) as [s [R _]];
      [now left | exact U | now exists s].
Qed.

Lemma out_of_range_index_witness :
  recordHit 0 (LStr "Яблочко (50)") 1 50 initialState = Throw TypeError /\
  undoLast 0 initialState = Throw TypeError /\
  onBoardClick None (mkMouseEvent 0 0) initialState = Ok initialState /\
  applyManualHit initialState = Ok initialState /\
  exists s,
    run [ApplyManualHit; AddPlayer "Ann"; ApplyManualHit; UndoLast 0;
         RemovePlayer "1"; NextTurn] initialState = Ok s.
Proof.
  assert (~ valid_index initialState 0) as H
    by (unfold valid_index; simpl; lia).
  destruct out_of_range_index as [Hi [He Hu]].
  destruct (Hi initialState 0 H) as [Hr Hun].
  destruct (He initialState eq_refl) as [Hb Hm].
  split; [apply Hr | split; [exact Hun | split; [apply Hb | split;
    [exact Hm |]]]].
  apply Hu. vm_compute. reflexivity.
Defined.

(** ** Player ids *)

Lemma String_of_inj (a b : Z) : String_of a = String_of b -> a = b.
Proof.
  assert (forall z, NilZero.int_of_string (String_of z) = Some (Z.to_int z))
    as P.
  { intros z. apply NilZero.isi; destruct z; simpl; try discriminate;
      intros [= E]; revert E; apply Unsigned.to_uint_nonnil. }
  intros H. apply DecimalZ.to_int_inj.
  pose proof (P a) as Ha. rewrite H, P in Ha. congruence.
Qed.

Lemma map_id_assign (l : list Player) (i : Z) (pl pl' : Player) :
  at_index l i = Some pl -> id pl' = id pl ->
  map id (assign l i pl') = map id l.
Proof.
  unfold at_index, assign. destruct (i <? 0); [discriminate |].
  generalize (Z.to_nat i) as n. intros n Hn Hid. revert n Hn.
  induction l as [| h t IH]; intros [| n] Hn; simpl in *;
    try discriminate; try reflexivity.
  - injection Hn as ->. now rewrite Hid.
  - now rewrite IH.
Qed.

Lemma map_id_filter (id0 : string) (l : list Player) :
  map id (filter (fun p => negb (String.eqb (id p) id0)) l) =
  filter (fun i => negb (String.eqb i id0)) (map id l).
Proof.
  induction l as [| h t IH]; simpl; [reflexivity |].
  destruct (negb (String.eqb (id h) id0)); simpl; now rewrite IH.
Qed.

Lemma recordHit_ids (s s' : GameState) (i : Z) (label : JsLabel) (m r : Z) :
  recordHit i label m r s = Ok s' ->
  map id (players s') = map id (players s) /\ nextId s' = nextId s.
Proof.
  intros H. destruct (at_index (players s) i) as [pl |] eqn:E.
  - rewrite (recordHit_valid _ _ _ _ _ _ E) in H. injection H as <-. simpl.
    split; [| reflexivity]. now apply (map_id_assign _ _ pl).
  - unfold recordHit, setPlayers in H. simpl in H. rewrite E in H.
    discriminate.
Qed.

Lemma undoLast_ids (s s' : GameState) (i : Z) :
  undoLast i s = Ok s' ->
  map id (players s') = map id (players s) /\ nextId s' = nextId s.
Proof.
  unfold undoLast, setPlayers. simpl.
  destruct (at_index (players s) i) as [pl |] eqn:E; [| discriminate].
  destruct (history pl); simpl; intros H; injection H as <-; simpl;
    split; try reflexivity.
  now apply (map_id_assign _ _ pl).
Qed.

Lemma onBoardClick_ids (el : option DOMRect) (e : MouseEvent)
    (s s' : GameState) :
  onBoardClick el e s = Ok s' ->
  map id (players s') = map id (players s) /\ nextId s' = nextId s.
Proof.
  unfold onBoardClick.
  destruct (players s) eqn:P;
    [intros H; injection H as <-; now rewrite P |].
  destruct el as [rect |];
    [| intros H; injection H as <-; now rewrite P].
  cbv zeta. rewrite <- P.
  repeat match goal with
         | |- context [if ?b then _ else _] =>
             lazymatch b with
             | Rleb _ _ => destruct b
             end
         end;
  match goal with
  | |- bind (recordHit ?i ?l ?m ?r s) _ = _ -> _ =>
      destruct (recordHit i l m r s) as [s1 |] eqn:Hr; simpl;
      [intros H; injection H as <-; simpl; eapply recordHit_ids; eauto
      | discriminate]
  end.
Qed.

Lemma applyManualHit_ids (s s' : GameState) :
  applyManualHit s = Ok s' ->
  map id (players s') = map id (players s) /\ nextId s' = nextId s.
Proof.
  unfold applyManualHit.
  destruct (players s) eqn:P;
    [intros H; injection H as <-; now rewrite P |].
  rewrite <- P.
  destruct (manualSector s);
  match goal with
  | |- bind (recordHit ?i ?l ?m ?r s) _ = _ -> _ =>
      destruct (recordHit i l m r s) as [s1 |] eqn:Hr; simpl;
      [intros H; injection H as <-; simpl; eapply recordHit_ids; eauto
      | discriminate]
  end.
Qed.

Lemma step_ids_fresh (a : Action) (s s' : GameState) :
  ids_fresh s -> step a s = Ok s' -> ids_fresh s'.
Proof.
  intros [Hn Hk] H.
  assert (map id (players s') = map id (players s) /\ nextId s' = nextId s ->
          ids_fresh s') as Same.
  { intros [E1 E2]. unfold ids_fresh. rewrite E1, E2. now split. }
  destruct a; simpl in H;
    try (injection H as <-; apply Same; split; reflexivity).
  - (* addPlayer *)
    unfold addPlayer, setPlayers in H. simpl in H. injection H as <-.
    unfold ids_fresh. simpl. rewrite map_app. simpl. split.
    + apply NoDup_app; [exact Hn | repeat constructor; intros [] |].
      intros i Hi [<- | []]. destruct (Hk _ Hi) as [k [E Hlt]].
      apply String_of_inj in E. lia.
    + intros i Hi. apply in_app_or in Hi. destruct Hi as [Hi | [<- | []]].
      * destruct (Hk _ Hi) as [k [E Hlt]]. exists k. split; [exact E | lia].
      * exists (nextId s). split; [reflexivity | lia].
  - (* resetGame *)
    unfold resetGame, setPlayers in H. simpl in H. injection H as <-.
    apply Same. simpl. split; [| reflexivity].
    rewrite map_map. reflexivity.
  - (* removePlayer *)
    unfold removePlayer, setPlayers in H. simpl in H. injection H as <-.
    unfold ids_fresh. simpl. rewrite map_id_filter. split.
    + now apply NoDup_filter.
    + intros i Hi. apply filter_In in Hi. apply Hk, Hi.
  - apply Same. eapply recordHit_ids; eauto.
  - apply Same. eapply undoLast_ids; eauto.
  - apply Same. eapply onBoardClick_ids; eauto.
  - apply Same. eapply applyManualHit_ids; eauto.
Qed.

Lemma run_ids_fresh (acts : list Action) :
  forall s0 s : GameState,
    ids_fresh s0 -> run acts s0 = Ok s -> ids_fresh s.
Proof.
  induction acts as [| a rest IH]; intros s0 s F R; simpl in R.
  - now injection R as <-.
  - destruct (step a s0) as [s1 |] eqn:St; simpl in R; [| discriminate].
    eapply IH; [| exact R]. eapply step_ids_fresh; eauto.
Qed.

(** In every reachable state the ids of the players are pairwise
    distinct. *)
Lemma reachable_ids_unique (acts : list Action) (s : GameState) :
  run acts initialState = Ok s -> NoDup (map id (players s)).
Proof.
  intros R. eapply (run_ids_fresh acts initialState s); [| exact R].
  split; [constructor | intros i []].
Qed.

Lemma NoDup_ids_split (l1 l2 : list Player) (p : Player) :
  NoDup (map id (l1 ++ p :: l2)) ->
  forall q, In q (l1 ++ l2) -> id q <> id p.
Proof.
  rewrite map_app. simpl. intros H q Hq E.
  apply NoDup_remove_2 in H. apply H. rewrite <- map_app, <- E.
  now apply in_map.
Qed.

(** ** C7: removing a player *)

(** C7, as stated, fails: with three players and the third one active,
    [removePlayer] of an id that no player has still resets
    [activePlayerIndex] from 2 to 0. *)
Lemma removePlayer_unknown_id_resets_active :
  exists s s',
    run [AddPlayer "Ann"; AddPlayer "Bob"; AddPlayer "Cid";
         NextTurn; NextTurn] initialState = Ok s /\
    Forall (fun p => id p <> "99"%string) (players s) /\
    removePlayer "99" s = Ok s' /\
    activePlayerIndex s = 2 /\
    activePlayerIndex s' = 0 /\
    s' <> s.
Proof.
  eexists. eexists. split; [vm_compute; reflexivity |].
  split; [repeat constructor; discriminate |].
  split; [vm_compute; reflexivity |].
  split; [reflexivity |]. split; [reflexivity |]. discriminate.
Qed.

Lemma filter_id_none (id0 : string) (l : list Player) :
  (forall p, In p l -> id p <> id0) ->
  filter (fun p => negb (String.eqb (id p) id0)) l = l.
Proof.
  induction l as [| h t IH]; intros H; simpl; [reflexivity |].
  destruct (String.eqb_spec (id h) id0) as [E | _]; simpl.
  - exfalso. apply (H h); [now left | exact E].
  - rewrite IH; [reflexivity |]. intros p Hp. apply H. now right.
Qed.

(** C7 (amended): [removePlayer(id)] always succeeds, sets
    [activePlayerIndex] to 0 unconditionally and touches no field other
    than the player list and [activePlayerIndex].  With an id that exactly
    one player has, exactly that player is deleted and the others keep their
    order; in a state reached from the initial state ids are unique, so this
    holds for the id of every player.  With an id that no player has, the
    player list is unchanged, but [activePlayerIndex] is reset to 0 all the
    same. *)
Theorem removePlayer_spec (id0 : string) (s : GameState) :
  exists s',
    removePlayer id0 s = Ok s' /\
    activePlayerIndex s' = 0 /\
    startingScore s' = startingScore s /\
    isRunning s' = isRunning s /\
    nextId s' = nextId s /\
    lastHit s' = lastHit s /\
    (forall l1 p l2,
       players s = l1 ++ p :: l2 -> id p = id0 ->
       (forall q, In q (l1 ++ l2) -> id q <> id0) ->
       players s' = l1 ++ l2) /\
    (forall acts l1 p l2,
       run acts initialState = Ok s ->
       players s = l1 ++ p :: l2 -> id p = id0 ->
       players s' = l1 ++ l2) /\
    ((forall q, In q (players s) -> id q <> id0) ->
     players s' = players s).
Proof.
  assert (forall l1 p l2,
            players s = l1 ++ p :: l2 -> id p = id0 ->
            (forall q, In q (l1 ++ l2) -> id q <> id0) ->
            filter (fun p => negb (String.eqb (id p) id0)) (players s)
            = l1 ++ l2) as Del.
  { intros l1 p l2 E Hp Hq. rewrite E, filter_app. simpl.
    destruct (String.eqb_spec (id p) id0) as [_ | N]; [| contradiction].
    simpl. rewrite !filter_id_none; [reflexivity | |];
      intros q Hin; apply Hq, in_or_app; auto. }
  eexists. split; [reflexivity |]. simpl.
  repeat (split; [reflexivity |]). split; [exact Del |]. split.
  - intros acts l1 p l2 R E Hp. apply (Del l1 p l2 E Hp).
    subst id0. apply NoDup_ids_split. rewrite <- E.
    apply (reachable_ids_unique acts). exact R.
  - apply filter_id_none.
Qed.

Lemma removePlayer_spec_witness :
  exists s,
    run [AddPlayer "Ann"; AddPlayer "Bob"; AddPlayer "Cid";
         NextTurn; NextTurn] initialState = Ok s /\
    exists s',
      removePlayer "2" s = Ok s' /\
      activePlayerIndex s' = 0 /\
      players s' = [mkPlayer "1" "Ann" 501 []; mkPlayer "3" "Cid" 501 []].
Proof.
  eexists. split; [vm_compute; reflexivity |].
  match goal with
  | |- exists s', removePlayer ?i ?s = _ /\ _ =>
      destruct (removePlayer_spec i s)
        as [s' [H [Ha [_ [_ [_ [_ [_ [Hdel _]]]]]]]]]
  end.
  exists s'. split; [exact H |]. split; [exact Ha |].
  apply (Hdel [AddPlayer "Ann"; AddPlayer "Bob"; AddPlayer "Cid";
               NextTurn; NextTurn]
              [mkPlayer "1" "Ann" 501 []] (mkPlayer "2" "Bob" 501 [])
              [mkPlayer "3" "Cid" 501 []]);
    [vm_compute; reflexivity | reflexivity | reflexivity].
Defined.

(** ** C8: the frame of [recordHit] *)

(** C8: on a valid player index [recordHit] succeeds and changes only the
    score and the history of that player: the player keeps its id and name,
    its score drops by the raw score, one event is put in front of its
    history; every other player, the number of players,
    [activePlayerIndex], [startingScore], the running flag, the id counter
    and all other state cells are as before. *)
Theorem recordHit_frame (s : GameState) (i : Z) (label : JsLabel) (m r : Z) :
  valid_index s i ->
  exists s' p p' ev,
    recordHit i label m r s = Ok s' /\
    at_index (players s) i = Some p /\
    at_index (players s') i = Some p' /\
    id p' = id p /\ name p' = name p /\
    score p' = score p - r /\
    history p' = ev :: history p /\ delta ev = - r /\
    List.length (players s') = List.length (players s) /\
    (forall j, j <> i -> at_index (players s') j = at_index (players s) j) /\
    activePlayerIndex s' = activePlayerIndex s /\
    startingScore s' = startingScore s /\
    isRunning s' = isRunning s /\
    nextId s' = nextId s /\
    showAddPlayer s' = showAddPlayer s /\
    newPlayerName s' = newPlayerName s /\
    showDebug s' = showDebug s /\
    lastHit s' = lastHit s /\
    manualSector s' = manualSector s /\
    manualMult s' = manualMult s.
Proof.
  intros V. destruct (at_index_valid _ _ V) as [pl E].
  eexists. exists pl. eexists. eexists.
  split; [apply (recordHit_valid _ _ _ _ _ _ E) |]. simpl.
  split; [exact E |].
  split; [apply at_index_assign_same; exact V |]. simpl.
  repeat (split; [reflexivity |]).
  split; [apply assign_length |].
  split; [intros j Hj; now apply at_index_assign_other |].
  repeat (split; [reflexivity |]). reflexivity.
Qed.

Lemma recordHit_frame_witness :
  exists s,
    run [AddPlayer "Ann"; AddPlayer "Bob"; NextTurn] initialState = Ok s /\
    exists s',
      recordHit 0 (LNum 20) 3 60 s = Ok s' /\
      at_index (players s') 1 = at_index (players s) 1 /\
      activePlayerIndex s' = activePlayerIndex s.
Proof.
  eexists. split; [vm_compute; reflexivity |].
  match goal with
  | |- exists s', recordHit ?i ?l ?m ?r ?s = _ /\ _ =>
      assert (valid_index s i) as V by (unfold valid_index; simpl; lia);
      destruct (recordHit_frame s i l m r V)
        as [s' [p [p' [ev [H [_ [_ [_ [_ [_ [_ [_ [_ [Ho [Ha _]]]]]]]]]]]]]]]
  end.
  exists s'. split; [exact H |]. split; [apply Ho; lia | exact Ha].
Defined.

(** ** C9: turn cycling *)

Lemma nextTurn_some (s : GameState) :
  players s <> [] ->
  nextTurn s =
  Ok (setActivePlayerIndex
        (fun i => Z.rem (i + 1) (Z.of_nat (List.length (players s)))) s).
Proof.
  unfold nextTurn. destruct (players s); [contradiction | reflexivity].
Qed.

Lemma run_nextTurn (k : nat) :
  forall s : GameState,
    1 <= Z.of_nat (List.length (players s)) ->
    0 <= activePlayerIndex s < Z.of_nat (List.length (players s)) ->
    run (repeat NextTurn k) s =
    Ok (setActivePlayerIndex
          (fun i => (i + Z.of_nat k) mod Z.of_nat (List.length (players s)))
          s).
Proof.
  induction k as [| k IH]; intros s Hn Ha.
  - simpl. unfold setActivePlayerIndex. rewrite Z.add_0_r.
    rewrite Z.mod_small by exact Ha. now rewrite state_eta.
  - cbn [repeat run step]. rewrite nextTurn_some.
    2:{ destruct (players s); [simpl in Hn; lia | discriminate]. }
    cbn [bind]. rewrite IH; cbn [setActivePlayerIndex players activePlayerIndex].
    + unfold setActivePlayerIndex. cbn. do 2 f_equal.
      rewrite Z.rem_mod_nonneg by lia.
      rewrite Zplus_mod_idemp_l. f_equal. lia.
    + exact Hn.
    + rewrite Z.rem_mod_nonneg by lia. apply Z.mod_pos_bound. lia.
Qed.

(** C9: with at least one player and [activePlayerIndex] in range, one
    [nextTurn] maps [activePlayerIndex] to
    [(activePlayerIndex + 1) mod playerCount] and changes nothing else, and
    [playerCount] applications of [nextTurn] give back the state, so
    [activePlayerIndex] has its original value. *)
Theorem nextTurn_cycle (s : GameState) :
  1 <= Z.of_nat (List.length (players s)) ->
  0 <= activePlayerIndex s < Z.of_nat (List.length (players s)) ->
  (exists s1,
     nextTurn s = Ok s1 /\
     activePlayerIndex s1 =
       (activePlayerIndex s + 1) mod Z.of_nat (List.length (players s)) /\
     players s1 = players s) /\
  (exists sn,
     run (repeat NextTurn (List.length (players s))) s = Ok sn /\
     activePlayerIndex sn = activePlayerIndex s /\
     sn = s).
Proof.
  intros Hn Ha. split.
  - eexists. split; [apply nextTurn_some |].
    + destruct (players s); [simpl in Hn; lia | discriminate].
    + simpl. split; [| reflexivity]. apply Z.rem_mod_nonneg; lia.
  - assert (setActivePlayerIndex
              (fun i => (i + Z.of_nat (List.length (players s)))
                        mod Z.of_nat (List.length (players s))) s = s) as E.
    { unfold setActivePlayerIndex.
      rewrite <- (Z.mul_1_l (Z.of_nat (List.length (players s)))) at 1.
      rewrite Z.mod_add by lia. rewrite Z.mod_small by exact Ha.
      apply state_eta. }
    exists s. split; [| split; reflexivity].
    rewrite run_nextTurn by assumption. now rewrite E.
Qed.

Lemma nextTurn_cycle_witness :
  exists s,
    run [AddPlayer "Ann"; AddPlayer "Bob"; AddPlayer "Cid"; NextTurn]
      initialState = Ok s /\
    run [NextTurn; NextTurn; NextTurn] s = Ok s.
Proof.
  eexists. split; [vm_compute; reflexivity |].
  match goal with
  | |- run _ ?s = _ =>
      assert (1 <= Z.of_nat (List.length (players s))) as Hn
        by (simpl; lia);
      assert (0 <= activePlayerIndex s < Z.of_nat (List.length (players s)))
        as Ha by (simpl; lia);
      destruct (nextTurn_cycle s Hn Ha) as [_ [sn [Hr [_ Hs]]]]
  end.
  rewrite Hs in Hr. exact Hr.
Defined.

(** * The geometry *)

(** ** Rounding and remainders on the reals *)

Lemma Math_floor_spec (r : R) :
  (IZR (Math_floor r) <= r < IZR (Math_floor r) + 1)%R.
Proof.
  unfold Math_floor. destruct (base_Int_part r) as [H1 H2]. lra.
Qed.

Lemma Math_floor_unique (r : R) (z : Z) :
  (IZR z <= r < IZR z + 1)%R -> Math_floor r = z.
Proof.
  intros H. unfold Math_floor. symmetry. apply Int_part_spec. lra.
Qed.

(** [Math.round] picks the nearest integer, and of two equally near ones
    the upper one. *)
Lemma Math_round_nearest (r : R) :
  (IZR (Math_round r) - / 2 <= r < IZR (Math_round r) + / 2)%R.
Proof.
  unfold Math_round. pose proof (Math_floor_spec (r + / 2)) as H. lra.
Qed.

Lemma Math_round_tie (k : Z) (r : R) :
  (r = IZR k + / 2)%R -> Math_round r = k + 1.
Proof.
  intros ->. unfold Math_round. apply Math_floor_unique.
  rewrite plus_IZR. lra.
Qed.

Lemma Math_round_range (r : R) (lo hi : Z) :
  (IZR lo <= r < IZR hi)%R -> lo <= Math_round r <= hi.
Proof.
  intros [Hlo Hhi]. pose proof (Math_round_nearest r) as [H1 H2].
  split.
  - assert (IZR (lo - 1) < IZR (Math_round r))%R as H
      by (rewrite minus_IZR; lra).
    apply lt_IZR in H. lia.
  - assert (IZR (Math_round r) < IZR (hi + 1))%R as H
      by (rewrite plus_IZR; lra).
    apply lt_IZR in H. lia.
Qed.

Lemma Rrem_pos_spec (a b : R) :
  (0 <= a)%R -> (0 < b)%R ->
  (0 <= Rrem a b < b)%R /\ exists k : Z, (a = Rrem a b + b * IZR k)%R.
Proof.
  intros Ha Hb. unfold Rrem, Rtrunc.
  assert (0 <= a / b)%R as Hq.
  { unfold Rdiv. apply Rmult_le_pos; [assumption |].
    left. now apply Rinv_0_lt_compat. }
  destruct (Rle_dec 0 (a / b)) as [_ | N]; [| contradiction].
  pose proof (Math_floor_spec (a / b)) as [H1 H2].
  set (q := IZR (Math_floor (a / b))) in *.
  assert (a = a / b * b)%R as E by (field; lra).
  split; [| exists (Math_floor (a / b)); fold q; lra].
  split; nra.
Qed.

(** ** The angle *)

Lemma atan_nonpos (t : R) : (t <= 0)%R -> (atan t <= 0)%R.
Proof.
  intros [H | ->]; [| rewrite atan_0; lra].
  pose proof (atan_increasing _ _ H) as Hi. rewrite atan_0 in Hi. lra.
Qed.

Lemma atan_pos (t : R) : (0 < t)%R -> (0 < atan t)%R.
Proof.
  intros H. pose proof (atan_increasing _ _ H) as Hi.
  now rewrite atan_0 in Hi.
Qed.

Lemma Math_atan2_range (y x : R) : (- PI < Math_atan2 y x <= PI)%R.
Proof.
  pose proof PI_RGT_0 as HPI. unfold Math_atan2.
  destruct (Rlt_dec 0 x) as [Hx | Hx].
  { pose proof (atan_bound (y / x)). lra. }
  destruct (Rlt_dec x 0) as [Hx' | Hx'].
  - pose proof (atan_bound (y / x)) as Hb.
    assert (0 < / - x)%R as Hi by (apply Rinv_0_lt_compat; lra).
    assert (y / x = - y * / - x)%R as E by (field; lra).
    destruct (Rle_dec 0 y) as [Hy | Hy].
    + assert (atan (y / x) <= 0)%R.
      { apply atan_nonpos. rewrite E. nra. }
      lra.
    + assert (0 < atan (y / x))%R.
      { apply atan_pos. rewrite E. nra. }
      lra.
  - destruct (Rlt_dec 0 y); [lra |]. destruct (Rlt_dec y 0); lra.
Qed.

Lemma atanDegOf_range (y x : R) : (-180 < atanDegOf y x <= 180)%R.
Proof.
  pose proof PI_RGT_0 as HPI. pose proof (Math_atan2_range y x) as [H1 H2].
  unfold atanDegOf. set (t := Math_atan2 y x) in *.
  assert (0 < / PI)%R as Hi by now apply Rinv_0_lt_compat.
  assert (t * 180 / PI = t * / PI * 180)%R as -> by (field; lra).
  assert (PI * / PI = 1)%R as E by (field; lra).
  assert (-1 < t * / PI <= 1)%R; [split; nra | lra].
Qed.

(** [angleFromTop] is [(atanDeg + 90 + 360) mod 360]: in 0..360 and
    congruent to [atanDeg + 450] modulo 360. *)
Lemma angleFromTopOf_spec (y x : R) :
  (0 <= angleFromTopOf (atanDegOf y x) < 360)%R /\
  exists k : Z,
    (atanDegOf y x + 90 + 360 =
     angleFromTopOf (atanDegOf y x) + 360 * IZR k)%R.
Proof.
  pose proof (atanDegOf_range y x) as H.
  unfold angleFromTopOf. apply Rrem_pos_spec; lra.
Qed.

Lemma sectorIndexOf_range (a : R) :
  (0 <= a < 360)%R ->
  0 <= Math_round (a / 18) <= 20 /\
  sectorIndexOf a = Math_round (a / 18) mod 20 /\
  0 <= sectorIndexOf a < 20.
Proof.
  intros Ha.
  assert (0 <= Math_round (a / 18) <= 20) as Hr.
  { apply Math_round_range. lra. }
  unfold sectorIndexOf. rewrite Z.rem_mod_nonneg by lia.
  split; [exact Hr |]. split; [reflexivity |].
  apply Z.mod_pos_bound. lia.
Qed.

Lemma sectorAt_range (i : Z) :
  0 <= i < 20 ->
  nth_error SECTORS (Z.to_nat i) = Some (sectorAt i) /\
  1 <= sectorAt i <= 20.
Proof.
  intros H. unfold sectorAt.
  assert (i = 0 \/ i = 1 \/ i = 2 \/ i = 3 \/ i = 4 \/ i = 5 \/ i = 6 \/
          i = 7 \/ i = 8 \/ i = 9 \/ i = 10 \/ i = 11 \/ i = 12 \/ i = 13 \/
          i = 14 \/ i = 15 \/ i = 16 \/ i = 17 \/ i = 18 \/ i = 19) as C
    by lia.
  repeat (destruct C as [-> | C]); try subst i; simpl; split;
    (reflexivity || lia).
Qed.

(** ** Comparisons and rings *)

Lemma Rleb_true (a b : R) : Rleb a b = true <-> (a <= b)%R.
Proof.
  unfold Rleb. destruct (Rle_dec a b); split; intros; try assumption;
    try reflexivity; try discriminate; contradiction.
Qed.

Lemma Rgeb_true (a b : R) : Rgeb a b = true <-> (b <= a)%R.
Proof.
  unfold Rgeb. destruct (Rge_dec a b) as [H | H]; split; intros H';
    try reflexivity; try discriminate.
  - now apply Rge_le.
  - exfalso. apply H. now apply Rle_ge.
Qed.

Lemma Rleb_false (a b : R) : Rleb a b = false <-> (b < a)%R.
Proof.
  unfold Rleb. destruct (Rle_dec a b); split; intros; try reflexivity;
    try discriminate; lra.
Qed.

Lemma Rgeb_false (a b : R) : Rgeb a b = false <-> (a < b)%R.
Proof.
  unfold Rgeb. destruct (Rge_dec a b); split; intros; try reflexivity;
    try discriminate; lra.
Qed.

Lemma pixelDistance_nonneg (rect : DOMRect) (e : MouseEvent) :
  (0 <= pixelDistance rect e)%R.
Proof. unfold pixelDistance, Math_hypot. apply sqrt_pos. Qed.

(** The ring of [ring_px], as inequalities on the pixel distance. *)
Lemma ring_px_cases (d Rpx : R) :
  match ring_px d Rpx with
  | InnerBull => (d <= Rpx * (INNER_BULL_R / SVG_RADIUS))%R
  | OuterBull =>
      (Rpx * (INNER_BULL_R / SVG_RADIUS) < d)%R /\
      (d <= Rpx * (OUTER_BULL_R / SVG_RADIUS))%R
  | Triple =>
      (Rpx * (INNER_BULL_R / SVG_RADIUS) < d)%R /\
      (Rpx * (OUTER_BULL_R / SVG_RADIUS) < d)%R /\
      (Rpx * (TRIPLE_INNER / SVG_RADIUS) <= d)%R /\
      (d <= Rpx * (TRIPLE_OUTER / SVG_RADIUS))%R
  | Double =>
      (Rpx * (INNER_BULL_R / SVG_RADIUS) < d)%R /\
      (Rpx * (OUTER_BULL_R / SVG_RADIUS) < d)%R /\
      ~ ((Rpx * (TRIPLE_INNER / SVG_RADIUS) <= d)%R /\
         (d <= Rpx * (TRIPLE_OUTER / SVG_RADIUS))%R) /\
      (Rpx * (DOUBLE_INNER / SVG_RADIUS) <= d)%R /\
      (d <= Rpx * (DOUBLE_OUTER / SVG_RADIUS))%R
  | Single =>
      (Rpx * (INNER_BULL_R / SVG_RADIUS) < d)%R /\
      (Rpx * (OUTER_BULL_R / SVG_RADIUS) < d)%R /\
      ~ ((Rpx * (TRIPLE_INNER / SVG_RADIUS) <= d)%R /\
         (d <= Rpx * (TRIPLE_OUTER / SVG_RADIUS))%R) /\
      ~ ((Rpx * (DOUBLE_INNER / SVG_RADIUS) <= d)%R /\
         (d <= Rpx * (DOUBLE_OUTER / SVG_RADIUS))%R)
  end.
Proof.
  unfold ring_px.
  destruct (Rleb d (Rpx * (INNER_BULL_R / SVG_RADIUS))) eqn:E1;
    [now apply Rleb_true |].
  apply Rleb_false in E1.
  destruct (Rleb d (Rpx * (OUTER_BULL_R / SVG_RADIUS))) eqn:E2;
    [apply Rleb_true in E2; auto |].
  apply Rleb_false in E2.
  destruct (Rgeb d (Rpx * (TRIPLE_INNER / SVG_RADIUS))) eqn:E3;
  destruct (Rleb d (Rpx * (TRIPLE_OUTER / SVG_RADIUS))) eqn:E4;
  destruct (Rgeb d (Rpx * (DOUBLE_INNER / SVG_RADIUS))) eqn:E5;
  destruct (Rleb d (Rpx * (DOUBLE_OUTER / SVG_RADIUS))) eqn:E6;
  cbn [andb];
  try apply Rgeb_true in E3; try apply Rgeb_false in E3;
  try apply Rleb_true in E4; try apply Rleb_false in E4;
  try apply Rgeb_true in E5; try apply Rgeb_false in E5;
  try apply Rleb_true in E6; try apply Rleb_false in E6;
  repeat split; try assumption; intros [? ?]; lra.
Qed.

(** ** Pixel space and normalized space *)

Lemma scaled_le (Rpx n c : R) :
  (0 < Rpx)%R -> (Rpx * (n / 50) <= Rpx * (c / 50) <-> n <= c)%R.
Proof. intros H. split; intros H'; nra. Qed.

Lemma scaled_lt (Rpx n c : R) :
  (0 < Rpx)%R -> (Rpx * (n / 50) < Rpx * (c / 50) <-> n < c)%R.
Proof. intros H. split; intros H'; nra. Qed.

(** For a positive display radius the comparisons of [ring_px], made on the
    pixel distance against the ring radii scaled by [Rpx / 50], give the
    same ring as the classification of the specification on
    [distance * (50 / Rpx)]. *)
Lemma ring_px_normalized (distPx Rpx : R) :
  (0 < Rpx)%R ->
  ring_px distPx Rpx = spec_ring_normalized (normalized distPx Rpx).
Proof.
  intros HR. unfold normalized. set (n := (distPx * (50 / Rpx))%R).
  assert (distPx = Rpx * (n / 50))%R as E by (unfold n; field; lra).
  pose proof (ring_px_cases distPx Rpx) as C.
  unfold INNER_BULL_R, OUTER_BULL_R, TRIPLE_INNER, TRIPLE_OUTER,
    DOUBLE_INNER, DOUBLE_OUTER, SVG_RADIUS in C.
  unfold spec_ring_normalized.
  destruct (ring_px distPx Rpx); rewrite E in C;
    rewrite ?(scaled_le Rpx), ?(scaled_lt Rpx) in C by exact HR;
    repeat match goal with
           | |- context [Rle_dec ?a ?b] => destruct (Rle_dec a b)
           end;
    try reflexivity; exfalso; lra.
Qed.

(** ** The bulls *)

(** What [onBoardClick] does on the two bull paths.  The hit it stores
    carries the raw score in [sectorNumber]: [makeLastHit] is called with
    the numbers 50 and 25, which pass its [typeof ... === 'number'] test. *)
Lemma bull_hits (s : GameState) (rect : DOMRect) (e : MouseEvent) :
  valid_index s (activePlayerIndex s) ->
  ((pixelDistance rect e <= pixelRadius rect * (INNER_BULL_R / SVG_RADIUS))%R ->
   exists s1 h,
     onBoardClick (Some rect) e s = Ok (setLastHit (Some h) s1) /\
     recordHit (activePlayerIndex s) (LStr "Яблочко (50)") 1 50 s = Ok s1 /\
     rawScore h = 50 /\ mult h = 1 /\ sectorNumber h = Some 50) /\
  ((pixelRadius rect * (INNER_BULL_R / SVG_RADIUS) < pixelDistance rect e)%R ->
   (pixelDistance rect e <= pixelRadius rect * (OUTER_BULL_R / SVG_RADIUS))%R ->
   exists s1 h,
     onBoardClick (Some rect) e s = Ok (setLastHit (Some h) s1) /\
     recordHit (activePlayerIndex s) (LStr "Внешний центр (25)") 1 25 s = Ok s1 /\
     rawScore h = 25 /\ mult h = 1 /\ sectorNumber h = Some 25).
Proof.
  intros V. pose proof (valid_index_players _ _ V) as P.
  rewrite (onBoardClick_ring_px s rect e P). unfold ring_px. split.
  - intros H. apply Rleb_true in H. rewrite H.
    destruct (recordHit_then_setLastHit s (LStr "Яблочко (50)") 1 50
                (bullHit rect e 50) V) as [s1 [Hr Hb]].
    exists s1, (bullHit rect e 50). rewrite Hb. auto.
  - intros H1 H2. apply Rleb_false in H1. apply Rleb_true in H2.
    rewrite H1, H2.
    destruct (recordHit_then_setLastHit s (LStr "Внешний центр (25)") 1 25
                (bullHit rect e 25) V) as [s1 [Hr Hb]].
    exists s1, (bullHit rect e 25). rewrite Hb. auto.
Qed.

(** C4 (the code departs from the claim): a click on the very centre of a
    400 pixel board with one player resolves to raw score 50 and
    multiplier 1, and 50 is taken from the player, but the stored hit has
    the sector number 50 instead of none. *)
Theorem inner_bull_hit_has_sector_number :
  exists s1 h,
    onBoardClick (Some (mkDOMRect 0 0 400 400)) (mkMouseEvent 200 200)
      (mkGameState 501 [mkPlayer "1" "Ann" 501 []] 0 false 2 false ""
         false None BULL 1)
    = Ok (setLastHit (Some h) s1) /\
    players s1 = [mkPlayer "1" "Ann" 451 [mkScoreEvent "Яблочко (50)" (-50)]] /\
    rawScore h = 50 /\ mult h = 1 /\
    sectorNumber h = Some 50 /\ sectorNumber h <> None.
Proof.
  set (s := mkGameState 501 [mkPlayer "1" "Ann" 501 []] 0 false 2 false ""
              false None BULL 1).
  set (rect := mkDOMRect 0 0 400 400). set (e := mkMouseEvent 200 200).
  assert (valid_index s (activePlayerIndex s)) as V
    by (unfold valid_index; simpl; lia).
  assert (pixelDistance rect e = 0%R) as D.
  { unfold pixelDistance, pointerX, pointerY, Math_hypot. simpl.
    replace ((200 - (0 + 400 / 2)) * (200 - (0 + 400 / 2)) +
             (200 - (0 + 400 / 2)) * (200 - (0 + 400 / 2)))%R
      with 0%R by lra.
    apply sqrt_0. }
  destruct (bull_hits s rect e V) as [Hin _].
  destruct Hin as [s1 [h [Ho [Hr [H1 [H2 H3]]]]]].
  { rewrite D. unfold pixelRadius, INNER_BULL_R, SVG_RADIUS. simpl. lra. }
  exists s1, h. split; [exact Ho |].
  split; [| repeat split; try assumption; rewrite H3; discriminate].
  vm_compute in Hr. injection Hr as <-. reflexivity.
Qed.

(** ** C5: the multiplier off the bulls *)

Lemma non_bull_ring (rect : DOMRect) (e : MouseEvent) :
  (pixelRadius rect * (OUTER_BULL_R / SVG_RADIUS) < pixelDistance rect e)%R ->
  ring_px (pixelDistance rect e) (pixelRadius rect) <> InnerBull /\
  ring_px (pixelDistance rect e) (pixelRadius rect) <> OuterBull.
Proof.
  intros H. pose proof (pixelDistance_nonneg rect e) as Hd.
  pose proof (ring_px_cases (pixelDistance rect e) (pixelRadius rect)) as C.
  unfold INNER_BULL_R, OUTER_BULL_R, SVG_RADIUS in *.
  destruct (ring_px (pixelDistance rect e) (pixelRadius rect));
    split; try discriminate; intros _; lra.
Qed.

(** Off the bulls [onBoardClick] records and stores [sectorHit]. *)
Lemma onBoardClick_sector (s : GameState) (rect : DOMRect) (e : MouseEvent) :
  valid_index s (activePlayerIndex s) ->
  (pixelRadius rect * (OUTER_BULL_R / SVG_RADIUS) < pixelDistance rect e)%R ->
  exists s1,
    onBoardClick (Some rect) e s = Ok (setLastHit (Some (sectorHit rect e)) s1) /\
    recordHit (activePlayerIndex s)
      (LNum (sectorAt (sectorIndex (sectorHit rect e))))
      (mult (sectorHit rect e)) (rawScore (sectorHit rect e)) s = Ok s1.
Proof.
  intros V H. pose proof (valid_index_players _ _ V) as P.
  destruct (non_bull_ring rect e H) as [N1 N2].
  destruct (recordHit_then_setLastHit s
              (LNum (sectorAt (sectorIndex (sectorHit rect e))))
              (mult (sectorHit rect e)) (rawScore (sectorHit rect e))
              (sectorHit rect e) V) as [s1 [Hr Hb]].
  exists s1. split; [| exact Hr].
  rewrite (onBoardClick_ring_px s rect e P).
  destruct (ring_px (pixelDistance rect e) (pixelRadius rect));
    try contradiction; exact Hb.
Qed.

(** C5: for every click off the bulls (pixel distance above the outer bull
    radius; nothing is rejected beyond the outer rim) on a board with a
    valid active player, [onBoardClick] stores a hit with a sector number
    [n] whose multiplier is 3 exactly in the triple band, 2 exactly in the
    double band outside the triple band, 1 exactly outside both (bounds
    inclusive, radii scaled by [Rpx / 50]), whose raw score is
    [n * multiplier], and records that raw score for the active player. *)
Theorem non_bull_multiplier (s : GameState) (rect : DOMRect) (e : MouseEvent) :
  valid_index s (activePlayerIndex s) ->
  (pixelRadius rect * (OUTER_BULL_R / SVG_RADIUS) < pixelDistance rect e)%R ->
  exists s1 h n,
    onBoardClick (Some rect) e s = Ok (setLastHit (Some h) s1) /\
    recordHit (activePlayerIndex s) (LNum n) (mult h) (rawScore h) s = Ok s1 /\
    sectorNumber h = Some n /\
    (mult h = 3 <->
     (pixelRadius rect * (TRIPLE_INNER / SVG_RADIUS) <= pixelDistance rect e)%R /\
     (pixelDistance rect e <= pixelRadius rect * (TRIPLE_OUTER / SVG_RADIUS))%R) /\
    (mult h = 2 <->
     ~ ((pixelRadius rect * (TRIPLE_INNER / SVG_RADIUS) <= pixelDistance rect e)%R /\
        (pixelDistance rect e <= pixelRadius rect * (TRIPLE_OUTER / SVG_RADIUS))%R) /\
     (pixelRadius rect * (DOUBLE_INNER / SVG_RADIUS) <= pixelDistance rect e)%R /\
     (pixelDistance rect e <= pixelRadius rect * (DOUBLE_OUTER / SVG_RADIUS))%R) /\
    (mult h = 1 <->
     ~ ((pixelRadius rect * (TRIPLE_INNER / SVG_RADIUS) <= pixelDistance rect e)%R /\
        (pixelDistance rect e <= pixelRadius rect * (TRIPLE_OUTER / SVG_RADIUS))%R) /\
     ~ ((pixelRadius rect * (DOUBLE_INNER / SVG_RADIUS) <= pixelDistance rect e)%R /\
        (pixelDistance rect e <= pixelRadius rect * (DOUBLE_OUTER / SVG_RADIUS))%R)) /\
    rawScore h = n * mult h.
Proof.
  intros V H. destruct (onBoardClick_sector s rect e V H) as [s1 [Ho Hr]].
  destruct (non_bull_ring rect e H) as [N1 N2].
  exists s1, (sectorHit rect e), (sectorAt (sectorIndex (sectorHit rect e))).
  split; [exact Ho |]. split; [exact Hr |]. split; [reflexivity |].
  pose proof (ring_px_cases (pixelDistance rect e) (pixelRadius rect)) as C.
  assert (mult (sectorHit rect e) =
          ring_mult (ring_px (pixelDistance rect e) (pixelRadius rect)))
    as -> by reflexivity.
  split; [| split; [| split; [| reflexivity]]];
    destruct (ring_px (pixelDistance rect e) (pixelRadius rect));
    try contradiction; simpl; split; intros G;
    try discriminate; try reflexivity; try tauto.
Qed.

Lemma non_bull_multiplier_witness :
  exists s1 h n,
    onBoardClick (Some (mkDOMRect 0 0 100 100)) (mkMouseEvent 50 (-50))
      (mkGameState 501 [mkPlayer "1" "Ann" 501 []] 0 false 2 false ""
         false None BULL 1)
    = Ok (setLastHit (Some h) s1) /\
    sectorNumber h = Some n /\ mult h = 1 /\ rawScore h = n * mult h.
Proof.
  set (s := mkGameState 501 [mkPlayer "1" "Ann" 501 []] 0 false 2 false ""
              false None BULL 1).
  set (rect := mkDOMRect 0 0 100 100). set (e := mkMouseEvent 50 (-50)).
  assert (valid_index s (activePlayerIndex s)) as V
    by (unfold valid_index; simpl; lia).
  assert (pixelDistance rect e = 100%R) as D.
  { unfold pixelDistance, pointerX, pointerY, Math_hypot.
    cbn [clientX clientY left top width height rect e].
    replace ((50 - (0 + 100 / 2)) * (50 - (0 + 100 / 2)) +
             (-50 - (0 + 100 / 2)) * (-50 - (0 + 100 / 2)))%R
      with (100 * 100)%R by lra.
    apply sqrt_square. lra. }
  assert (pixelRadius rect = 50%R) as E
    by (unfold pixelRadius; cbn [width rect]; lra).
  assert (pixelRadius rect * (OUTER_BULL_R / SVG_RADIUS)
          < pixelDistance rect e)%R as H.
  { rewrite D, E. unfold OUTER_BULL_R, SVG_RADIUS. lra. }
  destruct (non_bull_multiplier s rect e V H)
    as [s1 [h [n [Ho [_ [Hn [_ [_ [[_ H1] Hraw]]]]]]]]].
  exists s1, h, n. split; [exact Ho |]. split; [exact Hn |].
  split; [| exact Hraw].
  apply H1. rewrite D, E.
  unfold TRIPLE_INNER, TRIPLE_OUTER, DOUBLE_INNER, DOUBLE_OUTER, SVG_RADIUS.
  split; intros [? ?]; lra.
Defined.

(** ** C6: the sector *)

(** C6: for every click off the bulls on a board with a valid active
    player, with [angleFromTop = (atanDeg + 90 + 360) mod 360] (in 0..360
    and congruent to [atanDeg + 450] modulo 360), the stored sector index is
    [round(angleFromTop / 18) mod 20], where [round] gives the nearest
    integer and at an exact half (9 degrees past a sector centre) the next
    higher one, and the stored and recorded sector number is
    [SECTORS[sectorIndex]]. *)
Theorem sector_nearest_center (s : GameState) (rect : DOMRect)
    (e : MouseEvent) :
  valid_index s (activePlayerIndex s) ->
  (pixelRadius rect * (OUTER_BULL_R / SVG_RADIUS) < pixelDistance rect e)%R ->
  exists s1 h,
    onBoardClick (Some rect) e s = Ok (setLastHit (Some h) s1) /\
    let atanDeg0 := atanDegOf (pointerY rect e) (pointerX rect e) in
    let a := angleFromTopOf atanDeg0 in
    (0 <= a < 360)%R /\
    (exists k : Z, (atanDeg0 + 90 + 360 = a + 360 * IZR k)%R) /\
    sectorIndex h = Math_round (a / 18) mod 20 /\
    (IZR (Math_round (a / 18)) - / 2 <= a / 18
     < IZR (Math_round (a / 18)) + / 2)%R /\
    (forall k : Z, (a / 18 = IZR k + / 2)%R -> Math_round (a / 18) = k + 1) /\
    0 <= sectorIndex h < 20 /\
    nth_error SECTORS (Z.to_nat (sectorIndex h)) = sectorNumber h /\
    exists n,
      sectorNumber h = Some n /\ 1 <= n <= 20 /\
      recordHit (activePlayerIndex s) (LNum n) (mult h) (rawScore h) s = Ok s1.
Proof.
  intros V H. destruct (onBoardClick_sector s rect e V H) as [s1 [Ho Hr]].
  exists s1, (sectorHit rect e). split; [exact Ho |]. cbv zeta.
  destruct (angleFromTopOf_spec (pointerY rect e) (pointerX rect e))
    as [Ha Hk].
  destruct (sectorIndexOf_range _ Ha) as [_ [Hi Hb]].
  destruct (sectorAt_range _ Hb) as [Hn Hs].
  split; [exact Ha |]. split; [exact Hk |].
  split; [exact Hi |].
  split; [apply Math_round_nearest |].
  split; [intros k Hk'; now apply Math_round_tie |].
  split; [exact Hb |].
  split; [exact Hn |].
  eexists. split; [reflexivity |]. split; [exact Hs | exact Hr].
Qed.

(** A click on the diagonal up and to the right is at 45 degrees from the
    top, 2.5 sectors: the tie goes to index 3, sector 4. *)
Lemma sector_nearest_center_witness :
  exists s1 h,
    onBoardClick (Some (mkDOMRect 0 0 200 200)) (mkMouseEvent 130 70)
      (mkGameState 501 [mkPlayer "1" "Ann" 501 []] 0 false 2 false ""
         false None BULL 1)
    = Ok (setLastHit (Some h) s1) /\
    sectorIndex h = 3 /\ sectorNumber h = Some 4.
Proof.
  set (s := mkGameState 501 [mkPlayer "1" "Ann" 501 []] 0 false 2 false ""
              false None BULL 1).
  set (rect := mkDOMRect 0 0 200 200). set (e := mkMouseEvent 130 70).
  assert (valid_index s (activePlayerIndex s)) as V
    by (unfold valid_index; simpl; lia).
  assert (pointerX rect e = 30%R) as X
    by (unfold pointerX; cbn [clientX left width rect e]; lra).
  assert (pointerY rect e = (-30)%R) as Y
    by (unfold pointerY; cbn [clientY top height rect e]; lra).
  assert (pixelRadius rect = 100%R) as E
    by (unfold pixelRadius; cbn [width rect]; lra).
  assert (pixelRadius rect * (OUTER_BULL_R / SVG_RADIUS)
          < pixelDistance rect e)%R as H.
  { rewrite E. unfold pixelDistance, Math_hypot. rewrite X, Y.
    unfold OUTER_BULL_R, SVG_RADIUS.
    replace (100 * (10 / 50))%R with (sqrt (20 * 20))
      by (rewrite sqrt_square; lra).
    apply sqrt_lt_1; lra. }
  destruct (sector_nearest_center s rect e V H)
    as [s1 [h [Ho [Ha [[k Hk] [Hi [_ [Ht [_ [Hn _]]]]]]]]]].
  rewrite X, Y in *.
  assert (atanDegOf (-30) 30 = (-45)%R) as A.
  { unfold atanDegOf, Math_atan2.
    destruct (Rlt_dec 0 30) as [_ | N]; [| exfalso; lra].
    replace (-30 / 30)%R with (- (1))%R by lra.
    rewrite atan_opp, atan_1. field. apply PI_neq0. }
  rewrite A in *.
  assert (k = 1) as ->.
  { assert (IZR 0 < IZR k)%R as H0 by lra.
    assert (IZR k < IZR 2)%R as H2 by lra.
    apply lt_IZR in H0, H2. lia. }
  assert (angleFromTopOf (-45) = 45%R) as A' by lra.
  rewrite A' in *.
  assert (Math_round (45 / 18) = 2 + 1) as Hr by (apply Ht; lra).
  rewrite Hr in Hi. change ((2 + 1) mod 20) with 3 in Hi.
  exists s1, h. split; [exact Ho |]. split; [exact Hi |].
  rewrite Hi in Hn. symmetry. exact Hn.
Defined.

(** * The concrete scenarios of the specification *)

(** Scenario 1: a click straight above the centre inside the triple band
    is a triple 20, raw score 60. *)
Example scenario_board_top_triple :
  exists s1,
    onBoardClick (Some (mkDOMRect 0 0 100 100)) (mkMouseEvent 50 25)
      (mkGameState 501 [mkPlayer "1" "Ann" 501 []] 0 false 2 false ""
         false None BULL 1)
    = Ok (setLastHit
            (Some (sectorHit (mkDOMRect 0 0 100 100) (mkMouseEvent 50 25)))
            s1) /\
    players s1 = [mkPlayer "1" "Ann" 441 [mkScoreEvent "3×20" (-60)]] /\
    sectorNumber (sectorHit (mkDOMRect 0 0 100 100) (mkMouseEvent 50 25))
      = Some 20 /\
    mult (sectorHit (mkDOMRect 0 0 100 100) (mkMouseEvent 50 25)) = 3 /\
    rawScore (sectorHit (mkDOMRect 0 0 100 100) (mkMouseEvent 50 25)) = 60.
Proof.
  set (s := mkGameState 501 [mkPlayer "1" "Ann" 501 []] 0 false 2 false ""
              false None BULL 1).
  set (rect := mkDOMRect 0 0 100 100). set (e := mkMouseEvent 50 25).
  assert (valid_index s (activePlayerIndex s)) as V
    by (unfold valid_index; simpl; lia).
  assert (pointerX rect e = 0%R) as X
    by (unfold pointerX; cbn [clientX left width rect e]; lra).
  assert (pointerY rect e = (-25)%R) as Y
    by (unfold pointerY; cbn [clientY top height rect e]; lra).
  assert (pixelRadius rect = 50%R) as E
    by (unfold pixelRadius; cbn [width rect]; lra).
  assert (pixelDistance rect e = 25%R) as D.
  { unfold pixelDistance, Math_hypot. rewrite X, Y.
    replace (0 * 0 + -25 * -25)%R with (25 * 25)%R by lra.
    apply sqrt_square. lra. }
  assert (ring_px 25 50 = Triple) as T.
  { pose proof (ring_px_cases 25 50) as C.
    unfold INNER_BULL_R, OUTER_BULL_R, TRIPLE_INNER, TRIPLE_OUTER,
      DOUBLE_INNER, DOUBLE_OUTER, SVG_RADIUS in C.
    destruct (ring_px 25 50); try reflexivity; exfalso; lra. }
  assert (atanDegOf (-25) 0 = (-90)%R) as A.
  { unfold atanDegOf, Math_atan2.
    destruct (Rlt_dec 0 0) as [N | _]; [exfalso; lra |].
    destruct (Rlt_dec 0 (-25)) as [N | _]; [exfalso; lra |].
    destruct (Rlt_dec (-25) 0) as [_ | N]; [| exfalso; lra].
    field. apply PI_neq0. }
  assert (angleFromTopOf (-90) = 0%R) as A'.
  { destruct (Rrem_pos_spec (-90 + 90 + 360) 360) as [Hr [k Hk]];
      [lra | lra |].
    fold (angleFromTopOf (-90)) in Hr, Hk.
    assert (k = 1) as ->.
    { assert (IZR 0 < IZR k)%R as H0 by lra.
      assert (IZR k < IZR 2)%R as H2 by lra.
      apply lt_IZR in H0, H2. lia. }
    lra. }
  assert (sectorIndexOf 0 = 0) as I.
  { unfold sectorIndexOf, Math_round.
    rewrite (Math_floor_unique (0 / 18 + / 2) 0) by lra. reflexivity. }
  assert (sectorHit rect e =
          makeLastHit (25 / 50 * SVG_RADIUS) 0 (-25) (LNum 20) 3 60
            (Some (-90)%R) (Some 0%R) (Some 0)) as Hh.
  { unfold sectorHit. rewrite X, Y, D, E, A, A', I, T. reflexivity. }
  assert (pixelRadius rect * (OUTER_BULL_R / SVG_RADIUS)
          < pixelDistance rect e)%R as H.
  { rewrite D, E. unfold OUTER_BULL_R, SVG_RADIUS. lra. }
  destruct (onBoardClick_sector s rect e V H) as [s1 [Ho Hr]].
  exists s1. split; [exact Ho |].
  rewrite Hh in *. cbn [sectorIndex mult rawScore sectorNumber makeLastHit] in *.
  split; [| repeat split; reflexivity].
  vm_compute in Hr. injection Hr as <-. reflexivity.
Qed.

(** Scenario 3: two players, starting score 501; two hits of 60 on the
    first player and one undo leave 441 and a history of length 1. *)
Example scenario_two_hits_one_undo :
  exists s p,
    run [AddPlayer "Ann"; AddPlayer "Bob";
         RecordHit 0 (LNum 20) 3 60; RecordHit 0 (LNum 20) 3 60;
         UndoLast 0] initialState = Ok s /\
    at_index (players s) 0 = Some p /\
    score p = 441 /\ List.length (history p) = 1%nat.
Proof.
  eexists. eexists. split; [vm_compute; reflexivity |].
  split; [reflexivity |]. split; reflexivity.
Qed.

(** An empty history on undo is silently ignored. *)
Example scenario_undo_empty_history :
  exists s,
    run [AddPlayer "Ann"] initialState = Ok s /\ undoLast 0 s = Ok s.
Proof.
  eexists. split; [vm_compute; reflexivity |]. vm_compute. reflexivity.
Qed.

(** * Further properties of the players and the turns *)

Lemma run_app (a b : list Action) (s : GameState) :
  run (a ++ b) s = (s1 <- run a s ;; run b s1).
Proof.
  revert s. induction a as [| x a IH]; intros s; simpl; [reflexivity |].
  destruct (step x s); simpl; [apply IH | reflexivity].
Qed.

(** ** Ids *)

Lemma step_nextId (a : Action) (s s' : GameState) :
  step a s = Ok s' -> nextId s <= nextId s'.
Proof.
  intros H. destruct a; simpl in H;
    first
      [ apply recordHit_ids in H; lia
      | apply undoLast_ids in H; lia
      | apply onBoardClick_ids in H; lia
      | apply applyManualHit_ids in H; lia
      | unfold addPlayer, resetGame, removePlayer, nextTurn, setPlayers in H;
        simpl in H; injection H as <-; simpl; lia ].
Qed.

Lemma run_nextId (acts : list Action) :
  forall s s' : GameState, run acts s = Ok s' -> nextId s <= nextId s'.
Proof.
  induction acts as [| a rest IH]; intros s s' R; simpl in R.
  - injection R as <-. lia.
  - destruct (step a s) as [s1 |] eqn:St; simpl in R; [| discriminate].
    apply step_nextId in St. apply IH in R. lia.
Qed.

(** X1.  Ids are unique and never reused: in every state reached from the
    initial state the ids of the players are pairwise distinct; and a
    player added at any later time gets an id that no player of the earlier
    state had, whether or not that player was removed in between. *)
Theorem ids_unique_never_reused (acts1 acts2 : list Action)
    (s1 s2 s3 : GameState) (name0 : string) :
  run acts1 initialState = Ok s1 ->
  run acts2 s1 = Ok s2 ->
  addPlayer name0 s2 = Ok s3 ->
  NoDup (map id (players s1)) /\
  NoDup (map id (players s3)) /\
  exists p,
    players s3 = players s2 ++ [p] /\
    ~ In (id p) (map id (players s1)) /\
    ~ In (id p) (map id (players s2)).
Proof.
  intros R1 R2 A.
  assert (ids_fresh s1) as F1.
  { eapply (run_ids_fresh acts1 initialState); [| exact R1].
    split; [constructor | intros i []]. }
  assert (ids_fresh s2) as F2 by (eapply run_ids_fresh; eauto).
  assert (ids_fresh s3) as F3
    by (eapply (step_ids_fresh (AddPlayer name0)); eauto).
  pose proof (run_nextId _ _ _ R2) as Hmono.
  split; [apply F1 |]. split; [apply F3 |].
  unfold addPlayer, setPlayers in A. simpl in A. injection A as <-. simpl.
  eexists. split; [reflexivity |]. simpl. split.
  - intros Hin. destruct F1 as [_ Hk]. destruct (Hk _ Hin) as [k [E Hlt]].
    apply String_of_inj in E. lia.
  - intros Hin. destruct F2 as [_ Hk]. destruct (Hk _ Hin) as [k [E Hlt]].
    apply String_of_inj in E. lia.
Qed.

Lemma ids_unique_never_reused_witness :
  exists s1 s2 s3 p,
    run [AddPlayer "Ann"; AddPlayer "Bob"] initialState = Ok s1 /\
    run [RemovePlayer "2"; NextTurn] s1 = Ok s2 /\
    addPlayer "Cid" s2 = Ok s3 /\
    players s3 = players s2 ++ [p] /\
    ~ In (id p) (map id (players s1)).
Proof.
  eexists. eexists. eexists.
  match goal with
  | |- exists p, ?R1 /\ ?R2 /\ ?R3 /\ _ =>
      assert (R1) as H1 by (vm_compute; reflexivity);
      assert (R2) as H2 by (vm_compute; reflexivity);
      assert (R3) as H3 by (vm_compute; reflexivity)
  end.
  destruct (ids_unique_never_reused _ _ _ _ _ _ H1 H2 H3)
    as [_ [_ [p [Hp [Hn _]]]]].
  exists p. split; [exact H1 |]. split; [exact H2 |]. split; [exact H3 |].
  split; [exact Hp | exact Hn].
Defined.

(** ** Reset *)

(** X2.  [resetGame] keeps the players, their order, ids and names, and puts
    every one of them back to the configured starting score with an empty
    history; it makes the first player active, stops the game and forgets
    the last hit; the configuration and the id counter stay.  A second
    [resetGame] changes nothing more. *)
Theorem resetGame_spec (s : GameState) :
  exists s',
    resetGame s = Ok s' /\
    map id (players s') = map id (players s) /\
    map name (players s') = map name (players s) /\
    (forall p, In p (players s') ->
       score p = startingScore s /\ history p = []) /\
    activePlayerIndex s' = 0 /\
    isRunning s' = false /\
    lastHit s' = None /\
    startingScore s' = startingScore s /\
    nextId s' = nextId s /\
    resetGame s' = Ok s'.
Proof.
  eexists. split; [reflexivity |]. simpl.
  split; [now rewrite map_map |]. split; [now rewrite map_map |].
  split.
  { intros p Hp. apply in_map_iff in Hp. destruct Hp as [q [<- _]]. now split. }
  repeat (split; [reflexivity |]).
  unfold resetGame, setPlayers. simpl. now rewrite map_map.
Qed.

(** ** Undo *)

Lemma undoLast_of_recordHit (s s1 : GameState) (i : Z) (label : JsLabel)
    (m r : Z) :
  recordHit i label m r s = Ok s1 -> undoLast i s1 = Ok s.
Proof.
  intros H. destruct (at_index (players s) i) as [pl |] eqn:E.
  2:{ unfold recordHit, setPlayers in H. simpl in H. rewrite E in H.
      discriminate. }
  pose proof (at_index_Some_valid _ _ _ E) as V.
  rewrite (recordHit_valid _ _ _ _ _ _ E) in H. injection H as <-.
  unfold undoLast, setPlayers. simpl.
  rewrite (at_index_assign_same _ _ _ V). simpl.
  rewrite assign_twice.
  replace (score pl + - r - - r) with (score pl) by lia.
  replace {| id := id pl; name := name pl; score := score pl;
             history := history pl |} with pl by now destruct pl.
  rewrite (assign_self _ _ _ E). now rewrite state_eta.
Qed.

(** X3.  [undoLast] on a valid index: with an empty history the state is
    returned unchanged; otherwise the front event is removed, its delta is
    taken back from the score, the player keeps id and name, and every
    other player and every other state cell is as before. *)
Theorem undoLast_spec (s : GameState) (i : Z) :
  valid_index s i ->
  exists s' p,
    undoLast i s = Ok s' /\
    at_index (players s) i = Some p /\
    match history p with
    | [] => s' = s
    | ev :: rest =>
        at_index (players s') i =
          Some {| id := id p; name := name p;
                  score := score p - delta ev; history := rest |} /\
        List.length (players s') = List.length (players s) /\
        (forall j, j <> i -> at_index (players s') j = at_index (players s) j) /\
        activePlayerIndex s' = activePlayerIndex s /\
        startingScore s' = startingScore s /\
        isRunning s' = isRunning s /\
        nextId s' = nextId s /\
        lastHit s' = lastHit s
    end.
Proof.
  intros V. destruct (at_index_valid _ _ V) as [pl E].
  unfold undoLast, setPlayers. simpl. rewrite E.
  destruct (history pl) as [| ev rest] eqn:Hh; simpl.
  - exists s, pl. rewrite state_eta, Hh. auto.
  - eexists. exists pl. split; [reflexivity |]. split; [reflexivity |].
    rewrite Hh. simpl.
    split; [now apply at_index_assign_same |].
    split; [apply assign_length |].
    split; [intros j Hj; now apply at_index_assign_other |].
    repeat split; reflexivity.
Qed.

Lemma undoLast_spec_witness :
  exists s,
    run [AddPlayer "Ann"; AddPlayer "Bob";
         RecordHit 1 (LNum 20) 3 60; RecordHit 1 (LNum 5) 1 5]
      initialState = Ok s /\
    exists s',
      undoLast 1 s = Ok s' /\
      at_index (players s') 1 =
        Some (mkPlayer "2" "Bob" 441 [mkScoreEvent "3×20" (-60)]) /\
      at_index (players s') 0 = at_index (players s) 0.
Proof.
  eexists. split; [vm_compute; reflexivity |].
  match goal with
  | |- exists s', undoLast ?i ?s = _ /\ _ =>
      assert (valid_index s i) as V by (unfold valid_index; simpl; lia);
      destruct (undoLast_spec s i V) as [s' [p [Hu [Hp Hm]]]]
  end.
  vm_compute in Hp. injection Hp as <-. cbn [history] in Hm.
  destruct Hm as [H1 [_ [H2 _]]].
  exists s'. split; [exact Hu |]. split; [exact H1 | apply H2; lia].
Defined.

Lemma hitActions_valid (hits : list (JsLabel * Z * Z)) :
  forall (s : GameState) (i : Z),
    valid_index s i ->
    exists s', run (hitActions i hits) s = Ok s' /\ valid_index s' i.
Proof.
  induction hits as [| [[l m] r] rest IH]; intros s i V; simpl.
  - now exists s.
  - destruct (at_index_valid _ _ V) as [pl E].
    rewrite (recordHit_valid _ _ _ _ _ _ E). simpl. apply IH.
    unfold valid_index in *. simpl. now rewrite assign_length.
Qed.

(** ** Hits on different players *)

Lemma assign_nat_commute {A : Type} (l : list A) (n m : nat) (a b : A) :
  n <> m ->
  assign_nat (assign_nat l n a) m b = assign_nat (assign_nat l m b) n a.
Proof.
  revert n m. induction l as [| h t IH]; intros [| n] [| m] H; simpl;
    try reflexivity; try congruence.
  rewrite IH; [reflexivity | congruence].
Qed.

Lemma assign_commute {A : Type} (l : list A) (i j : Z) (a b : A) :
  0 <= i -> 0 <= j -> i <> j ->
  assign (assign l i a) j b = assign (assign l j b) i a.
Proof.
  intros Hi Hj H. unfold assign.
  destruct (i <? 0) eqn:Ei; [apply Z.ltb_lt in Ei; lia |].
  destruct (j <? 0) eqn:Ej; [apply Z.ltb_lt in Ej; lia |].
  apply assign_nat_commute. lia.
Qed.

(** X6.  Hits on two different players are independent: recorded in either
    order they give the same state. *)
Theorem recordHit_commute (s : GameState) (i j : Z) (l1 l2 : JsLabel)
    (m1 r1 m2 r2 : Z) :
  valid_index s i -> valid_index s j -> i <> j ->
  exists s',
    (s1 <- recordHit i l1 m1 r1 s ;; recordHit j l2 m2 r2 s1) = Ok s' /\
    (s1 <- recordHit j l2 m2 r2 s ;; recordHit i l1 m1 r1 s1) = Ok s'.
Proof.
  intros Vi Vj N.
  destruct (at_index_valid _ _ Vi) as [pi Ei].
  destruct (at_index_valid _ _ Vj) as [pj Ej].
  rewrite (recordHit_valid _ _ _ _ _ _ Ei), (recordHit_valid _ _ _ _ _ _ Ej).
  cbn [bind].
  erewrite recordHit_valid
    by (cbn [players]; rewrite at_index_assign_other by congruence;
        exact Ej).
  erewrite (recordHit_valid _ i)
    by (cbn [players]; rewrite at_index_assign_other by congruence;
        exact Ei).
  cbn. eexists. split; [reflexivity |]. do 2 f_equal.
  symmetry. apply assign_commute; [apply Vi | apply Vj | exact N].
Qed.

Lemma recordHit_commute_witness :
  exists s,
    run [AddPlayer "Ann"; AddPlayer "Bob"] initialState = Ok s /\
    exists s',
      (s1 <- recordHit 0 (LNum 20) 3 60 s ;; recordHit 1 (LNum 19) 2 38 s1)
      = Ok s' /\
      (s1 <- recordHit 1 (LNum 19) 2 38 s ;; recordHit 0 (LNum 20) 3 60 s1)
      = Ok s'.
Proof.
  eexists. split; [vm_compute; reflexivity |].
  match goal with
  | |- exists s', bind (recordHit _ _ _ _ ?s) _ = _ /\ _ =>
      assert (valid_index s 0) as V0 by (unfold valid_index; simpl; lia);
      assert (valid_index s 1) as V1 by (unfold valid_index; simpl; lia);
      apply (recordHit_commute s 0 1 (LNum 20) (LNum 19) 3 60 2 38 V0 V1)
  end.
  lia.
Defined.

(** ** The active player *)

(** X7.  Whatever the user does with the component (add, remove and reset,
    pass the turn, next turn, undo, board clicks, manual hits, settings),
    no command raises, and [activePlayerIndex] points at an existing player
    whenever there is one, and is 0 while there is none. *)
Theorem active_index_in_range (acts : list Action) :
  ui_run acts initialState = true ->
  exists s,
    run acts initialState = Ok s /\
    (players s = [] -> activePlayerIndex s = 0) /\
    (players s <> [] -> valid_index s (activePlayerIndex s)).
Proof.
  intros U.
  destruct (ui_run_turn_ok acts initialState) as [s [R T]];
    [now left | exact U |].
  exists s. split; [exact R |]. destruct T as [[P A] | V].
  - split; [auto | intros N; contradiction].
  - split; [| auto]. intros P. apply valid_index_players in V. contradiction.
Qed.

Lemma active_index_in_range_witness :
  exists s,
    run [AddPlayer "Ann"; AddPlayer "Bob"; AddPlayer "Cid";
         SelectActivePlayer 2; RemovePlayer "1"; NextTurn; NextTurn;
         ApplyManualHit; UndoLast 1] initialState = Ok s /\
    (players s <> [] -> valid_index s (activePlayerIndex s)).
Proof.
  destruct (active_index_in_range
              [AddPlayer "Ann"; AddPlayer "Bob"; AddPlayer "Cid";
               SelectActivePlayer 2; RemovePlayer "1"; NextTurn; NextTurn;
               ApplyManualHit; UndoLast 1]) as [s [R [_ V]]];
    [vm_compute; reflexivity |].
  exists s. split; [exact R | exact V].
Defined.

(** ** The running flag *)

Lemma recordHit_setIsRunning (f : bool -> bool) (i : Z) (l : JsLabel)
    (m r : Z) (s : GameState) :
  recordHit i l m r (setIsRunning f s) =
  (s1 <- recordHit i l m r s ;; Ok (setIsRunning f s1)).
Proof.
  unfold recordHit, setPlayers. simpl.
  destruct (at_index (players s) i); reflexivity.
Qed.

Lemma hit_setIsRunning (f : bool -> bool) (i : Z) (l : JsLabel) (m r : Z)
    (h : option LastHit) (s : GameState) :
  (s1 <- recordHit i l m r (setIsRunning f s) ;; Ok (setLastHit h s1)) =
  (s' <- (s1 <- recordHit i l m r s ;; Ok (setLastHit h s1)) ;;
   Ok (setIsRunning f s')).
Proof.
  rewrite recordHit_setIsRunning.
  destruct (recordHit i l m r s); reflexivity.
Qed.

(** X9.  The running flag gates nothing: every command other than the start /
    pause toggle and [resetGame] (which write the flag) does to a state
    exactly what it does to the same state with another value of the flag,
    and leaves the flag alone.  Throws are recorded, turns advance and
    undo works whether the game is "running" or not. *)
Theorem running_flag_gates_nothing (a : Action) (f : bool -> bool)
    (s : GameState) :
  a <> ToggleRunning -> a <> ResetGame ->
  step a (setIsRunning f s) = (s' <- step a s ;; Ok (setIsRunning f s')).
Proof.
  intros N1 N2. destruct a; try contradiction; try reflexivity.
  - (* recordHit *) apply recordHit_setIsRunning.
  - (* undoLast *)
    unfold step, undoLast, setPlayers. simpl.
    destruct (at_index (players s) playerIndex) as [pl |]; [| reflexivity].
    destruct (history pl); reflexivity.
  - (* onBoardClick *)
    unfold step, onBoardClick. cbn [players setIsRunning activePlayerIndex].
    destruct (players s); [reflexivity |].
    destruct el as [rect |]; [| reflexivity]. cbv zeta.
    repeat match goal with
           | |- context [if ?b then _ else _] =>
               lazymatch b with
               | Rleb _ _ => destruct b
               end
           end; apply hit_setIsRunning.
  - (* applyManualHit *)
    unfold step, applyManualHit.
    cbn [players setIsRunning activePlayerIndex manualSector manualMult].
    destruct (players s); [reflexivity |].
    destruct (manualSector s); apply hit_setIsRunning.
Qed.

Lemma running_flag_gates_nothing_witness :
  step ApplyManualHit
    (setIsRunning negb
       (mkGameState 501 [mkPlayer "1" "Ann" 501 []] 0 false 2 false ""
          false None OB 1)) =
  (s' <- step ApplyManualHit
           (mkGameState 501 [mkPlayer "1" "Ann" 501 []] 0 false 2 false ""
              false None OB 1) ;;
   Ok (setIsRunning negb s')).
Proof.
  apply running_flag_gates_nothing; discriminate.
Defined.

(** * Further properties of the hit handling *)

(** ** What a board click does to the state *)

Lemma hit_records (s : GameState) (l : JsLabel) (m r : Z) (h : LastHit) :
  valid_index s (activePlayerIndex s) ->
  rawScore h = r ->
  exists s',
    (s1 <- recordHit (activePlayerIndex s) l m r s ;;
     Ok (setLastHit (Some h) s1)) = Ok s' /\
    records_hit s s' h.
Proof.
  intros V Hr. destruct (at_index_valid _ _ V) as [pl E].
  rewrite (recordHit_valid _ _ _ _ _ _ E). cbn [bind].
  eexists. split; [reflexivity |]. unfold records_hit. simpl.
  repeat (split; [reflexivity |]).
  split; [apply assign_length |].
  split; [intros j Hj; now apply at_index_assign_other |].
  exists pl. eexists. split; [exact E |].
  split; [rewrite (at_index_assign_same _ _ _ V); unfold hit_player;
          rewrite Hr; reflexivity |].
  simpl. now rewrite Hr.
Qed.

Lemma sectorHit_bounds (rect : DOMRect) (e : MouseEvent) :
  1 <= sectorAt (sectorIndex (sectorHit rect e)) <= 20 /\
  1 <= mult (sectorHit rect e) <= 3 /\
  1 <= rawScore (sectorHit rect e) <= 60.
Proof.
  destruct (angleFromTopOf_spec (pointerY rect e) (pointerX rect e))
    as [Ha _].
  destruct (sectorIndexOf_range _ Ha) as [_ [_ Hb]].
  destruct (sectorAt_range _ Hb) as [_ Hs].
  cbn [sectorHit makeLastHit sectorIndex mult rawScore].
  assert (1 <= ring_mult (ring_px (pixelDistance rect e) (pixelRadius rect))
          <= 3) as Hm
    by (destruct (ring_px (pixelDistance rect e) (pixelRadius rect));
        simpl; lia).
  split; [exact Hs |]. split; [exact Hm |]. nia.
Qed.

(** X10.  Every click on the mounted board with a valid active player is a
    throw: it takes a raw score between 1 and 60 from the active player
    (with multiplier 1, 2 or 3), puts one event in front of that player's
    history and stores the hit; it touches no other player and it does not
    pass the turn. *)
Theorem board_click_effect (s : GameState) (rect : DOMRect) (e : MouseEvent) :
  valid_index s (activePlayerIndex s) ->
  exists s' h,
    onBoardClick (Some rect) e s = Ok s' /\
    records_hit s s' h /\
    1 <= rawScore h <= 60 /\
    1 <= mult h <= 3.
Proof.
  intros V. rewrite (onBoardClick_ring_px s rect e (valid_index_players _ _ V)).
  destruct (sectorHit_bounds rect e) as [_ [Hm Hr]].
  destruct (ring_px (pixelDistance rect e) (pixelRadius rect));
    match goal with
    | |- exists s' h, bind (recordHit _ ?l ?m ?r s)
                           (fun s1 => Ok (setLastHit (Some ?h0) s1)) = _ /\ _ =>
        destruct (hit_records s l m r h0 V eq_refl) as [s' [Ho Hrec]];
        exists s', h0; split; [exact Ho |]; split; [exact Hrec |];
        first [ split; assumption | simpl; lia ]
    end.
Qed.

Lemma board_click_effect_witness :
  exists s' h,
    onBoardClick (Some (mkDOMRect 10 20 300 300)) (mkMouseEvent 47 211)
      (mkGameState 301 [mkPlayer "1" "Ann" 301 []; mkPlayer "2" "Bob" 120 []]
         1 true 3 false "" false None BULL 1) = Ok s' /\
    lastHit s' = Some h /\
    activePlayerIndex s' = 1 /\
    1 <= rawScore h <= 60.
Proof.
  destruct (board_click_effect
              (mkGameState 301
                 [mkPlayer "1" "Ann" 301 []; mkPlayer "2" "Bob" 120 []]
                 1 true 3 false "" false None BULL 1)
              (mkDOMRect 10 20 300 300) (mkMouseEvent 47 211))
    as [s' [h [Ho [[Hl [Ha _]] [Hr _]]]]];
    [unfold valid_index; simpl; lia |].
  exists s', h. split; [exact Ho |]. split; [exact Hl |].
  split; [exact Ha | exact Hr].
Defined.

(** ** The two entry paths *)

(** X12.  The manual path records what the board path records: a manual
    selection that names the ring, and off the bulls the sector and the
    multiplier, of a board click leaves the same players (scores and
    histories) as that click; the two results differ in the stored last
    hit only. *)
Theorem manual_hit_equals_board_hit (s : GameState) (rect : DOMRect)
    (e : MouseEvent) :
  valid_index s (activePlayerIndex s) ->
  manualSector s =
    manualSectorOf (ring_px (pixelDistance rect e) (pixelRadius rect))
      (sectorAt (sectorIndex (sectorHit rect e))) ->
  (forall n, manualSector s = Sector n ->
             manualMult s = mult (sectorHit rect e)) ->
  exists s1 s2,
    onBoardClick (Some rect) e s = Ok s1 /\
    applyManualHit s = Ok s2 /\
    players s1 = players s2 /\
    setLastHit None s1 = setLastHit None s2.
Proof.
  intros V Hs Hm.
  rewrite (onBoardClick_ring_px s rect e (valid_index_players _ _ V)).
  unfold applyManualHit.
  pose proof (valid_index_players _ _ V) as P.
  destruct (players s) as [| p0 ps] eqn:Hp; [contradiction |].
  rewrite <- Hp in *.
  destruct (at_index_valid _ _ V) as [pl E].
  destruct (ring_px (pixelDistance rect e) (pixelRadius rect));
    cbn [manualSectorOf] in Hs; try rewrite (Hm _ Hs); rewrite Hs;
    rewrite !(recordHit_valid _ _ _ _ _ _ E); cbn [bind];
    eexists; eexists; (split; [reflexivity |]); (split; [reflexivity |]);
    split; reflexivity.
Qed.

(** Straight up from the centre: -90 degrees on the screen, 0 degrees
    from the top, sector index 0. *)
Lemma atanDegOf_up (d : R) : (0 < d)%R -> atanDegOf (- d) 0 = (-90)%R.
Proof.
  intros Hd. unfold atanDegOf, Math_atan2.
  destruct (Rlt_dec 0 0) as [N | _]; [exfalso; lra |].
  destruct (Rlt_dec 0 (- d)) as [N | _]; [exfalso; lra |].
  destruct (Rlt_dec (- d) 0) as [_ | N]; [| exfalso; lra].
  field. apply PI_neq0.
Qed.

Lemma angleFromTopOf_up : angleFromTopOf (-90) = 0%R.
Proof.
  destruct (Rrem_pos_spec (-90 + 90 + 360) 360) as [Hr [k Hk]];
    [lra | lra |].
  fold (angleFromTopOf (-90)) in Hr, Hk.
  assert (k = 1) as ->.
  { assert (IZR 0 < IZR k)%R as H0 by lra.
    assert (IZR k < IZR 2)%R as H2 by lra.
    apply lt_IZR in H0, H2. lia. }
  lra.
Qed.

Lemma sectorIndexOf_0 : sectorIndexOf 0 = 0.
Proof.
  unfold sectorIndexOf, Math_round.
  rewrite (Math_floor_unique (0 / 18 + / 2) 0) by lra. reflexivity.
Qed.

Lemma manual_hit_equals_board_hit_witness :
  exists s1 s2,
    onBoardClick (Some (mkDOMRect 0 0 100 100)) (mkMouseEvent 50 25)
      (mkGameState 501 [mkPlayer "1" "Ann" 501 []] 0 false 2 false ""
         false None (Sector 20) 3) = Ok s1 /\
    applyManualHit
      (mkGameState 501 [mkPlayer "1" "Ann" 501 []] 0 false 2 false ""
         false None (Sector 20) 3) = Ok s2 /\
    players s1 = players s2.
Proof.
  set (s := mkGameState 501 [mkPlayer "1" "Ann" 501 []] 0 false 2 false ""
              false None (Sector 20) 3).
  set (rect := mkDOMRect 0 0 100 100). set (e := mkMouseEvent 50 25).
  assert (valid_index s (activePlayerIndex s)) as V
    by (unfold valid_index; simpl; lia).
  assert (pointerX rect e = 0%R) as X
    by (unfold pointerX; cbn [clientX left width rect e]; lra).
  assert (pointerY rect e = Ropp 25) as Y
    by (unfold pointerY; cbn [clientY top height rect e]; lra).
  assert (pixelRadius rect = 50%R) as E
    by (unfold pixelRadius; cbn [width rect]; lra).
  assert (pixelDistance rect e = 25%R) as D.
  { unfold pixelDistance, Math_hypot. rewrite X, Y.
    replace (0 * 0 + Ropp 25 * Ropp 25)%R with (25 * 25)%R by lra.
    apply sqrt_square. lra. }
  assert (ring_px 25 50 = Triple) as T.
  { pose proof (ring_px_cases 25 50) as C.
    unfold INNER_BULL_R, OUTER_BULL_R, TRIPLE_INNER, TRIPLE_OUTER,
      DOUBLE_INNER, DOUBLE_OUTER, SVG_RADIUS in C.
    destruct (ring_px 25 50); try reflexivity; exfalso; lra. }
  assert (sectorIndex (sectorHit rect e) = 0) as I.
  { cbn [sectorHit makeLastHit sectorIndex]. rewrite X, Y.
    rewrite atanDegOf_up by lra. rewrite angleFromTopOf_up.
    apply sectorIndexOf_0. }
  assert (mult (sectorHit rect e) = 3) as M.
  { cbn [sectorHit makeLastHit mult]. now rewrite D, E, T. }
  destruct (manual_hit_equals_board_hit s rect e V)
    as [s1 [s2 [H1 [H2 [H3 _]]]]].
  - rewrite D, E, T, I. reflexivity.
  - intros n _. rewrite M. reflexivity.
  - exists s1, s2. split; [exact H1 |]. split; [exact H2 | exact H3].
Defined.

(** ** The marker of a manual hit *)

Lemma toFixed2_0 : toFixed2 0 = 0%R.
Proof.
  unfold toFixed2. destruct (Rlt_dec 0 0) as [N | _]; [exfalso; lra |].
  rewrite (Math_floor_unique (0 * 100 + / 2) 0) by lra. lra.
Qed.

Lemma makeLastHit_up (d : R) (l : JsLabel) (m r : Z) :
  (0 < d)%R ->
  sectorIndex (makeLastHit d 0 (- d) l m r None None None) = 0 /\
  angleFromTop (makeLastHit d 0 (- d) l m r None None None) = 0%R /\
  svgX (makeLastHit d 0 (- d) l m r None None None) = 50%R /\
  svgY (makeLastHit d 0 (- d) l m r None None None) = (50 - d)%R.
Proof.
  intros Hd. cbn [makeLastHit sectorIndex angleFromTop svgX svgY].
  rewrite (atanDegOf_up d Hd), angleFromTopOf_up.
  replace ((90 - 0) * PI / 180)%R with (PI / 2)%R by lra.
  rewrite cos_PI2, sin_PI2.
  split; [apply sectorIndexOf_0 |]. split; [apply toFixed2_0 |].
  split; lra.
Qed.

(** X13.  A manual hit is always drawn straight above the centre: whatever
    sector was selected, the stored hit has sector index 0 and angle 0, and
    its marker sits at [x = 50], [y = 50 - distSvg] with the fixed distance
    5 (bull), 10 (outer bull) or 28 (a sector). *)
Theorem manual_hit_marker_at_top (s : GameState) :
  valid_index s (activePlayerIndex s) ->
  exists s' h,
    applyManualHit s = Ok s' /\
    lastHit s' = Some h /\
    sectorIndex h = 0 /\
    angleFromTop h = 0%R /\
    svgX h = 50%R /\
    svgY h = (50 - distSvg h)%R /\
    distSvg h = match manualSector s with
                | BULL => 5%R
                | OB => 10%R
                | Sector _ => 28%R
                end.
Proof.
  intros V. unfold applyManualHit.
  pose proof (valid_index_players _ _ V) as P.
  destruct (players s) as [| p0 ps] eqn:Hp; [contradiction |].
  rewrite <- Hp in *.
  destruct (at_index_valid _ _ V) as [pl E].
  destruct (manualSector s);
    rewrite (recordHit_valid _ _ _ _ _ _ E); cbn [bind];
    eexists; eexists; (split; [reflexivity |]);
    (split; [reflexivity |]);
    match goal with
    | |- context [makeLastHit ?d 0 (- ?d) ?l ?m ?r None None None] =>
        destruct (makeLastHit_up d l m r) as [H1 [H2 [H3 H4]]];
        [unfold INNER_BULL_R, OUTER_BULL_R, TRIPLE_OUTER; lra |];
        split; [exact H1 |]; split; [exact H2 |]; split; [exact H3 |];
        split; [exact H4 | reflexivity]
    end.
Qed.

Lemma manual_hit_marker_at_top_witness :
  exists s' h,
    applyManualHit
      (mkGameState 501 [mkPlayer "1" "Ann" 501 []] 0 false 2 false ""
         false None (Sector 3) 2) = Ok s' /\
    lastHit s' = Some h /\
    sectorIndex h = 0 /\ svgX h = 50%R /\ distSvg h = 28%R.
Proof.
  destruct (manual_hit_marker_at_top
              (mkGameState 501 [mkPlayer "1" "Ann" 501 []] 0 false 2 false
                 "" false None (Sector 3) 2))
    as [s' [h [Ha [Hl [Hi [_ [Hx [_ Hd]]]]]]]];
    [unfold valid_index; simpl; lia |].
  exists s', h. split; [exact Ha |]. split; [exact Hl |].
  split; [exact Hi |]. split; [exact Hx | exact Hd].
Defined.

(** ** The marker of a board click *)

Lemma hypot_scaled (x y : R) :
  x <> 0%R -> Math_hypot x y = (Rabs x * sqrt (1 + (y / x)²))%R.
Proof.
  intros Hx. unfold Math_hypot.
  replace (x * x + y * y)%R with (x² * (1 + (y / x)²))%R
    by (unfold Rsqr; field; exact Hx).
  rewrite sqrt_mult.
  - now rewrite sqrt_Rsqr_abs.
  - apply Rle_0_sqr.
  - pose proof (Rle_0_sqr (y / x)). lra.
Qed.

Lemma sqrt_1_sqr_pos (t : R) : (0 < sqrt (1 + t²))%R.
Proof. apply sqrt_lt_R0. pose proof (Rle_0_sqr t). lra. Qed.

(** [Math.hypot] and [Math.atan2] are the polar coordinates of the
    pointer. *)
Lemma polar_of_atan2 (x y : R) :
  (Math_hypot x y * cos (Math_atan2 y x) = x)%R /\
  (Math_hypot x y * sin (Math_atan2 y x) = y)%R.
Proof.
  unfold Math_atan2.
  destruct (Rlt_dec 0 x) as [Hx | Hx].
  { rewrite hypot_scaled by lra. rewrite cos_atan, sin_atan.
    pose proof (sqrt_1_sqr_pos (y / x)) as HS.
    rewrite Rabs_right by lra. split; field; lra. }
  destruct (Rlt_dec x 0) as [Hx' | Hx'].
  { rewrite hypot_scaled by lra.
    pose proof (sqrt_1_sqr_pos (y / x)) as HS.
    rewrite Rabs_left by lra.
    destruct (Rle_dec 0 y) as [Hy | Hy].
    - rewrite neg_cos, neg_sin, cos_atan, sin_atan. split; field; lra.
    - rewrite cos_minus, sin_minus, cos_PI, sin_PI, cos_atan, sin_atan.
      split; field; lra. }
  assert (x = 0%R) as -> by lra.
  unfold Math_hypot.
  replace (0 * 0 + y * y)%R with (y²)%R by (unfold Rsqr; lra).
  rewrite sqrt_Rsqr_abs.
  destruct (Rlt_dec 0 y) as [Hy | Hy].
  { rewrite cos_PI2, sin_PI2, Rabs_right by lra. split; lra. }
  destruct (Rlt_dec y 0) as [Hy' | Hy'].
  { rewrite cos_neg, sin_neg, cos_PI2, sin_PI2, Rabs_left by lra.
    split; lra. }
  assert (y = 0%R) as -> by lra. rewrite Rabs_R0. split; lra.
Qed.

(** The angle [thetaRad] that [makeLastHit] rebuilds from [angleFromTop]
    is the screen angle of the pointer mirrored, up to a full turn. *)
Lemma thetaRad_of_pointer (y x : R) :
  cos ((90 - angleFromTopOf (atanDegOf y x)) * PI / 180)
  = cos (Math_atan2 y x) /\
  sin ((90 - angleFromTopOf (atanDegOf y x)) * PI / 180)
  = (- sin (Math_atan2 y x))%R.
Proof.
  destruct (angleFromTopOf_spec y x) as [Ha [k Hk]].
  pose proof (atanDegOf_range y x) as HD.
  assert (k = 0 \/ k = 1) as Hk01.
  { assert (IZR (-1) < IZR k)%R as H0 by lra.
    assert (IZR k < IZR 2)%R as H2 by lra.
    apply lt_IZR in H0, H2. lia. }
  assert (atanDegOf y x * PI / 180 = Math_atan2 y x)%R as Ht
    by (unfold atanDegOf; field; apply PI_neq0).
  set (t := Math_atan2 y x) in *.
  set (D := atanDegOf y x) in *. set (a := angleFromTopOf D) in *.
  destruct Hk01 as [-> | ->].
  - assert (a = D + 450)%R as -> by lra.
    replace ((90 - (D + 450)) * PI / 180)%R with (- (t + 2 * PI))%R
      by (rewrite <- Ht; field).
    rewrite cos_neg, sin_neg, cos_plus, sin_plus, cos_2PI, sin_2PI.
    split; lra.
  - assert (a = D + 90)%R as -> by lra.
    replace ((90 - (D + 90)) * PI / 180)%R with (- t)%R
      by (rewrite <- Ht; field).
    rewrite cos_neg, sin_neg. split; reflexivity.
Qed.

Lemma makeLastHit_marker (rect : DOMRect) (e : MouseEvent) (l : JsLabel)
    (m r : Z) (oa : option R) (ob : option R) (oi : option Z) :
  (oa = None \/ oa = Some (atanDegOf (pointerY rect e) (pointerX rect e))) ->
  (ob = None \/
   ob = Some (angleFromTopOf
                (atanDegOf (pointerY rect e) (pointerX rect e)))) ->
  let h := makeLastHit
             (pixelDistance rect e / pixelRadius rect * SVG_RADIUS)
             (pointerX rect e) (pointerY rect e) l m r oa ob oi in
  svgX h = (50 + pointerX rect e * (50 / pixelRadius rect))%R /\
  svgY h = (50 + pointerY rect e * (50 / pixelRadius rect))%R /\
  distSvg h = normalized (pixelDistance rect e) (pixelRadius rect).
Proof.
  intros Ha Hb h.
  destruct (thetaRad_of_pointer (pointerY rect e) (pointerX rect e))
    as [Hc Hs].
  destruct (polar_of_atan2 (pointerX rect e) (pointerY rect e)) as [Px Py].
  fold (pixelDistance rect e) in Px, Py.
  assert (svgX h = (50 + pixelDistance rect e / pixelRadius rect * SVG_RADIUS
                         * cos (Math_atan2 (pointerY rect e) (pointerX rect e)))%R
          /\
          svgY h = (50 - pixelDistance rect e / pixelRadius rect * SVG_RADIUS
                         * - sin (Math_atan2 (pointerY rect e) (pointerX rect e)))%R)
    as [-> ->].
  { unfold h. cbn [makeLastHit svgX svgY].
    destruct Ha as [-> | ->], Hb as [-> | ->]; rewrite Hc, Hs; now split. }
  unfold SVG_RADIUS, normalized. cbn [makeLastHit distSvg h].
  set (d := pixelDistance rect e) in *.
  set (c := cos (Math_atan2 (pointerY rect e) (pointerX rect e))) in *.
  set (sn := sin (Math_atan2 (pointerY rect e) (pointerX rect e))) in *.
  unfold Rdiv. split; [| split].
  - rewrite <- Px. ring.
  - rewrite <- Py. ring.
  - unfold SVG_RADIUS. ring.
Qed.

(** X14.  The marker of a board click is drawn where the click was: for a board
    of positive radius [Rpx] the stored hit has the SVG coordinates
    [50 + x * (50 / Rpx)] and [50 + y * (50 / Rpx)] of the pointer offset
    [(x, y)], and [distSvg] is the normalized distance; going to polar
    coordinates and back loses nothing, on every path (bulls and
    sectors). *)
Theorem board_click_marker (s : GameState) (rect : DOMRect) (e : MouseEvent) :
  valid_index s (activePlayerIndex s) ->
  (0 < pixelRadius rect)%R ->
  exists s' h,
    onBoardClick (Some rect) e s = Ok s' /\
    lastHit s' = Some h /\
    svgX h = (50 + pointerX rect e * (50 / pixelRadius rect))%R /\
    svgY h = (50 + pointerY rect e * (50 / pixelRadius rect))%R /\
    distSvg h = normalized (pixelDistance rect e) (pixelRadius rect).
Proof.
  intros V _.
  rewrite (onBoardClick_ring_px s rect e (valid_index_players _ _ V)).
  destruct (at_index_valid _ _ V) as [pl E].
  destruct (ring_px (pixelDistance rect e) (pixelRadius rect));
    rewrite (recordHit_valid _ _ _ _ _ _ E); cbn [bind];
    eexists; eexists; (split; [reflexivity |]);
    (split; [reflexivity |]);
    first [ apply (makeLastHit_marker rect e _ _ _ None None None); now left
          | apply (makeLastHit_marker rect e); now right ].
Qed.

Lemma board_click_marker_witness :
  exists s' h,
    onBoardClick (Some (mkDOMRect 0 0 200 200)) (mkMouseEvent 130 70)
      (mkGameState 501 [mkPlayer "1" "Ann" 501 []] 0 false 2 false ""
         false None BULL 1) = Ok s' /\
    lastHit s' = Some h /\ svgX h = 65%R /\ svgY h = 35%R.
Proof.
  destruct (board_click_marker
              (mkGameState 501 [mkPlayer "1" "Ann" 501 []] 0 false 2 false
                 "" false None BULL 1)
              (mkDOMRect 0 0 200 200) (mkMouseEvent 130 70))
    as [s' [h [Ho [Hl [Hx [Hy _]]]]]].
  - unfold valid_index. simpl. lia.
  - unfold pixelRadius. simpl. lra.
  - exists s', h. split; [exact Ho |]. split; [exact Hl |].
    unfold pointerX, pointerY, pixelRadius in Hx, Hy. simpl in Hx, Hy.
    split; [rewrite Hx | rewrite Hy]; lra.
Defined.

(** ** Drawn wedges and resolved sectors *)

Lemma wedge_sector_index (i k kk : Z) (D a : R) :
  0 <= i < 20 ->
  (0 <= a < 360)%R ->
  (D + 90 + 360 = a + 360 * IZR kk)%R ->
  (IZR i * 18 - 99 <= D + 360 * IZR k)%R ->
  (D + 360 * IZR k < (IZR i + 1) * 18 - 99)%R ->
  sectorIndexOf a = i.
Proof.
  intros Hi Ha Hkk Hlo Hhi.
  assert (0 <= IZR i <= 19)%R as Hi'.
  { split; [apply (IZR_le 0) | apply (IZR_le i 19)]; lia. }
  set (M := k + kk).
  assert (IZR M = IZR k + IZR kk)%R as HM by (unfold M; apply plus_IZR).
  assert (M = 0 \/ M = 1) as [E | E].
  { assert (IZR (-1) < IZR M)%R as H0 by lra.
    assert (IZR M < IZR 2)%R as H2 by lra.
    apply lt_IZR in H0, H2. lia. }
  - (* the wedge that wraps around the top *)
    rewrite E in HM.
    assert (i = 0) as ->.
    { assert (IZR i < IZR 1)%R as H1 by lra. apply lt_IZR in H1. lia. }
    unfold sectorIndexOf, Math_round.
    rewrite (Math_floor_unique (a / 18 + / 2) 20) by lra. reflexivity.
  - rewrite E in HM.
    unfold sectorIndexOf, Math_round.
    rewrite (Math_floor_unique (a / 18 + / 2) i) by lra.
    apply Z.rem_small. lia.
Qed.

(** X16.  The hit areas are the drawn wedges: a click off the bulls whose
    direction from the centre lies in the wedge drawn for index [i] (from
    [startAngle i], included, to [endAngle i], excluded) resolves to sector
    index [i] and to the number [SECTORS[i]] that labels the wedge. *)
Theorem click_in_drawn_wedge (s : GameState) (rect : DOMRect)
    (e : MouseEvent) (i : Z) :
  valid_index s (activePlayerIndex s) ->
  (pixelRadius rect * (OUTER_BULL_R / SVG_RADIUS) < pixelDistance rect e)%R ->
  0 <= i < 20 ->
  inWedge i (Math_atan2 (pointerY rect e) (pointerX rect e)) ->
  exists s1 h,
    onBoardClick (Some rect) e s = Ok (setLastHit (Some h) s1) /\
    sectorIndex h = i /\
    sectorNumber h = nth_error SECTORS (Z.to_nat i).
Proof.
  intros V H Hi [k [Hlo Hhi]].
  destruct (onBoardClick_sector s rect e V H) as [s1 [Ho _]].
  exists s1, (sectorHit rect e). split; [exact Ho |].
  destruct (angleFromTopOf_spec (pointerY rect e) (pointerX rect e))
    as [Ha [kk Hkk]].
  assert (sectorIndex (sectorHit rect e) = i) as E.
  { cbn [sectorHit makeLastHit sectorIndex].
    apply (wedge_sector_index i k kk
             (atanDegOf (pointerY rect e) (pointerX rect e)));
      try assumption.
    - unfold startAngle in Hlo. unfold atanDegOf.
      set (t := Math_atan2 (pointerY rect e) (pointerX rect e)) in *.
      pose proof PI_RGT_0 as HPI.
      assert (0 < / PI)%R as Hinv by now apply Rinv_0_lt_compat.
      assert ((IZR i * 18 - 99) * PI / 180 * (180 * / PI)
              <= (t + 2 * IZR k * PI) * (180 * / PI))%R as Hm
        by (apply Rmult_le_compat_r; [nra | exact Hlo]).
      replace ((IZR i * 18 - 99) * PI / 180 * (180 * / PI))%R
        with (IZR i * 18 - 99)%R in Hm by (field; lra).
      replace ((t + 2 * IZR k * PI) * (180 * / PI))%R
        with (t * 180 / PI + 360 * IZR k)%R in Hm by (field; lra).
      exact Hm.
    - unfold endAngle in Hhi. unfold atanDegOf.
      set (t := Math_atan2 (pointerY rect e) (pointerX rect e)) in *.
      pose proof PI_RGT_0 as HPI.
      assert (0 < / PI)%R as Hinv by now apply Rinv_0_lt_compat.
      assert ((t + 2 * IZR k * PI) * (180 * / PI)
              < ((IZR i + 1) * 18 - 99) * PI / 180 * (180 * / PI))%R as Hm
        by (apply Rmult_lt_compat_r; [nra | exact Hhi]).
      replace (((IZR i + 1) * 18 - 99) * PI / 180 * (180 * / PI))%R
        with ((IZR i + 1) * 18 - 99)%R in Hm by (field; lra).
      replace ((t + 2 * IZR k * PI) * (180 * / PI))%R
        with (t * 180 / PI + 360 * IZR k)%R in Hm by (field; lra).
      exact Hm. }
  split; [exact E |].
  assert (sectorNumber (sectorHit rect e)
          = Some (sectorAt (sectorIndex (sectorHit rect e)))) as ->
    by reflexivity.
  rewrite E. symmetry. apply sectorAt_range. exact Hi.
Qed.

(** A click straight to the left of the centre lies in the wedge of index
    15, labelled 11. *)
Lemma click_in_drawn_wedge_witness :
  exists s1 h,
    onBoardClick (Some (mkDOMRect 0 0 200 200)) (mkMouseEvent 40 100)
      (mkGameState 501 [mkPlayer "1" "Ann" 501 []] 0 false 2 false ""
         false None BULL 1)
    = Ok (setLastHit (Some h) s1) /\
    sectorIndex h = 15 /\ sectorNumber h = Some 11.
Proof.
  set (s := mkGameState 501 [mkPlayer "1" "Ann" 501 []] 0 false 2 false ""
              false None BULL 1).
  set (rect := mkDOMRect 0 0 200 200). set (e := mkMouseEvent 40 100).
  assert (valid_index s (activePlayerIndex s)) as V
    by (unfold valid_index; simpl; lia).
  assert (pointerX rect e = Ropp 60) as X
    by (unfold pointerX; cbn [clientX left width rect e]; lra).
  assert (pointerY rect e = 0%R) as Y
    by (unfold pointerY; cbn [clientY top height rect e]; lra).
  assert (pixelRadius rect = 100%R) as E
    by (unfold pixelRadius; cbn [width rect]; lra).
  assert (pixelDistance rect e = 60%R) as D.
  { unfold pixelDistance, Math_hypot. rewrite X, Y.
    replace (Ropp 60 * Ropp 60 + 0 * 0)%R with (60 * 60)%R by lra.
    apply sqrt_square. lra. }
  assert (Math_atan2 0 (Ropp 60) = PI) as A.
  { unfold Math_atan2.
    destruct (Rlt_dec 0 (Ropp 60)) as [N | _]; [exfalso; lra |].
    destruct (Rlt_dec (Ropp 60) 0) as [_ | N]; [| exfalso; lra].
    destruct (Rle_dec 0 0) as [_ | N]; [| exfalso; lra].
    replace (0 / Ropp 60)%R with 0%R by (field; lra).
    rewrite atan_0. lra. }
  apply (click_in_drawn_wedge s rect e 15 V).
  - rewrite D, E. unfold OUTER_BULL_R, SVG_RADIUS. lra.
  - lia.
  - rewrite X, Y, A. exists 0. unfold startAngle, endAngle.
    pose proof PI_RGT_0. split; lra.
Defined.

(** ** The sector along a ray *)

Lemma Math_atan2_scale (c y x : R) :
  (0 < c)%R -> Math_atan2 (c * y) (c * x) = Math_atan2 y x.
Proof.
  intros Hc. unfold Math_atan2.
  assert (x <> 0%R -> (c * y / (c * x) = y / x)%R) as Hdiv
    by (intros; field; split; lra).
  repeat match goal with
         | |- context [Rlt_dec ?a ?b] => destruct (Rlt_dec a b)
         | |- context [Rle_dec ?a ?b] => destruct (Rle_dec a b)
         end;
    try (exfalso; nra); try rewrite Hdiv by lra; reflexivity.
Qed.

(** X17.  The sector depends on the direction only: two clicks off the bulls on
    the same ray from the centre (the offset of one is a positive multiple
    of the offset of the other) resolve to the same sector index and the
    same sector number, however far out they are. *)
Theorem sector_same_along_ray (s : GameState) (rect : DOMRect)
    (e1 e2 : MouseEvent) (c : R) :
  valid_index s (activePlayerIndex s) ->
  (0 < c)%R ->
  pointerX rect e2 = (c * pointerX rect e1)%R ->
  pointerY rect e2 = (c * pointerY rect e1)%R ->
  (pixelRadius rect * (OUTER_BULL_R / SVG_RADIUS) < pixelDistance rect e1)%R ->
  (pixelRadius rect * (OUTER_BULL_R / SVG_RADIUS) < pixelDistance rect e2)%R ->
  exists s1 h1 s2 h2,
    onBoardClick (Some rect) e1 s = Ok (setLastHit (Some h1) s1) /\
    onBoardClick (Some rect) e2 s = Ok (setLastHit (Some h2) s2) /\
    sectorIndex h1 = sectorIndex h2 /\
    sectorNumber h1 = sectorNumber h2.
Proof.
  intros V Hc Hx Hy H1 H2.
  destruct (onBoardClick_sector s rect e1 V H1) as [s1 [Ho1 _]].
  destruct (onBoardClick_sector s rect e2 V H2) as [s2 [Ho2 _]].
  exists s1, (sectorHit rect e1), s2, (sectorHit rect e2).
  split; [exact Ho1 |]. split; [exact Ho2 |].
  cbn [sectorHit makeLastHit sectorIndex sectorNumber].
  unfold atanDegOf. rewrite Hx, Hy, (Math_atan2_scale c _ _ Hc).
  split; reflexivity.
Qed.

Lemma sector_same_along_ray_witness :
  exists s1 h1 s2 h2,
    onBoardClick (Some (mkDOMRect 0 0 200 200)) (mkMouseEvent 100 50)
      (mkGameState 501 [mkPlayer "1" "Ann" 501 []] 0 false 2 false ""
         false None BULL 1) = Ok (setLastHit (Some h1) s1) /\
    onBoardClick (Some (mkDOMRect 0 0 200 200)) (mkMouseEvent 100 0)
      (mkGameState 501 [mkPlayer "1" "Ann" 501 []] 0 false 2 false ""
         false None BULL 1) = Ok (setLastHit (Some h2) s2) /\
    sectorIndex h1 = sectorIndex h2 /\
    sectorNumber h1 = sectorNumber h2.
Proof.
  set (rect := mkDOMRect 0 0 200 200).
  assert (forall yy : R, (0 < yy)%R ->
            pixelDistance rect (mkMouseEvent 100 (100 - yy)) = yy) as D.
  { intros yy Hy. unfold pixelDistance, pointerX, pointerY, Math_hypot.
    cbn [clientX clientY left top width height rect].
    replace ((100 - (0 + 200 / 2)) * (100 - (0 + 200 / 2)) +
             (100 - yy - (0 + 200 / 2)) * (100 - yy - (0 + 200 / 2)))%R
      with (yy * yy)%R by lra.
    apply sqrt_square. lra. }
  replace 50%R with (100 - 50)%R by lra.
  replace (mkMouseEvent 100 0) with (mkMouseEvent 100 (100 - 100))
    by (f_equal; lra).
  apply (sector_same_along_ray _ rect _ _ 2).
  - unfold valid_index. simpl. lia.
  - lra.
  - unfold pointerX. simpl. lra.
  - unfold pointerY. simpl. lra.
  - rewrite D by lra. unfold pixelRadius, OUTER_BULL_R, SVG_RADIUS. simpl. lra.
  - rewrite D by lra. unfold pixelRadius, OUTER_BULL_R, SVG_RADIUS. simpl. lra.
Defined.

(** ** The stored angles *)

Lemma floor_ge_int (x : R) (z : Z) : (IZR z <= x)%R -> z <= Math_floor x.
Proof.
  intros H. pose proof (Math_floor_spec x) as [_ H2].
  assert (IZR (z - 1) < IZR (Math_floor x))%R as L
    by (rewrite minus_IZR; lra).
  apply lt_IZR in L. lia.
Qed.

Lemma floor_le_int (x : R) (z : Z) : (x < IZR z + 1)%R -> Math_floor x <= z.
Proof.
  intros H. pose proof (Math_floor_spec x) as [H1 _].
  assert (IZR (Math_floor x) < IZR (z + 1))%R as L
    by (rewrite plus_IZR; lra).
  apply lt_IZR in L. lia.
Qed.

Lemma toFixed2_close (r : R) : (Rabs (toFixed2 r - r) <= / 200)%R.
Proof.
  unfold toFixed2. apply Rabs_le.
  destruct (Rlt_dec r 0).
  - pose proof (Math_floor_spec (- r * 100 + / 2)) as [H1 H2]. lra.
  - pose proof (Math_floor_spec (r * 100 + / 2)) as [H1 H2]. lra.
Qed.

(** Rounding to two decimals does not cross an integer bound. *)
Lemma toFixed2_bounds (lo hi : Z) (r : R) :
  (IZR lo <= r <= IZR hi)%R -> (IZR lo <= toFixed2 r <= IZR hi)%R.
Proof.
  intros [Hlo Hhi]. unfold toFixed2.
  destruct (Rlt_dec r 0).
  - assert (- hi * 100 <= Math_floor (- r * 100 + / 2)) as A.
    { apply floor_ge_int. rewrite mult_IZR, opp_IZR. lra. }
    assert (Math_floor (- r * 100 + / 2) <= - lo * 100) as B.
    { apply floor_le_int. rewrite mult_IZR, opp_IZR. lra. }
    apply IZR_le in A, B. rewrite mult_IZR, opp_IZR in A, B. lra.
  - assert (lo * 100 <= Math_floor (r * 100 + / 2)) as A.
    { apply floor_ge_int. rewrite mult_IZR. lra. }
    assert (Math_floor (r * 100 + / 2) <= hi * 100) as B.
    { apply floor_le_int. rewrite mult_IZR. lra. }
    apply IZR_le in A, B. rewrite mult_IZR in A, B. lra.
Qed.

Lemma makeLastHit_angles (d y x : R) (l : JsLabel) (m r : Z)
    (oa ob : option R) (oi : option Z) :
  (oa = None \/ oa = Some (atanDegOf y x)) ->
  (ob = None \/ ob = Some (angleFromTopOf (atanDegOf y x))) ->
  (oi = None \/
   oi = Some (sectorIndexOf (angleFromTopOf (atanDegOf y x)))) ->
  let h := makeLastHit d x y l m r oa ob oi in
  (Rabs (atanDeg h - atanDegOf y x) <= / 200)%R /\
  (-180 <= atanDeg h <= 180)%R /\
  (Rabs (angleFromTop h - angleFromTopOf (atanDegOf y x)) <= / 200)%R /\
  (0 <= angleFromTop h <= 360)%R /\
  sectorIndex h = sectorIndexOf (angleFromTopOf (atanDegOf y x)) /\
  0 <= sectorIndex h < 20.
Proof.
  intros Ha Hb Hi h.
  assert (atanDeg h = toFixed2 (atanDegOf y x)) as ->
    by (unfold h; cbn [makeLastHit atanDeg];
        destruct Ha as [-> | ->]; reflexivity).
  assert (angleFromTop h = toFixed2 (angleFromTopOf (atanDegOf y x))) as ->
    by (unfold h; cbn [makeLastHit angleFromTop];
        destruct Ha as [-> | ->], Hb as [-> | ->]; reflexivity).
  assert (sectorIndex h = sectorIndexOf (angleFromTopOf (atanDegOf y x)))
    as ->
    by (unfold h; cbn [makeLastHit sectorIndex];
        destruct Ha as [-> | ->], Hb as [-> | ->], Hi as [-> | ->];
        reflexivity).
  pose proof (atanDegOf_range y x) as HD.
  destruct (angleFromTopOf_spec y x) as [HA _].
  split; [apply toFixed2_close |].
  split; [apply (toFixed2_bounds (-180) 180); lra |].
  split; [apply toFixed2_close |].
  split; [apply (toFixed2_bounds 0 360); lra |].
  split; [reflexivity |]. apply sectorIndexOf_range. exact HA.
Qed.

(** X15.  On every path of a board click (bulls included) the stored angles are
    the exact angles rounded to two decimals: [atanDeg] is within 0.005 of
    the screen angle and in -180..180, [angleFromTop] is within 0.005 of
    the angle from the top and in 0..360 (360.00 is possible, by rounding
    up); the sector index is computed from the unrounded angle and is in
    0..19. *)
Theorem board_click_angles (s : GameState) (rect : DOMRect) (e : MouseEvent) :
  valid_index s (activePlayerIndex s) ->
  exists s' h,
    onBoardClick (Some rect) e s = Ok s' /\
    lastHit s' = Some h /\
    (Rabs (atanDeg h - atanDegOf (pointerY rect e) (pointerX rect e))
     <= / 200)%R /\
    (-180 <= atanDeg h <= 180)%R /\
    (Rabs (angleFromTop h -
           angleFromTopOf (atanDegOf (pointerY rect e) (pointerX rect e)))
     <= / 200)%R /\
    (0 <= angleFromTop h <= 360)%R /\
    sectorIndex h =
      sectorIndexOf
        (angleFromTopOf (atanDegOf (pointerY rect e) (pointerX rect e))) /\
    0 <= sectorIndex h < 20.
Proof.
  intros V.
  rewrite (onBoardClick_ring_px s rect e (valid_index_players _ _ V)).
  destruct (at_index_valid _ _ V) as [pl E].
  destruct (ring_px (pixelDistance rect e) (pixelRadius rect));
    rewrite (recordHit_valid _ _ _ _ _ _ E); cbn [bind];
    eexists; eexists; (split; [reflexivity |]);
    (split; [reflexivity |]);
    first [ apply (makeLastHit_angles _ _ _ _ _ _ None None None); now left
          | apply makeLastHit_angles; now right ].
Qed.

Lemma board_click_angles_witness :
  exists s' h,
    onBoardClick (Some (mkDOMRect 5 5 320 320)) (mkMouseEvent 17 301)
      (mkGameState 501 [mkPlayer "1" "Ann" 501 []] 0 false 2 false ""
         false None BULL 1) = Ok s' /\
    lastHit s' = Some h /\
    (0 <= angleFromTop h <= 360)%R /\
    0 <= sectorIndex h < 20.
Proof.
  destruct (board_click_angles
              (mkGameState 501 [mkPlayer "1" "Ann" 501 []] 0 false 2 false
                 "" false None BULL 1)
              (mkDOMRect 5 5 320 320) (mkMouseEvent 17 301))
    as [s' [h [Ho [Hl [_ [_ [_ [Ha [_ Hi]]]]]]]]];
    [unfold valid_index; simpl; lia |].
  exists s', h. split; [exact Ho |]. split; [exact Hl |].
  split; [exact Ha | exact Hi].
Defined.

(** * Further compositions *)

(** ** Any number of turns *)

(** X8.  With at least one player and the active index in range, [k] calls of
    [nextTurn] move the turn [k] places round the table: the active index
    becomes [(activePlayerIndex + k) mod playerCount], and nothing else
    changes. *)
Theorem nextTurn_k_times (k : nat) (s : GameState) :
  valid_index s (activePlayerIndex s) ->
  exists s',
    run (repeat NextTurn k) s = Ok s' /\
    activePlayerIndex s' =
      (activePlayerIndex s + Z.of_nat k) mod Z.of_nat (List.length (players s)) /\
    valid_index s' (activePlayerIndex s') /\
    setActivePlayerIndex (fun _ => 0) s' = setActivePlayerIndex (fun _ => 0) s.
Proof.
  intros V. pose proof V as [Hlo Hhi].
  rewrite run_nextTurn by (try exact V; lia).
  eexists. split; [reflexivity |]. simpl. split; [reflexivity |].
  split; [| reflexivity].
  unfold valid_index. simpl. apply Z.mod_pos_bound. lia.
Qed.

Lemma nextTurn_k_times_witness :
  exists s,
    run [AddPlayer "Ann"; AddPlayer "Bob"; AddPlayer "Cid"; NextTurn]
      initialState = Ok s /\
    exists s',
      run (repeat NextTurn 7) s = Ok s' /\ activePlayerIndex s' = 2.
Proof.
  eexists. split; [vm_compute; reflexivity |].
  match goal with
  | |- exists s', run _ ?s = _ /\ _ =>
      assert (valid_index s (activePlayerIndex s)) as V
        by (unfold valid_index; simpl; lia);
      destruct (nextTurn_k_times 7 s V) as [s' [R [A _]]]
  end.
  exists s'. split; [exact R |]. rewrite A. reflexivity.
Defined.

(** ** What a manual hit does to the state *)

(** X11.  With a valid active player a manual hit is a throw of the selected
    value: 50 for the bull, 25 for the outer bull, sector times multiplier
    otherwise; it is taken from the active player and stored like a board
    hit, and the multiplier selection is ignored for the bulls. *)
Theorem manual_hit_effect (s : GameState) :
  valid_index s (activePlayerIndex s) ->
  exists s' h,
    applyManualHit s = Ok s' /\
    records_hit s s' h /\
    rawScore h = match manualSector s with
                 | BULL => 50
                 | OB => 25
                 | Sector n => n * manualMult s
                 end /\
    mult h = match manualSector s with
             | Sector _ => manualMult s
             | _ => 1
             end.
Proof.
  intros V. unfold applyManualHit.
  pose proof (valid_index_players _ _ V) as P.
  destruct (players s) as [| p0 ps] eqn:Hp; [contradiction |].
  rewrite <- Hp in *.
  destruct (manualSector s);
    match goal with
    | |- exists s' h, bind (recordHit _ ?l ?m ?r s)
                           (fun s1 => Ok (setLastHit (Some ?h0) s1)) = _ /\ _ =>
        destruct (hit_records s l m r h0 V eq_refl) as [s' [Ho Hrec]];
        exists s', h0; split; [exact Ho |]; split; [exact Hrec |];
        split; reflexivity
    end.
Qed.

Lemma manual_hit_effect_witness :
  exists s' h,
    applyManualHit
      (mkGameState 501 [mkPlayer "1" "Ann" 501 []; mkPlayer "2" "Bob" 77 []]
         1 false 3 false "" false None (Sector 19) 3) = Ok s' /\
    lastHit s' = Some h /\ rawScore h = 57 /\ activePlayerIndex s' = 1.
Proof.
  destruct (manual_hit_effect
              (mkGameState 501
                 [mkPlayer "1" "Ann" 501 []; mkPlayer "2" "Bob" 77 []]
                 1 false 3 false "" false None (Sector 19) 3))
    as [s' [h [Ho [[Hl [Ha _]] [Hr _]]]]];
    [unfold valid_index; simpl; lia |].
  exists s', h. split; [exact Ho |]. split; [exact Hl |].
  split; [exact Hr | exact Ha].
Defined.

(** * Doubles that are integers

    Binary64 addition and subtraction are exact on the integers below 2^53
    in magnitude, from the specification of the primitive floats. *)

Lemma iter_pos_nat {A : Type} (f : A -> A) (p : positive) :
  forall x, SpecFloat.iter_pos f p x = Nat.iter (Pos.to_nat p) f x.
Proof.
  induction p as [p IH | p IH |]; intros x; cbn [SpecFloat.iter_pos].
  - rewrite !IH, Pos2Nat.inj_xI.
    replace (S (2 * Pos.to_nat p)) with (S (Pos.to_nat p + Pos.to_nat p))
      by lia.
    rewrite Nat.iter_succ_r, Nat.iter_add. reflexivity.
  - rewrite !IH, Pos2Nat.inj_xO.
    replace (2 * Pos.to_nat p)%nat with (Pos.to_nat p + Pos.to_nat p)%nat
      by lia.
    rewrite Nat.iter_add. reflexivity.
  - reflexivity.
Qed.

Lemma Pos_iter_nat {A : Type} (f : A -> A) (p : positive) (x : A) :
  Pos.iter f x p = Nat.iter (Pos.to_nat p) f x.
Proof. apply Pos2Nat.inj_iter. Qed.

Lemma shlN_add (m : positive) (a b : nat) :
  shlN (shlN m a) b = shlN m (a + b).
Proof. unfold shlN. rewrite Nat.add_comm. symmetry. apply Nat.iter_add. Qed.

Lemma shlN_Z (m : positive) (n : nat) :
  Zpos (shlN m n) = Zpos m * 2 ^ Z.of_nat n.
Proof.
  induction n as [| n IH].
  - simpl. lia.
  - unfold shlN in *. simpl Nat.iter. rewrite (Pos2Z.inj_xO (Nat.iter n xO m)), IH.
    rewrite Nat2Z.inj_succ, Z.pow_succ_r by lia. ring.
Qed.

Lemma digits_shlN (m : positive) (n : nat) :
  Zpos (digits2_pos (shlN m n)) = Zpos (digits2_pos m) + Z.of_nat n.
Proof.
  induction n as [| n IH].
  - simpl. lia.
  - unfold shlN in *. simpl Nat.iter. simpl digits2_pos.
    rewrite Pos2Z.inj_succ, IH. lia.
Qed.

Lemma digits_bounds (m : positive) :
  2 ^ (Zpos (digits2_pos m) - 1) <= Zpos m < 2 ^ Zpos (digits2_pos m).
Proof.
  induction m as [m IH | m IH |]; cbn [digits2_pos].
  - rewrite Pos2Z.inj_succ, (Pos2Z.inj_xI m).
    replace (Z.succ (Zpos (digits2_pos m)) - 1)
      with (Z.succ (Zpos (digits2_pos m) - 1)) by lia.
    rewrite !Z.pow_succ_r by lia.
    generalize dependent (2 ^ (Zpos (digits2_pos m) - 1)).
    generalize (2 ^ Zpos (digits2_pos m)). intros; lia.
  - rewrite Pos2Z.inj_succ, (Pos2Z.inj_xO m).
    replace (Z.succ (Zpos (digits2_pos m)) - 1)
      with (Z.succ (Zpos (digits2_pos m) - 1)) by lia.
    rewrite !Z.pow_succ_r by lia.
    generalize dependent (2 ^ (Zpos (digits2_pos m) - 1)).
    generalize (2 ^ Zpos (digits2_pos m)). intros; lia.
  - simpl. lia.
Qed.

Lemma digits_safe (m : positive) :
  Zpos m < 2 ^ 53 -> Zpos (digits2_pos m) <= 53.
Proof.
  intros H. pose proof (digits_bounds m) as [Hlo _].
  destruct (Z_le_gt_dec (Zpos (digits2_pos m)) 53) as [L | G]; [exact L |].
  exfalso.
  assert (2 ^ 53 <= 2 ^ (Zpos (digits2_pos m) - 1))
    by (apply Z.pow_le_mono_r; lia).
  lia.
Qed.

Lemma shr_iter (n : nat) :
  forall q,
    Nat.iter n (shr_1) (Build_shr_record (Zpos (shlN q n)) false false)
    = Build_shr_record (Zpos q) false false.
Proof.
  induction n as [| n IH]; intros q.
  - reflexivity.
  - rewrite Nat.iter_succ_r. unfold shlN. simpl Nat.iter at 2.
    change (shr_1 {| shr_m := Zpos (Nat.iter n xO q)~0; shr_r := false; shr_s := false |})
      with (Build_shr_record (Zpos (Nat.iter n xO q)) false false).
    apply IH.
Qed.

Lemma fexp_canon (d : Z) : 1 <= d -> SpecFloat.fexp prec emax d = d - 53.
Proof. intros H. unfold SpecFloat.fexp, SpecFloat.emin, prec, emax. lia. Qed.

Lemma round_aux_canon (s : bool) (M : positive) (n : nat) (e : Z) :
  Zpos (digits2_pos M) = 53 ->
  -1074 <= e + Z.of_nat n <= 971 ->
  binary_round_aux prec emax s (Zpos (shlN M n)) e loc_Exact
  = S754_finite s M (e + Z.of_nat n).
Proof.
  intros HD He. unfold binary_round_aux.
  assert (shr_fexp prec emax (Zpos (shlN M n)) e loc_Exact
          = (Build_shr_record (Zpos M) false false, e + Z.of_nat n)) as ->.
  { unfold shr_fexp. simpl Zdigits2. rewrite digits_shlN, HD.
    unfold SpecFloat.fexp, SpecFloat.emin, prec, emax.
    replace (Z.max (53 + Z.of_nat n + e - 53) (3 - 1024 - 53) - e)
      with (Z.of_nat n) by lia.
    destruct n as [| n].
    - simpl. f_equal; lia.
    - cbn [Z.of_nat shr shr_record_of_loc].
      rewrite iter_pos_nat, SuccNat2Pos.id_succ, shr_iter. f_equal; lia. }
  simpl loc_of_shr_record. simpl round_nearest_even. simpl shr_m.
  assert (shr_fexp prec emax (Zpos M) (e + Z.of_nat n) loc_Exact
          = (Build_shr_record (Zpos M) false false, e + Z.of_nat n)) as ->.
  { unfold shr_fexp. simpl Zdigits2. rewrite HD.
    unfold SpecFloat.fexp, SpecFloat.emin, prec, emax.
    replace (Z.max (53 + (e + Z.of_nat n) - 53) (3 - 1024 - 53) - (e + Z.of_nat n))
      with 0 by lia.
    reflexivity. }
  simpl shr_m. unfold prec, emax.
  destruct (Z.leb_spec (e + Z.of_nat n) (1024 - 53)); [reflexivity | lia].
Qed.

Lemma round_canon (s : bool) (m : positive) (k : nat) :
  Zpos (digits2_pos m) <= 53 ->
  binary_round prec emax s (shlN m k) (- Z.of_nat k)
  = S754_finite s (shlN m (Z.to_nat (53 - Zpos (digits2_pos m))))
      (Zpos (digits2_pos m) - 53).
Proof.
  intros HD. set (d := Zpos (digits2_pos m)) in *.
  assert (1 <= d) as Hd1 by (unfold d; lia).
  set (j := Z.to_nat (53 - d)).
  assert (Z.of_nat j = 53 - d) as Hj by (unfold j; lia).
  assert (Zpos (digits2_pos (shlN m j)) = 53) as HM
    by (rewrite digits_shlN; fold d; lia).
  unfold binary_round. rewrite digits_shlN. fold d.
  replace (d + Z.of_nat k + - Z.of_nat k) with d by lia.
  rewrite fexp_canon by exact Hd1.
  unfold shl_align.
  destruct (d - 53 - - Z.of_nat k) as [| p | p] eqn:E.
  - assert (k = j) as -> by lia.
    rewrite (round_aux_canon s (shlN m j) 0) by (try exact HM; lia).
    f_equal; lia.
  - assert (k = (j + Pos.to_nat p)%nat) as -> by lia.
    rewrite <- shlN_add.
    rewrite (round_aux_canon s (shlN m j) (Pos.to_nat p)) by (try exact HM; lia).
    f_equal; lia.
  - rewrite Pos_iter_nat. fold (shlN (shlN m k) (Pos.to_nat p)).
    rewrite shlN_add.
    assert ((k + Pos.to_nat p)%nat = j) as -> by lia.
    rewrite (round_aux_canon s (shlN m j) 0) by (try exact HM; lia).
    f_equal; lia.
Qed.

Lemma normalize_canon (z : Z) : safe z -> binary_normalize prec emax z 0 false = canon z.
Proof.
  unfold safe, binary_normalize, canon. intros H.
  destruct z as [| m | m]; [reflexivity | |].
  - apply (round_canon false m 0). apply digits_safe. lia.
  - apply (round_canon true m 0). apply digits_safe. lia.
Qed.

Lemma canon_valid (z : Z) : safe z -> valid_binary (canon z) = true.
Proof.
  unfold safe. intros H.
  destruct z as [| m | m]; [reflexivity | |];
    (assert (Zpos (digits2_pos m) <= 53) as HD by (apply digits_safe; lia);
     cbn [canon SpecFloat.valid_binary]; unfold SpecFloat.bounded, SpecFloat.canonical_mantissa;
     rewrite digits_shlN;
     unfold SpecFloat.fexp, SpecFloat.emin, prec, emax;
     apply andb_true_intro; split;
     [apply Z.eqb_eq | apply Z.leb_le]; lia).
Qed.

Lemma Prim2SF_double_of_Z (z : Z) : safe z -> Prim2SF (double_of_Z z) = canon z.
Proof.
  intros H. unfold double_of_Z. rewrite (normalize_canon z H).
  apply Prim2SF_SF2Prim. now apply canon_valid.
Qed.

Lemma shl_align_fst (m : positive) (j K : nat) :
  (j <= K)%nat ->
  fst (shl_align (shlN m j) (- Z.of_nat j) (- Z.of_nat K)) = shlN m K.
Proof.
  intros H. unfold shl_align.
  destruct (- Z.of_nat K - - Z.of_nat j) as [| p | p] eqn:E.
  - simpl. f_equal; lia.
  - lia.
  - cbn [fst]. rewrite Pos_iter_nat. fold (shlN (shlN m j) (Pos.to_nat p)).
    rewrite shlN_add. f_equal; lia.
Qed.

Lemma canon_finite (z : Z) :
  z <> 0 ->
  exists s m,
    canon z =
      S754_finite s (shlN m (Z.to_nat (53 - Zpos (digits2_pos m))))
        (Zpos (digits2_pos m) - 53) /\
    z = cond_Zopp s (Zpos m).
Proof.
  intros H. destruct z as [| m | m]; [contradiction | |].
  - exists false, m. split; reflexivity.
  - exists true, m. split; reflexivity.
Qed.

Lemma normalize_shifted (v : Z) (K : nat) :
  safe v ->
  binary_normalize prec emax (v * 2 ^ Z.of_nat K) (- Z.of_nat K) false
  = canon v.
Proof.
  intros H. unfold safe in H.
  assert (0 < 2 ^ Z.of_nat K) as HP by (apply Z.pow_pos_nonneg; lia).
  destruct v as [| q | q].
  - reflexivity.
  - assert (Zpos q * 2 ^ Z.of_nat K = Zpos (shlN q K)) as ->
      by (symmetry; apply shlN_Z).
    cbn [binary_normalize canon]. apply round_canon. apply digits_safe. lia.
  - assert (Zneg q * 2 ^ Z.of_nat K = Zneg (shlN q K)) as ->.
    { change (Zneg q) with (- Zpos q). change (Zneg (shlN q K)) with (- Zpos (shlN q K)).
      rewrite shlN_Z. ring. }
    cbn [binary_normalize canon]. apply round_canon. apply digits_safe. lia.
Qed.

Lemma SFadd_canon (a b : Z) :
  safe a -> safe b -> safe (a + b) ->
  SFadd prec emax (canon a) (canon b) = canon (a + b).
Proof.
  intros Ha Hb Hab.
  destruct (Z.eq_dec a 0) as [-> | Na].
  { destruct b; reflexivity. }
  destruct (Z.eq_dec b 0) as [-> | Nb].
  { rewrite Z.add_0_r. destruct a; reflexivity. }
  destruct (canon_finite a Na) as [sa [ma [Ea Va]]].
  destruct (canon_finite b Nb) as [sb [mb [Eb Vb]]].
  rewrite Ea, Eb. cbn [SFadd].
  assert (Zpos (digits2_pos ma) <= 53) as Da.
  { apply digits_safe. unfold safe in Ha. destruct sa; unfold cond_Zopp in Va; lia. }
  assert (Zpos (digits2_pos mb) <= 53) as Db.
  { apply digits_safe. unfold safe in Hb. destruct sb; unfold cond_Zopp in Vb; lia. }
  set (ja := Z.to_nat (53 - Zpos (digits2_pos ma))).
  set (jb := Z.to_nat (53 - Zpos (digits2_pos mb))).
  replace (Zpos (digits2_pos ma) - 53) with (- Z.of_nat ja) by (unfold ja; lia).
  replace (Zpos (digits2_pos mb) - 53) with (- Z.of_nat jb) by (unfold jb; lia).
  set (K := Nat.max ja jb).
  replace (Z.min (- Z.of_nat ja) (- Z.of_nat jb)) with (- Z.of_nat K)
    by (unfold K; lia).
  rewrite !shl_align_fst by (unfold K; lia).
  replace (cond_Zopp sa (Zpos (shlN ma K)) + cond_Zopp sb (Zpos (shlN mb K)))
    with ((a + b) * 2 ^ Z.of_nat K).
  2:{ rewrite !shlN_Z, Va, Vb. destruct sa, sb; unfold cond_Zopp; ring. }
  now apply normalize_shifted.
Qed.

Lemma SFopp_canon (r : Z) : r <> 0 -> SFopp (canon r) = canon (- r).
Proof. intros H. destruct r; [contradiction | reflexivity | reflexivity]. Qed.

Lemma SFsub_opp (x y : spec_float) :
  SFsub prec emax x (SFopp y) = SFadd prec emax x y.
Proof.
  destruct x as [sx | sx | | sx mx ex], y as [sy | sy | | sy my ey];
    try reflexivity;
    try (destruct sx, sy; reflexivity);
    try (destruct sy; reflexivity).
Qed.

(** The primitive operations on integers in the safe range. *)
Lemma add_double_of_Z (a b : Z) :
  safe a -> safe b -> safe (a + b) ->
  PrimFloat.add (double_of_Z a) (double_of_Z b) = double_of_Z (a + b).
Proof.
  intros Ha Hb Hab. apply Prim2SF_inj.
  rewrite add_spec, !Prim2SF_double_of_Z by assumption.
  now apply SFadd_canon.
Qed.

Lemma opp_double_of_Z (r : Z) :
  safe r -> r <> 0 -> PrimFloat.opp (double_of_Z r) = double_of_Z (- r).
Proof.
  intros Hr N. apply Prim2SF_inj.
  rewrite opp_spec, !Prim2SF_double_of_Z by (unfold safe in *; lia).
  now apply SFopp_canon.
Qed.

Lemma sub_opp (x y : float) :
  PrimFloat.sub x (PrimFloat.opp y) = PrimFloat.add x y.
Proof.
  apply Prim2SF_inj. rewrite sub_spec, opp_spec, add_spec. apply SFsub_opp.
Qed.

Lemma add_opp_double_of_Z (a r : Z) :
  safe a -> safe r -> safe (a - r) ->
  PrimFloat.add (double_of_Z a) (PrimFloat.opp (double_of_Z r)) = double_of_Z (a - r).
Proof.
  intros Ha Hr Har. destruct (Z.eq_dec r 0) as [-> | N].
  - rewrite Z.sub_0_r. apply Prim2SF_inj.
    rewrite add_spec, opp_spec, !Prim2SF_double_of_Z by assumption.
    destruct a; reflexivity.
  - rewrite opp_double_of_Z by assumption.
    apply add_double_of_Z; try assumption. unfold safe in *. lia.
Qed.


(** The score arithmetic of [recordHit] and [undoLast] on safe integers. *)
Lemma add_opp_double_of_Z_undo (a r : Z) :
  safe a -> safe r -> safe (a - r) ->
  PrimFloat.sub (PrimFloat.add (double_of_Z a) (PrimFloat.opp (double_of_Z r)))
    (PrimFloat.opp (double_of_Z r)) = double_of_Z a.
Proof.
  intros Ha Hr Har. rewrite add_opp_double_of_Z by assumption.
  rewrite sub_opp, add_double_of_Z by (try assumption; unfold safe in *; lia).
  f_equal. lia.
Qed.

Lemma safeb_safe (z : Z) : safeb z = true <-> safe z.
Proof.
  unfold safeb, safe. rewrite andb_true_iff, !Z.ltb_lt. tauto.
Qed.

(** * The score handlers in double precision *)

Lemma double_state_eta (s : Double.GameState) :
  {| Double.startingScore := Double.startingScore s;
     Double.players := Double.players s;
     Double.activePlayerIndex := Double.activePlayerIndex s;
     Double.isRunning := Double.isRunning s;
     Double.nextId := Double.nextId s;
     Double.showAddPlayer := Double.showAddPlayer s;
     Double.newPlayerName := Double.newPlayerName s;
     Double.showDebug := Double.showDebug s;
     Double.lastHit := Double.lastHit s;
     Double.manualSector := Double.manualSector s;
     Double.manualMult := Double.manualMult s |} = s.
Proof. now destruct s. Qed.

Lemma double_recordHit_valid (s : Double.GameState) (i : Z) (label : JsLabel)
    (m : Z) (r : float) (pl : Double.Player) :
  at_index (Double.players s) i = Some pl ->
  Double.recordHit i label m r s =
  Ok {| Double.startingScore := Double.startingScore s;
        Double.players :=
          assign (Double.players s) i
            {| Double.id := Double.id pl; Double.name := Double.name pl;
               Double.score :=
                 PrimFloat.add (Double.score pl) (PrimFloat.opp r);
               Double.history :=
                 {| Double.desc :=
                      match label with
                      | LNum n => (String_of m ++ "×" ++ String_of n)%string
                      | LStr l => l
                      end;
                    Double.delta := PrimFloat.opp r |}
                 :: Double.history pl |};
        Double.activePlayerIndex := Double.activePlayerIndex s;
        Double.isRunning := Double.isRunning s;
        Double.nextId := Double.nextId s;
        Double.showAddPlayer := Double.showAddPlayer s;
        Double.newPlayerName := Double.newPlayerName s;
        Double.showDebug := Double.showDebug s;
        Double.lastHit := Double.lastHit s;
        Double.manualSector := Double.manualSector s;
        Double.manualMult := Double.manualMult s |}.
Proof.
  intros H. unfold Double.recordHit, Double.setPlayers. simpl.
  rewrite H. reflexivity.
Qed.

(** [undoLast] after [recordHit] gives back everything but, possibly, the
    score: that one went through [(score + -raw) - -raw]. *)
Lemma double_record_undo (s : Double.GameState) (i : Z) (label : JsLabel)
    (m : Z) (r : float) (pl : Double.Player) :
  at_index (Double.players s) i = Some pl ->
  exists s1,
    Double.recordHit i label m r s = Ok s1 /\
    Double.undoLast i s1 =
    Ok (Double.with_score s i pl
          (PrimFloat.sub (PrimFloat.add (Double.score pl) (PrimFloat.opp r))
             (PrimFloat.opp r))).
Proof.
  intros E. pose proof (at_index_Some_valid _ _ _ E) as V.
  eexists. split; [apply (double_recordHit_valid _ _ _ _ _ _ E) |].
  unfold Double.undoLast, Double.setPlayers. simpl.
  rewrite (at_index_assign_same _ _ _ V). simpl.
  rewrite assign_twice. reflexivity.
Qed.

Lemma with_score_same (s : Double.GameState) (i : Z) (pl : Double.Player)
    (x : float) :
  at_index (Double.players s) i = Some pl ->
  (Double.with_score s i pl x = s <-> x = Double.score pl).
Proof.
  intros E. pose proof (at_index_Some_valid _ _ _ E) as V. split.
  - intros H. apply (f_equal Double.players) in H. simpl in H.
    apply (f_equal (fun l => at_index l i)) in H.
    rewrite (at_index_assign_same _ _ _ V), E in H.
    injection H as H. rewrite <- H. reflexivity.
  - intros ->. unfold Double.with_score.
    replace {| Double.id := Double.id pl; Double.name := Double.name pl;
               Double.score := Double.score pl;
               Double.history := Double.history pl |} with pl
      by now destruct pl.
    rewrite (assign_self _ _ _ E). apply double_state_eta.
Qed.

(** ** C2: undo inverts record *)

(** C2, as stated, fails: the scores are doubles, and with the score 1.1
    (the double [0x1.199999999999ap+0]) a hit of 60 followed by [undoLast]
    leaves 1.1000000000000014 (the double [0x1.19999999999ap+0]). *)
Lemma undo_after_record_rounds :
  exists s0 s1 s2,
    Double.run [Double.SetStartingScore 0x1.199999999999ap+0%float;
                Double.AddPlayer "Ann"] Double.initialState = Ok s0 /\
    Double.recordHit 0 (LNum 20) 3 60%float s0 = Ok s1 /\
    Double.undoLast 0 s1 = Ok s2 /\
    Double.players s0 =
      [Double.mkPlayer "1" "Ann" 0x1.199999999999ap+0%float []] /\
    Double.players s2 =
      [Double.mkPlayer "1" "Ann" 0x1.19999999999ap+0%float []] /\
    s2 <> s0.
Proof.
  eexists. eexists. eexists. split; [vm_compute; reflexivity |].
  split; [vm_compute; reflexivity |].
  split; [vm_compute; reflexivity |].
  split; [reflexivity |]. split; [reflexivity |].
  intros H.
  apply (f_equal
           (fun st => match Double.players st with
                      | p :: _ =>
                          PrimFloat.eqb (Double.score p)
                            0x1.199999999999ap+0%float
                      | [] => true
                      end)) in H.
  vm_compute in H. discriminate.
Qed.

(** The same on integers that are too large: from 2^53 + 2 a hit of 1 and
    [undoLast] leave 2^53. *)
Lemma undo_after_record_rounds_large :
  exists s0 s1 s2,
    Double.run [Double.SetStartingScore 9007199254740994%float;
                Double.AddPlayer "Ann"] Double.initialState = Ok s0 /\
    Double.recordHit 0 (LNum 1) 1 1%float s0 = Ok s1 /\
    Double.undoLast 0 s1 = Ok s2 /\
    map Double.score (Double.players s0) = [9007199254740994%float] /\
    map Double.score (Double.players s2) = [9007199254740992%float] /\
    PrimFloat.eqb 9007199254740992%float 9007199254740994%float = false.
Proof.
  eexists. eexists. eexists. split; [vm_compute; reflexivity |].
  split; [vm_compute; reflexivity |].
  split; [vm_compute; reflexivity |].
  split; [reflexivity |]. split; reflexivity.
Qed.

(** C2 (amended): for every state, every valid player index and every hit,
    [undoLast] right after [recordHit] gives back every player's history,
    id and name, every other player and every other state cell; the score
    of the player becomes [(score + -raw) - -raw] in double arithmetic.  So
    the state is restored exactly if and only if that round trip returns
    the score; it does whenever the score and the raw score are integers
    with score, raw score and their difference below 2^53 in magnitude. *)
Theorem undo_after_record_double (s : Double.GameState) (i : Z)
    (label : JsLabel) (m : Z) (r : float) (pl : Double.Player) :
  at_index (Double.players s) i = Some pl ->
  exists s1,
    Double.recordHit i label m r s = Ok s1 /\
    Double.undoLast i s1 =
      Ok (Double.with_score s i pl
            (PrimFloat.sub
               (PrimFloat.add (Double.score pl) (PrimFloat.opp r))
               (PrimFloat.opp r))) /\
    (Double.undoLast i s1 = Ok s <->
     PrimFloat.sub (PrimFloat.add (Double.score pl) (PrimFloat.opp r))
       (PrimFloat.opp r) = Double.score pl) /\
    (forall z zr,
       Double.score pl = double_of_Z z -> r = double_of_Z zr ->
       safe z -> safe zr -> safe (z - zr) ->
       Double.undoLast i s1 = Ok s).
Proof.
  intros E. destruct (double_record_undo s i label m r pl E) as [s1 [Hr Hu]].
  exists s1. split; [exact Hr |]. split; [exact Hu |].
  assert (Double.undoLast i s1 = Ok s <->
          PrimFloat.sub (PrimFloat.add (Double.score pl) (PrimFloat.opp r))
            (PrimFloat.opp r) = Double.score pl) as Iff.
  { rewrite Hu. rewrite <- (with_score_same s i pl _ E). split.
    - intros H. now injection H.
    - intros ->. reflexivity. }
  split; [exact Iff |].
  intros z zr Hz -> Sz Szr Sd. apply Iff. rewrite Hz.
  now apply add_opp_double_of_Z_undo.
Qed.

Lemma undo_after_record_double_witness :
  exists s1,
    Double.recordHit 0 (LNum 20) 3 (double_of_Z 60)
      (Double.mkGameState 501%float
         [Double.mkPlayer "1" "Ann" (double_of_Z 441) []] 0 false 2 false ""
         false None BULL 1) = Ok s1 /\
    Double.undoLast 0 s1 =
      Ok (Double.mkGameState 501%float
            [Double.mkPlayer "1" "Ann" (double_of_Z 441) []] 0 false 2 false
            "" false None BULL 1).
Proof.
  destruct (undo_after_record_double
              (Double.mkGameState 501%float
                 [Double.mkPlayer "1" "Ann" (double_of_Z 441) []] 0 false 2
                 false "" false None BULL 1)
              0 (LNum 20) 3 (double_of_Z 60)
              (Double.mkPlayer "1" "Ann" (double_of_Z 441) []) eq_refl)
    as [s1 [Hr [_ [_ Hz]]]].
  exists s1. split; [exact Hr |].
  apply (Hz 441 60); try reflexivity; unfold safe; lia.
Defined.


(** * The integer model and the doubles *)

Lemma at_index_map {A B : Type} (f : A -> B) (l : list A) (i : Z) :
  at_index (map f l) i = option_map f (at_index l i).
Proof.
  unfold at_index. destruct (i <? 0); [reflexivity |].
  apply nth_error_map.
Qed.

Lemma assign_map {A B : Type} (f : A -> B) (l : list A) (i : Z) (v : A) :
  assign (map f l) i (f v) = map f (assign l i v).
Proof.
  unfold assign. destruct (i <? 0); [reflexivity |].
  generalize (Z.to_nat i) as n. induction l as [| h t IH]; intros [| n];
    simpl; try reflexivity.
  now rewrite IH.
Qed.

Lemma filter_embed (id0 : string) (l : list Player) :
  filter (fun p => negb (String.eqb (Double.id p) id0)) (map embedPlayer l)
  = map embedPlayer (filter (fun p => negb (String.eqb (id p) id0)) l).
Proof.
  induction l as [| h t IH]; simpl; [reflexivity |].
  destruct (negb (String.eqb (id h) id0)); simpl; now rewrite IH.
Qed.

Lemma safe_state_at (s : GameState) (i : Z) (p : Player) :
  safe_state s = true -> at_index (players s) i = Some p ->
  safe (score p) /\ forall e, In e (history p) -> safe (delta e).
Proof.
  unfold safe_state. intros H E. apply andb_prop in H. destruct H as [_ H].
  rewrite forallb_forall in H.
  assert (In p (players s)) as Hin.
  { unfold at_index in E. destruct (i <? 0); [discriminate |].
    eapply nth_error_In; eauto. }
  specialize (H p Hin). unfold safe_player in H. apply andb_prop in H.
  destruct H as [H1 H2]. split; [now apply safeb_safe |].
  rewrite forallb_forall in H2. intros e He. apply safeb_safe. auto.
Qed.

Lemma safe_state_start (s : GameState) :
  safe_state s = true -> safe (startingScore s).
Proof.
  unfold safe_state. intros H. apply andb_prop in H. now apply safeb_safe.
Qed.

Lemma embed_initialState : embed initialState = Double.initialState.
Proof. vm_compute. reflexivity. Qed.

Lemma sectorAt_bound (i : Z) : 0 <= sectorAt i <= 20.
Proof.
  unfold sectorAt, SECTORS. generalize (Z.to_nat i) as n. intros n.
  do 20 (destruct n as [| n]; [simpl; lia |]).
  destruct n; simpl; lia.
Qed.

(** [recordHit] on safe integers, in doubles. *)
Lemma recordHit_double (s s' : GameState) (i : Z) (l : JsLabel) (m r : Z) :
  safe_state s = true -> safe r ->
  recordHit i l m r s = Ok s' -> safe_state s' = true ->
  Double.recordHit i l m (double_of_Z r) (embed s) = Ok (embed s').
Proof.
  intros Ss Sa St Ss'.
  destruct (at_index (players s) i) as [pl |] eqn:E.
  2:{ unfold recordHit, setPlayers in St. simpl in St. rewrite E in St.
      discriminate. }
  pose proof (at_index_Some_valid _ _ _ E) as V.
  rewrite (recordHit_valid _ _ _ _ _ _ E) in St. injection St as <-.
  destruct (safe_state_at _ _ _ Ss E) as [Hs _].
  destruct (safe_state_at _ _ _ Ss' (at_index_assign_same _ _ _ V))
    as [Hs' _].
  simpl in Hs'.
  erewrite double_recordHit_valid
    by (cbn [embed Double.players]; rewrite at_index_map, E; reflexivity).
  unfold embed. cbn [players startingScore activePlayerIndex isRunning
    nextId showAddPlayer newPlayerName showDebug lastHit manualSector
    manualMult Double.players Double.startingScore Double.activePlayerIndex
    Double.isRunning Double.nextId Double.showAddPlayer
    Double.newPlayerName Double.showDebug Double.lastHit
    Double.manualSector Double.manualMult].
  do 2 f_equal. rewrite <- assign_map. f_equal.
  unfold embedPlayer, hit_player, embedEvent.
  cbn [id name score history desc delta map Double.id Double.name
       Double.score Double.history].
  rewrite Z.opp_involutive.
  rewrite add_opp_double_of_Z by (try assumption; now rewrite <- Z.add_opp_r).
  now rewrite Z.add_opp_r.
Qed.

(** A hit that is recorded and then stored, as [onBoardClick] and
    [applyManualHit] do. *)
Lemma hit_stored_double (s s' : GameState) (i : Z) (l : JsLabel) (m r : Z)
    (h : LastHit) :
  safe_state s = true -> safe r ->
  (s1 <- recordHit i l m r s ;; Ok (setLastHit (Some h) s1)) = Ok s' ->
  safe_state s' = true ->
  (s1 <- Double.recordHit i l m (double_of_Z r) (embed s) ;;
   Ok (Double.setLastHit (Some h) s1)) = Ok (embed s').
Proof.
  intros Ss Sr St Ss'.
  destruct (recordHit i l m r s) as [s1 |] eqn:R; simpl in St;
    [| discriminate].
  injection St as <-.
  rewrite (recordHit_double s s1 i l m r Ss Sr R Ss'). reflexivity.
Qed.

(** One command on safe integers: the code, in doubles, does what the
    integer model does. *)
Lemma step_double (a : Action) (s s' : GameState) :
  safe_state s = true -> safe_action a s = true ->
  step a s = Ok s' -> safe_state s' = true ->
  Double.step (embedAction a) (embed s) = Ok (embed s').
Proof.
  intros Ss Sa St Ss'.
  destruct a; simpl in St |- *.
  - (* addPlayer *)
    unfold addPlayer, setPlayers in St. simpl in St. injection St as <-.
    unfold Double.addPlayer, Double.setPlayers, embed. simpl.
    now rewrite map_app.
  - (* resetGame *)
    unfold resetGame, setPlayers in St. simpl in St. injection St as <-.
    unfold Double.resetGame, Double.setPlayers, embed. simpl.
    now rewrite !map_map.
  - (* removePlayer *)
    unfold removePlayer, setPlayers in St. simpl in St. injection St as <-.
    unfold Double.removePlayer, Double.setPlayers, embed. simpl.
    now rewrite filter_embed.
  - (* recordHit *)
    apply recordHit_double; try assumption. now apply safeb_safe.
  - (* undoLast *)
    unfold undoLast, setPlayers in St. simpl in St.
    destruct (at_index (players s) playerIndex) as [pl |] eqn:E;
      [| discriminate].
    pose proof (at_index_Some_valid _ _ _ E) as V.
    destruct (safe_state_at _ _ _ Ss E) as [Hs Hh].
    unfold Double.undoLast, Double.setPlayers.
    cbn [embed Double.players bind]. rewrite at_index_map, E.
    destruct pl as [pid pname pscore phist].
    cbn [option_map embedPlayer Double.history id name score history] in *.
    destruct phist as [| last rest]; simpl in St; injection St as <-.
    + cbn [map bind]. rewrite state_eta. reflexivity.
    + destruct (safe_state_at _ _ _ Ss' (at_index_assign_same _ _ _ V))
        as [Hs' _].
      simpl in Hs'.
      assert (safe (delta last)) as Hd by (apply Hh; now left).
      cbn [map bind embedEvent Double.delta Double.id Double.name
           Double.score].
      unfold embed. cbn [players startingScore activePlayerIndex isRunning
        nextId showAddPlayer newPlayerName showDebug lastHit manualSector
        manualMult].
      do 2 f_equal. rewrite <- assign_map. f_equal.
      unfold embedPlayer. cbn [id name score history].
      rewrite sub_opp. cbn [Double.id Double.name Double.score].
      rewrite add_double_of_Z
        by (try assumption; unfold safe in *; try lia;
            now rewrite Z.add_opp_r).
      now rewrite Z.add_opp_r.
  - (* nextTurn *)
    injection St as <-. unfold Double.nextTurn, embed. simpl.
    rewrite length_map. destruct (players s); reflexivity.
  - (* setStartingScore *)
    injection St as <-. reflexivity.
  - injection St as <-. reflexivity.
  - injection St as <-. reflexivity.
  - (* onBoardClick *)
    unfold onBoardClick in St. unfold Double.onBoardClick.
    cbn [embed Double.players Double.activePlayerIndex].
    destruct (players s) as [| p0 ps] eqn:Ep.
    { injection St as <-. cbn [map]. unfold embed. now rewrite Ep. }
    cbn [map]. destruct el as [rect |].
    2:{ injection St as <-. unfold embed. now rewrite Ep. }
    cbv zeta in St |- *.
    fold (embed s).
    change 50%float with (double_of_Z 50).
    change 25%float with (double_of_Z 25).
    repeat match type of St with
           | context [Rleb ?a ?b] => destruct (Rleb a b)
           | context [Rgeb ?a ?b] => destruct (Rgeb a b)
           end;
      cbn [andb] in St |- *;
      (apply hit_stored_double; [assumption | | assumption | assumption]);
      match goal with
      | |- safe (sectorAt ?i * _) =>
          pose proof (sectorAt_bound i); unfold safe; lia
      | |- _ => unfold safe; lia
      end.
  - injection St as <-. reflexivity.
  - injection St as <-. reflexivity.
  - (* applyManualHit *)
    unfold applyManualHit in St. unfold Double.applyManualHit.
    cbn [embed Double.players Double.activePlayerIndex Double.manualSector
         Double.manualMult].
    destruct (players s) as [| p0 ps] eqn:Ep.
    { injection St as <-. cbn [map]. unfold embed. now rewrite Ep. }
    cbn [map]. cbv zeta in St |- *. fold (embed s).
    change 50%float with (double_of_Z 50).
    change 25%float with (double_of_Z 25).
    cbn [safe_action] in Sa.
    destruct (manualSector s) as [| | n];
      (apply hit_stored_double; [assumption | | assumption | assumption]);
      [unfold safe; lia | unfold safe; lia | now apply safeb_safe].
Qed.

Lemma safe_run_state (acts : list Action) (s : GameState) :
  safe_run acts s = true -> safe_state s = true.
Proof.
  destruct acts; simpl; [auto |]. intros H.
  apply andb_prop in H. destruct H as [H _].
  apply andb_prop in H. apply H.
Qed.

(** A run of commands on safe integers: the state the code reaches, in
    doubles, is the state of the integer model. *)
Lemma run_double (acts : list Action) :
  forall (s s' : GameState),
    safe_run acts s = true ->
    run acts s = Ok s' ->
    Double.run (map embedAction acts) (embed s) = Ok (embed s') /\
    safe_state s' = true.
Proof.
  induction acts as [| a rest IH]; intros s s' Sr R; simpl in *.
  - injection R as <-. split; [reflexivity | exact Sr].
  - destruct (step a s) as [s1 |] eqn:St; simpl in R; [| discriminate].
    apply andb_prop in Sr. destruct Sr as [Sr Sr1].
    apply andb_prop in Sr. destruct Sr as [Ss Sa].
    pose proof (safe_run_state _ _ Sr1) as Ss1.
    rewrite (step_double a s s1 Ss Sa St Ss1). cbn [bind].
    now apply IH.
Qed.

Lemma Z_of_double_of_Z (z : Z) : safe z -> Z_of_double (double_of_Z z) = Some z.
Proof.
  intros H. unfold Z_of_double. rewrite (Prim2SF_double_of_Z z H).
  assert (forall sg m, Zpos m < 2 ^ 53 ->
            (if 0 <=? Zpos (digits2_pos m) - 53
             then Some (cond_Zopp sg
                    (Zpos (shlN m (Z.to_nat (53 - Zpos (digits2_pos m))))
                     * 2 ^ (Zpos (digits2_pos m) - 53)))
             else if Zpos (shlN m (Z.to_nat (53 - Zpos (digits2_pos m))))
                       mod 2 ^ (- (Zpos (digits2_pos m) - 53)) =? 0
                  then Some (cond_Zopp sg
                         (Zpos (shlN m (Z.to_nat (53 - Zpos (digits2_pos m))))
                          / 2 ^ (- (Zpos (digits2_pos m) - 53))))
                  else None) = Some (cond_Zopp sg (Zpos m))) as A.
  { intros sg m Hm. pose proof (digits_safe m Hm) as HD.
    rewrite shlN_Z, Z2Nat.id by lia.
    destruct (0 <=? Zpos (digits2_pos m) - 53) eqn:E.
    - apply Z.leb_le in E.
      replace (Zpos (digits2_pos m) - 53) with 0 by lia.
      replace (53 - Zpos (digits2_pos m)) with 0 by lia.
      do 2 f_equal. rewrite Z.pow_0_r. lia.
    - replace (- (Zpos (digits2_pos m) - 53))
        with (53 - Zpos (digits2_pos m)) by lia.
      assert (0 < 2 ^ (53 - Zpos (digits2_pos m)))
        by (apply Z.pow_pos_nonneg; lia).
      rewrite Z.mod_mul by lia. rewrite Z.eqb_refl.
      rewrite Z.div_mul by lia. reflexivity. }
  unfold safe in H. destruct z as [| m | m]; [reflexivity | |];
    cbn [canon]; [apply (A false m) | apply (A true m)]; lia.
Qed.

Lemma Z_of_double_delta (e : ScoreEvent) :
  safe (delta e) -> Z_of_double (Double.delta (embedEvent e)) = Some (delta e).
Proof.
  intros H. unfold embedEvent. cbn [Double.delta].
  destruct (Z.eq_dec (delta e) 0) as [E | N].
  - rewrite E. vm_compute. reflexivity.
  - rewrite opp_double_of_Z by (unfold safe in *; lia).
    rewrite Z.opp_involutive. now apply Z_of_double_of_Z.
Qed.

Lemma Z_of_double_history (h : list ScoreEvent) :
  (forall e, In e h -> safe (delta e)) ->
  Forall2 (fun e d => Z_of_double (Double.delta e) = Some d)
    (map embedEvent h) (map delta h).
Proof.
  induction h as [| e t IH]; intros H; simpl; constructor.
  - apply Z_of_double_delta. apply H. now left.
  - apply IH. intros e' He'. apply H. now right.
Qed.

Lemma sumDelta_map (h : list ScoreEvent) :
  fold_right Z.add 0 (map delta h) = sumDelta h.
Proof.
  unfold sumDelta. induction h as [| e t IH]; simpl; [reflexivity |].
  now rewrite IH.
Qed.

Lemma safe_state_In (s : GameState) (p : Player) :
  safe_state s = true -> In p (players s) ->
  safe (score p) /\ forall e, In e (history p) -> safe (delta e).
Proof.
  unfold safe_state. intros H Hin. apply andb_prop in H. destruct H as [_ H].
  rewrite forallb_forall in H.
  specialize (H p Hin). unfold safe_player in H. apply andb_prop in H.
  destruct H as [H1 H2]. split; [now apply safeb_safe |].
  rewrite forallb_forall in H2. intros e He. apply safeb_safe. auto.
Qed.

(** The run in doubles of [setStartingScore(1.1)], [addPlayer],
    [recordHit(0, 20, 3, 60)], [undoLast(0)]: the history is empty again,
    the score is 1.1000000000000014 and the starting score is 1.1. *)
Lemma score_consistency_rounds :
  exists s,
    Double.run [Double.SetStartingScore 0x1.199999999999ap+0%float;
                Double.AddPlayer "Ann";
                Double.RecordHit 0 (LNum 20) 3 60%float;
                Double.UndoLast 0] Double.initialState = Ok s /\
    Double.startingScore s = 0x1.199999999999ap+0%float /\
    Double.players s =
      [{| Double.id := "1"; Double.name := "Ann";
          Double.score := 0x1.19999999999ap+0%float;
          Double.history := [] |}] /\
    PrimFloat.eqb 0x1.19999999999ap+0%float 0x1.199999999999ap+0%float
      = false.
Proof.
  eexists. split; [vm_compute; reflexivity |].
  split; [reflexivity |]. split; reflexivity.
Qed.

(** In doubles as well, [setStartingScore] after [addPlayer] leaves the
    player on the old baseline: score 501, empty history, starting score
    301. *)
Lemma score_consistency_fails_in_doubles :
  exists s,
    Double.run [Double.AddPlayer "Ann"; Double.SetStartingScore 301%float]
      Double.initialState = Ok s /\
    Double.startingScore s = 301%float /\
    Double.players s =
      [{| Double.id := "1"; Double.name := "Ann";
          Double.score := 501%float; Double.history := [] |}] /\
    PrimFloat.eqb 501%float 301%float = false.
Proof.
  eexists. split; [vm_compute; reflexivity |].
  split; [reflexivity |]. split; reflexivity.
Qed.

(** C1 (amended).  The code as written, on doubles.  For a run of commands
    (addPlayer, removePlayer, recordHit, undoLast, nextTurn, resetGame,
    setStartingScore, board clicks, manual hits, ...) whose numbers are
    integers, and whose scores, deltas and starting scores all stay
    strictly between -2^53 and 2^53 ([safe_run]): if since the start or the
    last resetGame every setStartingScore was made while no player existed
    or with the value already configured ([in_sync]), then the run in
    doubles succeeds, and in the state it reaches the starting score, every
    score and every delta is an integer, and every player's score equals
    the starting score plus the sum of the deltas of the player's history.
    setStartingScore itself never touches the players. *)
Theorem score_history_consistency_double (acts : list Action)
    (s : GameState) :
  run acts initialState = Ok s ->
  safe_run acts initialState = true ->
  in_sync acts initialState true = true ->
  exists sD,
    Double.run (map embedAction acts) Double.initialState = Ok sD /\
    (forall pD, In pD (Double.players sD) ->
       exists z0 zs ds,
         Z_of_double (Double.startingScore sD) = Some z0 /\
         Z_of_double (Double.score pD) = Some zs /\
         Forall2 (fun e d => Z_of_double (Double.delta e) = Some d)
           (Double.history pD) ds /\
         zs = z0 + fold_right Z.add 0 ds) /\
    (forall n, Double.players (Double.setStartingScore n sD)
               = Double.players sD).
Proof.
  intros R Sr S.
  destruct (run_double acts initialState s Sr R) as [RD Ss].
  rewrite embed_initialState in RD.
  exists (embed s). split; [exact RD |]. split; [| reflexivity].
  assert (consistent s) as C.
  { eapply run_in_sync; [| exact R | exact S]. intros _. constructor. }
  unfold consistent in C. rewrite Forall_forall in C.
  intros pD Hin. cbn [embed Double.players] in Hin.
  apply in_map_iff in Hin. destruct Hin as [p [<- Hp]].
  destruct (safe_state_In s p Ss Hp) as [Hs Hh].
  exists (startingScore s), (score p), (map delta (history p)).
  cbn [embed embedPlayer Double.startingScore Double.score Double.history].
  split; [apply Z_of_double_of_Z; now apply safe_state_start |].
  split; [now apply Z_of_double_of_Z |].
  split; [now apply Z_of_double_history |].
  rewrite sumDelta_map. apply C, Hp.
Qed.

Lemma score_history_consistency_double_witness :
  exists sD,
    Double.run [Double.SetStartingScore (double_of_Z 301);
                Double.AddPlayer "Ann"; Double.AddPlayer "";
                Double.RecordHit 0 (LNum 20) 3 (double_of_Z 60);
                Double.NextTurn;
                Double.RecordHit 1 (LStr "Яблочко (50)") 1 (double_of_Z 50);
                Double.UndoLast 0;
                Double.SetStartingScore (double_of_Z 701);
                Double.ResetGame;
                Double.ApplyManualHit;
                Double.RemovePlayer "2"] Double.initialState = Ok sD /\
    (forall pD, In pD (Double.players sD) ->
       exists z0 zs ds,
         Z_of_double (Double.startingScore sD) = Some z0 /\
         Z_of_double (Double.score pD) = Some zs /\
         Forall2 (fun e d => Z_of_double (Double.delta e) = Some d)
           (Double.history pD) ds /\
         zs = z0 + fold_right Z.add 0 ds) /\
    (forall n, Double.players (Double.setStartingScore n sD)
               = Double.players sD).
Proof.
  eapply (score_history_consistency_double
            [SetStartingScore 301; AddPlayer "Ann"; AddPlayer "";
             RecordHit 0 (LNum 20) 3 60; NextTurn;
             RecordHit 1 (LStr "Яблочко (50)") 1 50; UndoLast 0;
             SetStartingScore 701; ResetGame;
             ApplyManualHit; RemovePlayer "2"]).
  - vm_compute. reflexivity.
  - vm_compute. reflexivity.
  - vm_compute. reflexivity.
Defined.

(** The state in which that run ends: Ann alone, at 651 after the manual
    bull on the new baseline 701, with the one event of that hit. *)
Lemma score_history_run_state :
  exists sD,
    Double.run [Double.SetStartingScore (double_of_Z 301);
                Double.AddPlayer "Ann"; Double.AddPlayer "";
                Double.RecordHit 0 (LNum 20) 3 (double_of_Z 60);
                Double.NextTurn;
                Double.RecordHit 1 (LStr "Яблочко (50)") 1 (double_of_Z 50);
                Double.UndoLast 0;
                Double.SetStartingScore (double_of_Z 701);
                Double.ResetGame;
                Double.ApplyManualHit;
                Double.RemovePlayer "2"] Double.initialState = Ok sD /\
    Double.startingScore sD = 701%float /\
    Double.players sD =
      [{| Double.id := "1"; Double.name := "Ann";
          Double.score := 651%float;
          Double.history :=
            [{| Double.desc := "Яблочко (50)";
                Double.delta := (-50)%float |}] |}].
Proof.
  eexists. split; [vm_compute; reflexivity |]. split; reflexivity.
Qed.


(** * Runs of hits, in doubles *)

Lemma double_run_app (a b : list Double.Action) (s : Double.GameState) :
  Double.run (a ++ b) s = (s1 <- Double.run a s ;; Double.run b s1).
Proof.
  revert s. induction a as [| x a IH]; intros s; simpl; [reflexivity |].
  destruct (Double.step x s); simpl; [apply IH | reflexivity].
Qed.

Lemma safe_hits_total (hits : list (JsLabel * Z * Z)) :
  forall z, safe z -> safe_hits z hits ->
    safe (z - fold_right Z.add 0 (map snd hits)).
Proof.
  induction hits as [| h rest IH]; intros z Hz H; simpl in *.
  - now rewrite Z.sub_0_r.
  - destruct H as [_ [H1 H2]].
    replace (z - (snd h + fold_right Z.add 0 (map snd rest)))
      with (z - snd h - fold_right Z.add 0 (map snd rest)) by lia.
    now apply IH.
Qed.

(** X4.  The history is a stack, as long as the arithmetic is exact: if the
    player's score is an integer and the hits are integers, all strictly
    between -2^53 and 2^53 together with every score on the way
    ([safe_hits]), then after the [recordHit] calls for that player as many
    [undoLast] calls give back the state exactly as it was before the first
    of the hits.  The scores are doubles; the other players' scores are
    arbitrary. *)
Theorem undo_all_hits_double (hits : list (JsLabel * Z * Z)) :
  forall (s : Double.GameState) (i : Z) (pl : Double.Player) (z : Z),
    at_index (Double.players s) i = Some pl ->
    Double.score pl = double_of_Z z ->
    safe z -> safe_hits z hits ->
    Double.run (Double.hitActions i (doubleHits hits)
                ++ repeat (Double.UndoLast i) (List.length hits)) s
    = Ok s.
Proof.
  induction hits as [| [[l m] r] rest IH]; intros s i pl z E Hsc Hz Hh.
  - reflexivity.
  - cbn [doubleHits Double.hitActions map List.length fst snd].
    fold (doubleHits rest). fold (Double.hitActions i (doubleHits rest)).
    replace (repeat (Double.UndoLast i) (S (List.length rest)))
      with (repeat (Double.UndoLast i) (List.length rest)
            ++ [Double.UndoLast i])
      by (symmetry;
          apply (repeat_cons (List.length rest) (Double.UndoLast i))).
    cbn [app Double.run Double.step].
    cbn [safe_hits snd] in Hh. destruct Hh as [Hr [Hzr Hrest]].
    pose proof (at_index_Some_valid _ _ _ E) as V.
    destruct (double_record_undo s i l m (double_of_Z r) pl E)
      as [s1 [R U]].
    rewrite R. cbn [bind]. rewrite app_assoc, double_run_app.
    pose proof R as R'.
    rewrite (double_recordHit_valid _ _ _ _ _ _ E) in R'.
    injection R' as R'.
    assert (exists pl1, at_index (Double.players s1) i = Some pl1 /\
                        Double.score pl1 = double_of_Z (z - r))
      as [pl1 [E1 Hsc1]].
    { rewrite <- R'. cbn [Double.players].
      rewrite (at_index_assign_same _ _ _ V). eexists. split; [reflexivity |].
      cbn [Double.score]. rewrite Hsc.
      now apply add_opp_double_of_Z. }
    rewrite (IH s1 i pl1 (z - r) E1 Hsc1 Hzr Hrest).
    cbn [bind Double.run Double.step]. rewrite U. cbn [bind]. f_equal.
    apply with_score_same; [exact E |].
    rewrite Hsc. now apply add_opp_double_of_Z_undo.
Qed.

Lemma undo_all_hits_double_witness :
  exists s,
    Double.run [Double.AddPlayer "Ann"; Double.AddPlayer "Bob";
                Double.RecordHit 0 (LNum 7) 1 (double_of_Z 7)]
      Double.initialState = Ok s /\
    Double.run (Double.hitActions 0
                  (doubleHits [(LNum 20, 3, 60);
                               (LStr "Яблочко (50)", 1, 50);
                               (LNum 1, 2, 2)])
                ++ repeat (Double.UndoLast 0) 3) s
    = Ok s.
Proof.
  eexists. split; [vm_compute; reflexivity |].
  eapply (undo_all_hits_double
            [(LNum 20, 3, 60); (LStr "Яблочко (50)", 1, 50); (LNum 1, 2, 2)]
            _ 0 _ 494).
  - reflexivity.
  - vm_compute. reflexivity.
  - unfold safe. lia.
  - cbn [safe_hits snd]. unfold safe. lia.
Defined.

(** With a score that is no integer the hits do not add up: from 1.19 the
    hits 14 and 13 leave -25.810000000000002, not -25.81. *)
Lemma hits_round :
  exists s',
    Double.run ([Double.SetStartingScore 0x1.30a3d70a3d70ap+0%float;
                 Double.AddPlayer "Ann"]
                ++ Double.hitActions 0
                     [(LNum 14, 1, 14%float); (LNum 13, 1, 13%float)])
      Double.initialState = Ok s' /\
    map Double.score (Double.players s') = [(-0x1.9cf5c28f5c29p+4)%float] /\
    PrimFloat.eqb (-0x1.9cf5c28f5c29p+4)%float (-0x1.9cf5c28f5c28fp+4)%float
      = false.
Proof.
  eexists. split; [vm_compute; reflexivity |]. split; reflexivity.
Qed.

(** X5.  Hits accumulate, as long as the arithmetic is exact: if the
    player's score is the integer [z] and the hits are integers, all
    strictly between -2^53 and 2^53 together with every score on the way
    ([safe_hits]), then after the [recordHit] calls the score is the integer
    [z] minus the sum of the raw scores, and the history holds the new
    events in front of the old ones, the most recent first, each with the
    delta [-rawScore].  The scores are doubles. *)
Theorem hits_accumulate_double (hits : list (JsLabel * Z * Z)) :
  forall (s : Double.GameState) (i : Z) (p : Double.Player) (z : Z),
    at_index (Double.players s) i = Some p ->
    Double.score p = double_of_Z z ->
    safe z -> safe_hits z hits ->
    exists s' p',
      Double.run (Double.hitActions i (doubleHits hits)) s = Ok s' /\
      at_index (Double.players s') i = Some p' /\
      Double.score p'
        = double_of_Z (z - fold_right Z.add 0 (map snd hits)) /\
      Z_of_double (Double.score p')
        = Some (z - fold_right Z.add 0 (map snd hits)) /\
      map Double.delta (Double.history p') =
        rev (map (fun h => PrimFloat.opp (double_of_Z (snd h))) hits)
        ++ map Double.delta (Double.history p) /\
      Double.id p' = Double.id p /\ Double.name p' = Double.name p.
Proof.
  induction hits as [| [[l m] r] rest IH]; intros s i p z E Hsc Hz Hh.
  - exists s, p. cbn [map fold_right rev app]. rewrite Z.sub_0_r.
    split; [reflexivity |]. split; [exact E |]. split; [exact Hsc |].
    split; [rewrite Hsc; now apply Z_of_double_of_Z |].
    split; [reflexivity |]. split; reflexivity.
  - cbn [doubleHits Double.hitActions map Double.run Double.step fst snd].
    fold (doubleHits rest). fold (Double.hitActions i (doubleHits rest)).
    cbn [safe_hits snd] in Hh. destruct Hh as [Hr [Hzr Hrest]].
    pose proof (at_index_Some_valid _ _ _ E) as V.
    rewrite (double_recordHit_valid _ _ _ _ _ _ E). cbn [bind].
    match goal with
    | |- exists s' p', Double.run _ ?s1 = _ /\ _ =>
        assert (exists pl1, at_index (Double.players s1) i = Some pl1 /\
                  Double.score pl1 = double_of_Z (z - r) /\
                  map Double.delta (Double.history pl1)
                  = PrimFloat.opp (double_of_Z r)
                    :: map Double.delta (Double.history p) /\
                  Double.id pl1 = Double.id p /\
                  Double.name pl1 = Double.name p)
          as [pl1 [E1 [Hsc1 [Hh1 [Hi1 Hn1]]]]]
    end.
    { cbn [Double.players]. rewrite (at_index_assign_same _ _ _ V).
      eexists. split; [reflexivity |].
      cbn [Double.score Double.history Double.id Double.name map
           Double.delta].
      split; [rewrite Hsc; now apply add_opp_double_of_Z |].
      split; [reflexivity |]. split; reflexivity. }
    destruct (IH _ i pl1 (z - r) E1 Hsc1 Hzr Hrest)
      as [s' [p' [R [Ep' [Hs [Hv [Hh [Hi Hn]]]]]]]].
    exists s', p'. split; [exact R |]. split; [exact Ep' |].
    cbn [fold_right].
    replace (z - (r + fold_right Z.add 0 (map snd rest)))
      with (z - r - fold_right Z.add 0 (map snd rest)) by lia.
    split; [exact Hs |]. split; [exact Hv |].
    split; [| split; congruence].
    rewrite Hh, Hh1. cbn [rev]. now rewrite <- app_assoc.
Qed.

Lemma hits_accumulate_double_witness :
  exists s,
    Double.run [Double.AddPlayer "Ann"; Double.AddPlayer "Bob"]
      Double.initialState = Ok s /\
    exists s' p',
      Double.run (Double.hitActions 1
                    (doubleHits [(LNum 20, 3, 60); (LNum 5, 2, 10);
                                 (LStr "Яблочко (50)", 1, 50)])) s = Ok s' /\
      at_index (Double.players s') 1 = Some p' /\
      Double.score p' = double_of_Z 381 /\
      Z_of_double (Double.score p') = Some 381 /\
      map Double.delta (Double.history p') =
        [PrimFloat.opp (double_of_Z 50); PrimFloat.opp (double_of_Z 10);
         PrimFloat.opp (double_of_Z 60)].
Proof.
  eexists. split; [vm_compute; reflexivity |].
  match goal with
  | |- exists s' p', Double.run _ ?s = _ /\ _ =>
      destruct (hits_accumulate_double
                  [(LNum 20, 3, 60); (LNum 5, 2, 10);
                   (LStr "Яблочко (50)", 1, 50)] s 1
                  (Double.mkPlayer "2" "Bob" (double_of_Z 501) []) 501)
        as [s' [p' [R [Ep' [Hs [Hv [Hh _]]]]]]]
  end.
  - vm_compute. reflexivity.
  - reflexivity.
  - unfold safe. lia.
  - cbn [safe_hits snd]. unfold safe. lia.
  - exists s', p'. split; [exact R |]. split; [exact Ep' |].
    split; [exact Hs |]. split; [exact Hv |]. exact Hh.
Defined.


(** C10: for every positive display radius and every pointer position,
    [onBoardClick] acts on the ring that the classification of the
    specification gives.  The comparisons of [onBoardClick], made on the
    pixel distance against the ring radii scaled by [Rpx / 50], pick the
    same ring (inner bull, outer bull, triple, double, single) as the
    specification, which compares [distance * (50 / Rpx)] with 5, 10, 23,
    28, 38, 44; and the hit that [onBoardClick] records and stores is the
    one of that ring: 50 on the inner bull, 25 on the outer bull, else the
    sector number times 3, 2 or 1.  Over exact real arithmetic. *)
Theorem onBoardClick_ring_normalized (s : GameState) (rect : DOMRect)
    (e : MouseEvent) :
  players s <> [] ->
  (0 < pixelRadius rect)%R ->
  ring_px (pixelDistance rect e) (pixelRadius rect)
  = spec_ring_of_click rect e /\
  onBoardClick (Some rect) e s =
  match spec_ring_of_click rect e with
  | InnerBull =>
      s1 <- recordHit (activePlayerIndex s) (LStr "Яблочко (50)") 1 50 s ;;
      Ok (setLastHit (Some (bullHit rect e 50)) s1)
  | OuterBull =>
      s1 <- recordHit (activePlayerIndex s) (LStr "Внешний центр (25)") 1 25 s ;;
      Ok (setLastHit (Some (bullHit rect e 25)) s1)
  | _ =>
      s1 <- recordHit (activePlayerIndex s)
              (LNum (sectorAt (sectorIndex (sectorHit rect e))))
              (ring_mult (spec_ring_of_click rect e))
              (sectorAt (sectorIndex (sectorHit rect e))
               * ring_mult (spec_ring_of_click rect e)) s ;;
      Ok (setLastHit (Some (sectorHit rect e)) s1)
  end /\
  mult (sectorHit rect e) = ring_mult (spec_ring_of_click rect e) /\
  rawScore (sectorHit rect e)
  = sectorAt (sectorIndex (sectorHit rect e))
    * ring_mult (spec_ring_of_click rect e).
Proof.
  intros P HR.
  pose proof (ring_px_normalized (pixelDistance rect e) (pixelRadius rect) HR)
    as E.
  fold (spec_ring_of_click rect e) in E.
  assert (mult (sectorHit rect e) = ring_mult (spec_ring_of_click rect e))
    as Hm by (rewrite <- E; reflexivity).
  assert (rawScore (sectorHit rect e)
          = sectorAt (sectorIndex (sectorHit rect e))
            * ring_mult (spec_ring_of_click rect e))
    as Hr by (rewrite <- E; reflexivity).
  split; [exact E |]. split; [| split; assumption].
  rewrite (onBoardClick_ring_px s rect e P), E.
  rewrite <- Hr, <- Hm. reflexivity.
Qed.

Lemma onBoardClick_ring_normalized_witness :
  ring_px (pixelDistance (mkDOMRect 10 20 300 300) (mkMouseEvent 47 211))
    (pixelRadius (mkDOMRect 10 20 300 300))
  = spec_ring_of_click (mkDOMRect 10 20 300 300) (mkMouseEvent 47 211) /\
  onBoardClick (Some (mkDOMRect 10 20 300 300)) (mkMouseEvent 47 211)
    (mkGameState 301 [mkPlayer "1" "Ann" 301 []; mkPlayer "2" "Bob" 120 []]
       1 true 3 false "" false None BULL 1) =
  match spec_ring_of_click (mkDOMRect 10 20 300 300) (mkMouseEvent 47 211)
  with
  | InnerBull =>
      s1 <- recordHit 1 (LStr "Яблочко (50)") 1 50
              (mkGameState 301
                 [mkPlayer "1" "Ann" 301 []; mkPlayer "2" "Bob" 120 []]
                 1 true 3 false "" false None BULL 1) ;;
      Ok (setLastHit
            (Some (bullHit (mkDOMRect 10 20 300 300) (mkMouseEvent 47 211)
                     50)) s1)
  | OuterBull =>
      s1 <- recordHit 1 (LStr "Внешний центр (25)") 1 25
              (mkGameState 301
                 [mkPlayer "1" "Ann" 301 []; mkPlayer "2" "Bob" 120 []]
                 1 true 3 false "" false None BULL 1) ;;
      Ok (setLastHit
            (Some (bullHit (mkDOMRect 10 20 300 300) (mkMouseEvent 47 211)
                     25)) s1)
  | _ =>
      s1 <- recordHit 1
              (LNum (sectorAt (sectorIndex
                 (sectorHit (mkDOMRect 10 20 300 300)
                    (mkMouseEvent 47 211)))))
              (ring_mult (spec_ring_of_click (mkDOMRect 10 20 300 300)
                            (mkMouseEvent 47 211)))
              (sectorAt (sectorIndex
                 (sectorHit (mkDOMRect 10 20 300 300) (mkMouseEvent 47 211)))
               * ring_mult (spec_ring_of_click (mkDOMRect 10 20 300 300)
                              (mkMouseEvent 47 211)))
              (mkGameState 301
                 [mkPlayer "1" "Ann" 301 []; mkPlayer "2" "Bob" 120 []]
                 1 true 3 false "" false None BULL 1) ;;
      Ok (setLastHit
            (Some (sectorHit (mkDOMRect 10 20 300 300)
                     (mkMouseEvent 47 211))) s1)
  end /\
  mult (sectorHit (mkDOMRect 10 20 300 300) (mkMouseEvent 47 211))
  = ring_mult (spec_ring_of_click (mkDOMRect 10 20 300 300)
                 (mkMouseEvent 47 211)) /\
  rawScore (sectorHit (mkDOMRect 10 20 300 300) (mkMouseEvent 47 211))
  = sectorAt (sectorIndex
      (sectorHit (mkDOMRect 10 20 300 300) (mkMouseEvent 47 211)))
    * ring_mult (spec_ring_of_click (mkDOMRect 10 20 300 300)
                   (mkMouseEvent 47 211)).
Proof.
  apply (onBoardClick_ring_normalized
           (mkGameState 301
              [mkPlayer "1" "Ann" 301 []; mkPlayer "2" "Bob" 120 []]
              1 true 3 false "" false None BULL 1)
           (mkDOMRect 10 20 300 300) (mkMouseEvent 47 211)).
  - discriminate.
  - unfold pixelRadius. simpl. lra.
Defined.
